(** * NLP_pytorch_project: the title-generation feature pipeline and the
      Transformer decoder, embedded in Rocq.

    Two source files are modelled:
    - [Text_Generation/GPT2_TitleGen/data_process.py]  (Module [data_process])
    - [NMT/Transformers_NMT/transformer/decoder.py]    (Module [decoder])

    Python values are embedded shallowly: ints as [Z], lists as [list],
    dicts as stdpp's [gmap], [str] as [string] (UTF-8 bytes), exceptions as
    the error branch of a small monad.  Tensors of ids are nested lists of
    [Z]; tensors of activations are nested lists of [Q]. *)

From Stdlib Require Import ZArith QArith Ascii String Lia.
From stdpp Require Import base option list gmap strings pretty sorting.

Open Scope string_scope.
Open Scope list_scope.
Open Scope Z_scope.

(** ** Python exceptions and the error monad *)

Inductive exn : Type :=
  | AssertionError
  | KeyError (key : string)
  | IndexError
  | TypeError
  | AttributeError (name : string)
  | FileNotFoundError (path : string)
  | DecodeError
  | RuntimeError.

Inductive exc (A : Type) : Type :=
  | Ok (a : A)
  | Err (e : exn).
Arguments Ok {A} a.
Arguments Err {A} e.

Definition exc_bind {A B} (m : exc A) (k : A → exc B) : exc B :=
  match m with
  | Ok a => k a
  | Err e => Err e
  end.

#[global] Instance exc_mret : MRet exc := @Ok.
#[global] Instance exc_mbind : MBind exc := λ A B k m, exc_bind m k.

(** [assert c] *)
Definition py_assert (c : bool) : exc unit :=
  if c then Ok tt else Err AssertionError.

(** [d[k]] on a dict *)
Definition getitem {V} (d : gmap string V) (k : string) : exc V :=
  match d !! k with
  | Some v => Ok v
  | None => Err (KeyError k)
  end.

(** [len(l)] *)
Definition len {A} (l : list A) : Z := Z.of_nat (length l).

(** [l[:stop]]: a negative [stop] counts from the end of the list. *)
Definition slice_to {A} (l : list A) (stop : Z) : list A :=
  if 0 <=? stop then take (Z.to_nat stop) l
  else take (Z.to_nat (len l + stop)) l.

(** [l[idx]]: a negative [idx] counts from the end; outside the list it
    raises [IndexError]. *)
Definition py_getitem {A} (l : list A) (idx : Z) : exc A :=
  let i := if idx <? 0 then idx + len l else idx in
  if (0 <=? i) && (i <? len l)
  then match l !! Z.to_nat i with Some x => Ok x | None => Err IndexError end
  else Err IndexError.

(** [[x] * n] *)
Definition list_times {A} (x : A) (n : Z) : list A := replicate (Z.to_nat n) x.

(** [s.replace(c, by)] for a one-character pattern [c].  A [string] holds the
    UTF-8 bytes of the Python [str]; the space byte never occurs inside a
    multi-byte sequence, so replacing bytes replaces characters. *)
Fixpoint str_replace_char (c : ascii) (by_ : string) (s : string) : string :=
  match s with
  | EmptyString => EmptyString
  | String a s' =>
      if Ascii.eqb a c then by_ +:+ str_replace_char c by_ s'
      else String a (str_replace_char c by_ s')
  end.

(** [max(l)] over lengths, 0 for the empty list (callers guard emptiness). *)
Definition max_len_of {A} (ls : list (list A)) : nat :=
  foldr (λ l m, Nat.max (length l) m) 0%nat ls.

(** A row of [n] pad values with [l] copied into its front. *)
Definition pad_to {A} (n : nat) (pad : A) (l : list A) : list A :=
  l ++ replicate (n - length l) pad.

(** [torch.nn.utils.rnn.pad_sequence(seqs, batch_first=True, padding_value)] *)
Definition pad_sequence {A} (seqs : list (list A)) (padding_value : A)
  : list (list A) :=
  map (pad_to (max_len_of seqs) padding_value) seqs.

(** ** data_process.py *)

Module data_process.

(** The pretrained tokenizer is an external object; the pipeline uses its
    [tokenize], its vocabulary lookup and two special-token ids. *)
Class Tokenizer := {
  tokenize : string → list string;
  token_to_id : string → Z;
  cls_token_id : Z;
  sep_token_id : Z;
}.

(** [tokenizer.convert_tokens_to_ids] on a list of tokens. *)
Definition convert_tokens_to_ids `{Tokenizer} (tokens : list string) : list Z :=
  map token_to_id tokens.

(** The fields [__init__] sets on a [GPT2NewsTitleDataSet]. *)
Record GPT2NewsTitleDataSet := {
  content_id : Z;
  title_id : Z;
  space_id : Z;
  max_len : Z;
  title_max_len : Z;
  data_set : list (gmap string (list Z));
}.

Section convert.
Context `{Tokenizer}.

Definition convert_feature (self : GPT2NewsTitleDataSet)
    (sample : gmap string string) : exc (list Z * list Z) :=
  content ← getitem sample "content";
  let content_tokens := tokenize content in
  title ← getitem sample "title";
  let title_tokens := tokenize (str_replace_char " " "[Space]" title) in
  let title_tokens :=
    if title_max_len self <? len title_tokens
    then slice_to title_tokens (title_max_len self)
    else title_tokens in
  let content_tokens :=
    if max_len self - len title_tokens - 3 <? len content_tokens
    then slice_to content_tokens (max_len self - len title_tokens - 3)
    else content_tokens in
  (* 1. CLS *)
  let input_ids := [] ++ [cls_token_id] in
  let token_type_ids := [] ++ [content_id self] in
  (* 2. content id *)
  let input_ids := input_ids ++ convert_tokens_to_ids content_tokens in
  let token_type_ids :=
    token_type_ids ++ list_times (content_id self) (len content_tokens) in
  (* 3. SEP *)
  let input_ids := input_ids ++ [sep_token_id] in
  let token_type_ids := token_type_ids ++ [content_id self] in
  (* 4. title id *)
  let input_ids := input_ids ++ convert_tokens_to_ids title_tokens in
  let token_type_ids :=
    token_type_ids ++ list_times (title_id self) (len title_tokens) in
  (* 5. SEP *)
  let input_ids := input_ids ++ [sep_token_id] in
  let token_type_ids := token_type_ids ++ [title_id self] in
  _ ← py_assert (len input_ids =? len token_type_ids);
  _ ← py_assert (len input_ids <=? max_len self);
  Ok (input_ids, token_type_ids).

(** [{'input_ids': input_ids, 'token_type_ids': token_type_ids}] *)
Definition feature_dict (input_ids token_type_ids : list Z)
  : gmap string (list Z) :=
  {[ "input_ids" := input_ids; "token_type_ids" := token_type_ids ]}.

(** [load_data] without its file access: the loop over the parsed JSON
    array, appending one feature dict per sample. *)
Fixpoint load_data_loop (self : GPT2NewsTitleDataSet)
    (data : list (gmap string string))
    (acc : list (gmap string (list Z)))
  : exc (list (gmap string (list Z))) :=
  match data with
  | [] => Ok acc
  | sample :: rest =>
      '(input_ids, token_type_ids) ← convert_feature self sample;
      load_data_loop self rest (acc ++ [feature_dict input_ids token_type_ids])
  end.

End convert.

(** *** Files and the cache *)

(** What a file holds: a JSON array of string-valued objects (the raw
    corpus), an object written by [torch.save] (a dict from names to feature
    lists), or content that is neither JSON text nor a saved object, which
    both loaders reject.  JSON text of another shape (an object, a number,
    an array with members that are not objects of strings) is not among
    the files of the model.  The model has plain files only: no
    directories and no permissions, so writing always succeeds. *)
Inductive file : Type :=
  | JsonFile (data : list (gmap string string))
  | TorchFile (obj : gmap string (list (gmap string (list Z))))
  | OtherFile.

Inductive event : Type :=
  | EvPrintCacheHit (path : string)
  | EvPrintCacheMiss (path : string)
  | EvPrintCacheSaved (path : string)
  | EvOpenRead (path : string)
  | EvTorchLoad (path : string)
  | EvTorchSave (path : string).

Record world := {
  files : gmap string file;
  trace : list event;
}.

Definition io (A : Type) : Type := world → exc A * world.

Definition io_ret {A} (a : A) : io A := λ w, (Ok a, w).
Definition io_bind {A B} (m : io A) (k : A → io B) : io B :=
  λ w, match m w with
       | (Ok a, w') => k a w'
       | (Err e, w') => (Err e, w')
       end.
Definition io_lift {A} (m : exc A) : io A := λ w, (m, w).
Definition emit (e : event) : io unit :=
  λ w, (Ok tt, {| files := files w; trace := trace w ++ [e] |}).

#[global] Instance io_mret : MRet io := @io_ret.
#[global] Instance io_mbind : MBind io := λ A B k m, io_bind m k.

(** [os.path.exists] *)
Definition path_exists (path : string) : io bool :=
  λ w, (Ok (bool_decide (is_Some (files w !! path))), w).

(** [open(path, 'r')] followed by [json.load]. *)
Definition open_json (path_file : option string)
  : io (list (gmap string string)) :=
  match path_file with
  | None => io_lift (Err TypeError)
  | Some path =>
      λ w, match files w !! path with
           | None => (Err (FileNotFoundError path), w)
           | Some f =>
               let w' := {| files := files w;
                            trace := trace w ++ [EvOpenRead path] |} in
               match f with
               | JsonFile data => (Ok data, w')
               | _ => (Err DecodeError, w')
               end
           end
  end.

(** [torch.load(path)] *)
Definition torch_load (path : string)
  : io (gmap string (list (gmap string (list Z)))) :=
  λ w, match files w !! path with
       | None => (Err (FileNotFoundError path), w)
       | Some f =>
           let w' := {| files := files w;
                        trace := trace w ++ [EvTorchLoad path] |} in
           match f with
           | TorchFile obj => (Ok obj, w')
           | _ => (Err DecodeError, w')
           end
       end.

(** [torch.save(obj, path)] *)
Definition torch_save (obj : gmap string (list (gmap string (list Z))))
    (path : string) : io unit :=
  λ w, (Ok tt, {| files := <[path := TorchFile obj]> (files w);
                  trace := trace w ++ [EvTorchSave path] |}).

(** [os.path.join(a, b)] for a relative [b]. *)
Definition ends_with_slash (a : string) : bool :=
  match String.get (String.length a - 1) a with
  | Some c => Ascii.eqb c "/"
  | None => false
  end.

Definition path_join (a b : string) : string :=
  if String.eqb a "" then b
  else if ends_with_slash a then a +:+ b
  else a +:+ "/" +:+ b.

(** ["cached_{}_{}".format(data_set_name, max_len)] *)
Definition cached_name (data_set_name : string) (max_len : Z) : string :=
  "cached_" +:+ data_set_name +:+ "_" +:+ pretty max_len.

Section dataset.
Context `{Tokenizer}.

Definition load_data (self : GPT2NewsTitleDataSet)
    (path_file : option string) : io (list (gmap string (list Z))) :=
  data ← open_json path_file;
  io_lift (load_data_loop self data []).

Definition __init__ (max_len title_max_len : Z)
    (data_dir data_set_name : string) (path_file : option string)
    (is_overwrite : bool) : io GPT2NewsTitleDataSet :=
  let self := {| content_id := token_to_id "[Content]";
                 title_id := token_to_id "[Title]";
                 space_id := token_to_id "[Space]";
                 max_len := max_len;
                 title_max_len := title_max_len;
                 data_set := [] |} in
  let set_data_set d := {| content_id := content_id self;
                           title_id := title_id self;
                           space_id := space_id self;
                           max_len := max_len;
                           title_max_len := title_max_len;
                           data_set := d |} in
  let cached_feature_file :=
    path_join data_dir (cached_name data_set_name max_len) in
  found ← path_exists cached_feature_file;
  if found && negb is_overwrite then
    _ ← emit (EvPrintCacheHit cached_feature_file);
    obj ← torch_load cached_feature_file;
    d ← io_lift (getitem obj "data_set");
    mret (set_data_set d)
  else
    _ ← emit (EvPrintCacheMiss cached_feature_file);
    d ← load_data self path_file;
    _ ← emit (EvPrintCacheSaved cached_feature_file);
    _ ← torch_save {[ "data_set" := d ]} cached_feature_file;
    mret (set_data_set d).

End dataset.

(** [GPT2NewsTitleDataSet.__len__] *)
Definition __len__ (self : GPT2NewsTitleDataSet) : Z := len (data_set self).

(** [GPT2NewsTitleDataSet.__getitem__] *)
Definition __getitem__ (self : GPT2NewsTitleDataSet) (idx : Z)
  : exc (gmap string (list Z)) :=
  py_getitem (data_set self) idx.

(** Number of times a raw corpus file was opened. *)
Definition is_open_read (e : event) : bool :=
  match e with EvOpenRead _ => true | _ => false end.
Definition raw_reads (tr : list event) : nat :=
  length (List.filter is_open_read tr).

(** *** Collation *)

(** [torch.tensor(ids, dtype=torch.long)] keeps the ids as they are
    (vocabulary indices, far inside the 64-bit range). *)
Fixpoint collate_loop (batch_data : list (gmap string (list Z)))
    (input_ids_list token_type_ids_list : list (list Z))
  : exc (list (list Z) * list (list Z)) :=
  match batch_data with
  | [] => Ok (input_ids_list, token_type_ids_list)
  | instance :: rest =>
      input_ids_temp ← getitem instance "input_ids";
      token_type_ids_temp ← getitem instance "token_type_ids";
      collate_loop rest (input_ids_list ++ [input_ids_temp])
                        (token_type_ids_list ++ [token_type_ids_temp])
  end.

Definition collate_func (batch_data : list (gmap string (list Z)))
  : exc (gmap string (list (list Z))) :=
  let batch_size := len batch_data in
  if batch_size =? 0 then Ok ∅
  else
    '(input_ids_list, token_type_ids_list) ← collate_loop batch_data [] [];
    Ok {[ "input_ids" := pad_sequence input_ids_list 0;
          "token_type_ids" := pad_sequence token_type_ids_list 0 ]}.

End data_process.

(** ** decoder.py *)

Module decoder.

(** *** Programs that may stop at a debugger breakpoint

    [Break k] is [ipdb.set_trace()]: the process stops at the prompt and only
    goes on with [k] when someone continues it. *)
Inductive prog (A : Type) : Type :=
  | Ret (a : A)
  | Raise (e : exn)
  | Break (k : prog A).
Arguments Ret {A} a.
Arguments Raise {A} e.
Arguments Break {A} k.

Fixpoint prog_bind {A B} (m : prog A) (k : A → prog B) : prog B :=
  match m with
  | Ret a => k a
  | Raise e => Raise e
  | Break m' => Break (prog_bind m' k)
  end.

#[global] Instance prog_mret : MRet prog := @Ret.
#[global] Instance prog_mbind : MBind prog := λ A B k m, prog_bind m k.

Definition lift {A} (m : exc A) : prog A :=
  match m with
  | Ok a => Ret a
  | Err e => Raise e
  end.

(** Running with nobody at the prompt: [None] when the program is stuck at
    a breakpoint. *)
Definition run_unattended {A} (m : prog A) : option (exc A) :=
  match m with
  | Ret a => Some (Ok a)
  | Raise e => Some (Err e)
  | Break _ => None
  end.

(** Running with an operator who continues at every breakpoint. *)
Fixpoint resume {A} (m : prog A) : exc A :=
  match m with
  | Ret a => Ok a
  | Raise e => Err e
  | Break k => resume k
  end.

(** Number of breakpoints a program stops at before it ends. *)
Fixpoint breaks {A} (m : prog A) : nat :=
  match m with
  | Break k => S (breaks k)
  | _ => 0%nat
  end.

(** *** Tensors *)

(** [B x T] tensors of ids, [B x T x D] tensors of activations and
    [B x T x T] masks (uint8, wrapping at 256).  Activations and weights
    are finite floats, taken as rationals: rounding, infinities and NaN
    are not represented.  The elementwise operations and the products
    below are those of torch on operands whose sizes agree; where the
    sizes differ torch raises, which is not represented either (the list
    operations stop at the shorter operand). *)
Abbreviation ids2 := (list (list Z)).
Abbreviation act3 := (list (list (list Q))).
Abbreviation mask3 := (list (list (list Z))).
Abbreviation matrix := (list (list Q)).

Definition map3 {A B} (f : A → B) (t : list (list (list A)))
  : list (list (list B)) := map (map (map f)) t.

Definition zip3 {A B C} (f : A → B → C)
    (s : list (list (list A))) (t : list (list (list B)))
  : list (list (list C)) := zip_with (zip_with (zip_with f)) s t.

(** [t.size()] of a two-dimensional tensor *)
Definition size2 {A} (t : list (list A)) : nat * nat :=
  (length t, match t with [] => 0%nat | r :: _ => length r end).

Definition u8_add (a b : Z) : Z := (a + b) mod 256.

(** [t.gt(0)] *)
Definition gt0 (t : mask3) : list (list (list bool)) := map3 (λ a, 0 <? a) t.

(** [x * c] for a Python float [c] *)
Definition scale3 (c : Q) (t : act3) : act3 := map3 (λ q, Qmult q c) t.
Definition add3 (s t : act3) : act3 := zip3 Qplus s t.

(** [dec_output *= non_pad_mask] with a [B x T x 1] mask broadcast over the
    last dimension. *)
Definition mul_mask (t : act3) (non_pad_mask : list (list Q)) : act3 :=
  zip_with (λ row mrow, zip_with (λ v m, map (λ q, Qmult q m) v) row mrow)
           t non_pad_mask.

Definition dot (u v : list Q) : Q := foldr Qplus 0%Q (zip_with Qmult u v).

(** *** Parameter storage and module objects *)

(** Weight tensors live in a store; a module holds the location of its
    [weight], so two modules can hold the same one. *)
Abbreviation loc := nat.
Abbreviation heap := (list matrix).

Definition alloc (h : heap) (m : matrix) : loc * heap := (length h, h ++ [m]).

Record DecoderLayer := {
  dl_index : nat;
  dl_d_model : Z;
  dl_d_inner : Z;
  dl_n_head : Z;
  dl_d_k : Z;
  dl_d_v : Z;
  dl_dropout : Q;
}.

(** What an attribute of a [Decoder] can hold. *)
Inductive value : Type :=
  | VInt (z : Z)
  | VFloat (q : Q)
  | VBool (b : bool)
  | VEmbedding (weight : loc)
  | VPositionalEncoding (d_model max_len : Z)
  | VDropout (p : Q)
  | VModuleList (layers : list DecoderLayer)
  | VLinear (weight : loc).

(** [self.name]: [nn.Module.__getattr__] raises [AttributeError] for a name
    that was never assigned. *)
Definition getattr (self : gmap string value) (name : string) : exc value :=
  match self !! name with
  | Some v => Ok v
  | None => Err (AttributeError name)
  end.

Definition as_int (v : value) : exc Z :=
  match v with VInt z => Ok z | _ => Err TypeError end.
Definition as_float (v : value) : exc Q :=
  match v with
  | VFloat q => Ok q
  | VInt z => Ok (inject_Z z)
  | _ => Err TypeError
  end.

(** The [weight] of a module, and reading and writing through it. *)
Definition weight_of (v : value) : option loc :=
  match v with
  | VEmbedding l | VLinear l => Some l
  | _ => None
  end.
Definition read_weight (h : heap) (v : value) : option matrix :=
  l ← weight_of v; h !! l.
Definition write_weight (h : heap) (v : value) (m : matrix) : heap :=
  match weight_of v with
  | Some l => <[l := m]> h
  | None => h
  end.

(** [nn.Embedding.forward]: row [i] of the table for id [i]; an id outside
    the table raises [IndexError]. *)
Definition embed_row (w : matrix) (i : Z) : exc (list Q) :=
  if (0 <=? i) && (i <? len w)
  then match w !! Z.to_nat i with Some r => Ok r | None => Err IndexError end
  else Err IndexError.

Fixpoint mapM {A B} (f : A → exc B) (l : list A) : exc (list B) :=
  match l with
  | [] => Ok []
  | x :: l' => y ← f x; ys ← mapM f l'; Ok (y :: ys)
  end.

Definition embedding_forward (h : heap) (m : value) (ys : ids2) : exc act3 :=
  match m with
  | VEmbedding l =>
      match h !! l with
      | Some w => mapM (mapM (embed_row w)) ys
      | None => Err RuntimeError
      end
  | _ => Err TypeError
  end.

(** [nn.Linear(bias=False).forward]: [x @ weight.T]. *)
Definition linear_rows (w : matrix) (x : list (list Q)) : list (list Q) :=
  map (λ v, map (dot v) w) x.

Definition linear_forward (h : heap) (m : value) (x : act3) : exc act3 :=
  match m with
  | VLinear l =>
      match h !! l with
      | Some w => Ok (map (linear_rows w) x)
      | None => Err RuntimeError
      end
  | _ => Err TypeError
  end.

(** What the decoder takes from outside this file: [Config.IGNORE_ID], the
    float power [d_model ** -0.5], and the forward functions of the modules
    defined in [attention.py], [module.py] and the framework. *)
Class Env := {
  IGNORE_ID : Z;
  pow_neg_half : Z → Q;
  PositionalEncoding_forward : Z → Z → ids2 → act3;
  Dropout_forward : Q → act3 → act3;
  MultiHeadAttention_forward :
    DecoderLayer → bool → act3 → act3 → act3 →
    option (list (list (list bool))) → act3 * act3;
  PositionwiseFeedForward_forward : DecoderLayer → act3 → act3;
  log_softmax : list Q → list Q;
  topk : list Q → Z → exc (list (Q * Z));
}.

(** Modelled from the spec: [pad_list] of [utils.py], which right-pads every
    sequence of a batch to the batch's maximum length with the pad value. *)
Definition pad_list (xs : ids2) (pad_value : Z) : ids2 :=
  map (pad_to (max_len_of xs) pad_value) xs.

(** Modelled from the spec: [get_non_pad_mask] of [utils.py], zero at every
    position that equals the pad id and one elsewhere. *)
Definition get_non_pad_mask (padded_input : ids2) (pad_idx : Z)
  : list (list Q) :=
  map (map (λ y, if y =? pad_idx then 0%Q else 1%Q)) padded_input.

(** Modelled from the spec: [get_subsequent_mask] of [utils.py], the strictly
    upper-triangular causal mask: entry [(i, j)] is set when [j > i]. *)
Definition get_subsequent_mask (seq : ids2) : mask3 :=
  map (λ row,
         let T := length row in
         map (λ i, map (λ j, if (i <? j)%nat then 1 else 0) (List.seq 0 T))
             (List.seq 0 T))
      seq.

(** Modelled from the spec: [get_attn_key_pad_mask] of [utils.py], which
    blocks, for every query position, the key positions holding the pad id. *)
Definition get_attn_key_pad_mask (seq_k seq_q : ids2) (pad_idx : Z) : mask3 :=
  zip_with (λ krow qrow,
              map (λ _, map (λ y, if y =? pad_idx then 1 else 0) krow) qrow)
           seq_k seq_q.

(** Modelled from the spec: [get_attn_pad_mask] of [utils.py], derived from
    the valid encoder lengths alone and repeated for every decoder step. *)
Definition get_attn_pad_mask (padded_input : act3) (input_lengths : list Z)
    (expand_length : nat) : list (list (list bool)) :=
  zip_with (λ enc n,
              replicate expand_length
                (map (λ j, n <=? Z.of_nat j) (List.seq 0 (length enc))))
           padded_input input_lengths.

(** Arguments of [Decoder.__init__]. *)
Record init_args := {
  sos_id : Z;
  eos_id : Z;
  n_tgt_vocab : Z;
  d_word_vec : Z;
  n_layers : Z;
  n_head : Z;
  d_k : Z;
  d_v : Z;
  d_model : Z;
  d_inner : Z;
  dropout : Q;
  tgt_emb_prj_weight_sharing : bool;
  pe_maxlen : Z;
}.

Section Decoder.
Context `{Env}.

Definition new_layer (a : init_args) (i : nat) : DecoderLayer :=
  {| dl_index := i; dl_d_model := d_model a; dl_d_inner := d_inner a;
     dl_n_head := n_head a; dl_d_k := d_k a; dl_d_v := d_v a;
     dl_dropout := dropout a |}.

(** [Decoder.__init__].  [emb_init] and [prj_init] are the values drawn by
    the initialisers of [nn.Embedding] and [xavier_normal_]. *)
Definition __init__ (a : init_args) (emb_init prj_init : matrix) (h : heap)
  : gmap string value * heap :=
  let self : gmap string value := ∅ in
  let self := <["sos_id" := VInt (sos_id a)]> self in
  let self := <["eos_id" := VInt (eos_id a)]> self in
  let self := <["n_tgt_vocab" := VInt (n_tgt_vocab a)]> self in
  let self := <["d_word_vec" := VInt (d_word_vec a)]> self in
  let self := <["n_layers" := VInt (n_layers a)]> self in
  let self := <["n_head" := VInt (n_head a)]> self in
  let self := <["d_k" := VInt (d_k a)]> self in
  let self := <["d_v" := VInt (d_v a)]> self in
  let self := <["d_model" := VInt (d_model a)]> self in
  let self := <["d_inner" := VInt (d_inner a)]> self in
  let self := <["dropout" := VFloat (dropout a)]> self in
  let self := <["tgt_emb_prj_weight_sharing" :=
                  VBool (tgt_emb_prj_weight_sharing a)]> self in
  let self := <["pe_maxlen" := VInt (pe_maxlen a)]> self in
  let '(emb_w, h) := alloc h emb_init in
  let self := <["tgt_word_emb" := VEmbedding emb_w]> self in
  let self :=
    <["pos_emb" := VPositionalEncoding (d_model a) (pe_maxlen a)]> self in
  let self := <["dropout" := VDropout (dropout a)]> self in
  let self :=
    <["layer_stack" :=
        VModuleList (map (new_layer a) (seq 0 (Z.to_nat (n_layers a))))]>
      self in
  let '(prj_w, h) := alloc h prj_init in
  let self := <["tgt_word_prj" := VLinear prj_w]> self in
  if tgt_emb_prj_weight_sharing a then
    let self := <["tgt_word_prj" := VLinear emb_w]> self in
    let self := <["x_logit_scale" := VFloat (pow_neg_half (d_model a))]> self in
    (self, h)
  else
    let self := <["x_logit_scale" := VFloat 1%Q]> self in
    (self, h).

(** [Decoder.preprocess] *)
Definition preprocess (self : gmap string value) (padded_input : ids2)
  : exc (ids2 * ids2) :=
  let ys := map (List.filter (λ t, negb (t =? IGNORE_ID))) padded_input in
  _ ← (match ys with [] => Err IndexError | y0 :: _ => Ok y0 end);
  eos ← getattr self "eos_id" ≫= as_int;
  _ ← (match ys with [] => Err IndexError | y0 :: _ => Ok y0 end);
  sos ← getattr self "sos_id" ≫= as_int;
  let ys_in := map (λ y, [sos] ++ y) ys in
  let ys_out := map (λ y, y ++ [eos]) ys in
  let ys_in_pad := pad_list ys_in eos in
  let ys_out_pad := pad_list ys_out IGNORE_ID in
  _ ← py_assert (bool_decide (size2 ys_in_pad = size2 ys_out_pad));
  Ok (ys_in_pad, ys_out_pad).

(** The decoder self-attention mask of [forward]:
    [(slf_attn_mask_keypad + slf_attn_mask_subseq).gt(0)]. *)
Definition slf_attn_mask_of (ys_in_pad : ids2) (eos : Z)
  : list (list (list bool)) :=
  let slf_attn_mask_subseq := get_subsequent_mask ys_in_pad in
  let slf_attn_mask_keypad := get_attn_key_pad_mask ys_in_pad ys_in_pad eos in
  gt0 (zip3 u8_add slf_attn_mask_keypad slf_attn_mask_subseq).

(** Calling the module held by an attribute. *)
Definition call_pos (m : value) (ys : ids2) : exc act3 :=
  match m with
  | VPositionalEncoding d n => Ok (PositionalEncoding_forward d n ys)
  | _ => Err TypeError
  end.
Definition call_dropout (m : value) (x : act3) : exc act3 :=
  match m with
  | VDropout p => Ok (Dropout_forward p x)
  | _ => Err TypeError
  end.
Definition as_layers (m : value) : exc (list DecoderLayer) :=
  match m with
  | VModuleList ls => Ok ls
  | _ => Err TypeError
  end.

(** [DecoderLayer.forward] *)
Definition DecoderLayer_forward (layer : DecoderLayer)
    (dec_input enc_output : act3) (non_pad_mask : list (list Q))
    (slf_attn_mask dec_enc_attn_mask : option (list (list (list bool))))
  : prog (act3 * act3 * act3) :=
  Break
    (let '(dec_output, dec_slf_attn) :=
       MultiHeadAttention_forward layer true
         dec_input dec_input dec_input slf_attn_mask in
     let dec_output := mul_mask dec_output non_pad_mask in
     let '(dec_output, dec_enc_attn) :=
       MultiHeadAttention_forward layer false
         dec_output enc_output enc_output dec_enc_attn_mask in
     let dec_output := mul_mask dec_output non_pad_mask in
     let dec_output := PositionwiseFeedForward_forward layer dec_output in
     let dec_output := mul_mask dec_output non_pad_mask in
     Ret (dec_output, dec_slf_attn, dec_enc_attn)).

(** [for dec_layer in self.layer_stack: ...] of [forward] *)
Fixpoint run_layers (layers : list DecoderLayer)
    (dec_output enc_output : act3) (non_pad_mask : list (list Q))
    (slf_attn_mask dec_enc_attn_mask : option (list (list (list bool))))
    (return_attns : bool) (dec_slf_attn_list dec_enc_attn_list : list act3)
  : prog (act3 * list act3 * list act3) :=
  match layers with
  | [] => Ret (dec_output, dec_slf_attn_list, dec_enc_attn_list)
  | dec_layer :: rest =>
      '(dec_output, dec_slf_attn, dec_enc_attn) ←
        DecoderLayer_forward dec_layer dec_output enc_output
          non_pad_mask slf_attn_mask dec_enc_attn_mask;
      if return_attns then
        run_layers rest dec_output enc_output non_pad_mask
          slf_attn_mask dec_enc_attn_mask return_attns
          (dec_slf_attn_list ++ [dec_slf_attn])
          (dec_enc_attn_list ++ [dec_enc_attn])
      else
        run_layers rest dec_output enc_output non_pad_mask
          slf_attn_mask dec_enc_attn_mask return_attns
          dec_slf_attn_list dec_enc_attn_list
  end.

(** [Decoder.forward]; the attention lists are returned only when
    [return_attns] is set. *)
Definition forward (self : gmap string value) (h : heap)
    (padded_input : ids2) (encoder_padded_outputs : act3)
    (encoder_input_lengths : list Z) (return_attns : bool)
  : prog (act3 * ids2 * option (list act3 * list act3)) :=
  '(ys_in_pad, ys_out_pad) ← lift (preprocess self padded_input);
  emb ← lift (getattr self "tgt_word_emb");
  e ← lift (embedding_forward h emb ys_in_pad);
  x_logit_scale ← lift (getattr self "x_logit_scale" ≫= as_float);
  let ys_in_fuse_embed := scale3 x_logit_scale e in
  pos_emb ← lift (getattr self "pos_emb");
  pe ← lift (call_pos pos_emb ys_in_pad);
  let ys_in_fuse_embed := add3 ys_in_fuse_embed pe in
  drop ← lift (getattr self "dropout");
  dec_output ← lift (call_dropout drop ys_in_fuse_embed);
  eos ← lift (getattr self "eos_id" ≫= as_int);
  let non_pad_mask := get_non_pad_mask ys_in_pad eos in
  let dec_enc_attn_mask :=
    get_attn_pad_mask encoder_padded_outputs encoder_input_lengths
      (snd (size2 ys_in_pad)) in
  eos ← lift (getattr self "eos_id" ≫= as_int);
  let slf_attn_mask := slf_attn_mask_of ys_in_pad eos in
  layer_stack ← lift (getattr self "layer_stack" ≫= as_layers);
  '(dec_output, dec_slf_attn_list, dec_enc_attn_list) ←
    run_layers layer_stack dec_output encoder_padded_outputs non_pad_mask
      (Some slf_attn_mask) (Some dec_enc_attn_mask) return_attns [] [];
  prj ← lift (getattr self "tgt_word_prj");
  seq_logit ← lift (linear_forward h prj dec_output);
  let '(pred, gold) := (seq_logit, ys_out_pad) in
  if return_attns
  then Ret (pred, gold, Some (dec_slf_attn_list, dec_enc_attn_list))
  else Ret (pred, gold, None).

End Decoder.

(** *** Beam search *)

(** A hypothesis [{'score': ..., 'yseq': ...}]; [yseq] is the single row of
    the [1 x T] tensor. *)
Record hyp := {
  score : Q;
  yseq : list Z;
}.

(** [sorted(l, key=lambda x: x['score'], reverse=True)]: stable, so
    hypotheses of equal score keep their order. *)
Fixpoint insert_desc (x : hyp) (l : list hyp) : list hyp :=
  match l with
  | [] => [x]
  | y :: l' =>
      if Qle_bool (score x) (score y) then y :: insert_desc x l'
      else x :: y :: l'
  end.

Definition sorted_desc (l : list hyp) : list hyp :=
  foldl (λ acc x, insert_desc x acc) [] l.

(** The search loop of [recognize_beam], over the decoder pass [scores_of]
    that yields the [topk] candidates of a hypothesis and the lookup
    [eos_of] of [self.eos_id]. *)
Section beam_loop.
Variable scores_of : list Z → prog (list (Q * Z)).
Variable eos_of : exc Z.
Variables beam maxlen : Z.

(** [for j in range(beam): ...] *)
Fixpoint extend (h0 : hyp) (local_best : list (Q * Z)) (js : list nat)
    (hyps_best_kept : list hyp) : exc (list hyp) :=
  match js with
  | [] => Ok hyps_best_kept
  | j :: js' =>
      match local_best !! j with
      | None => Err IndexError
      | Some (s, i) =>
          let new_hyp := {| score := Qplus (score h0) s;
                            yseq := yseq h0 ++ [i] |} in
          extend h0 local_best js' (hyps_best_kept ++ [new_hyp])
      end
  end.

(** [for hyp in hyps: ...], pruning to [beam] after every hypothesis *)
Fixpoint expand (hyps hyps_best_kept : list hyp) : prog (list hyp) :=
  match hyps with
  | [] => Ret hyps_best_kept
  | h0 :: rest =>
      local_best ← scores_of (yseq h0);
      kept ← lift (extend h0 local_best (seq 0 (Z.to_nat beam))
                          hyps_best_kept);
      expand rest (slice_to (sorted_desc kept) beam)
  end.

(** the final loop: append [eos] to every hypothesis *)
Fixpoint force_eos (hyps : list hyp) : exc (list hyp) :=
  match hyps with
  | [] => Ok []
  | h0 :: rest =>
      eos ← eos_of;
      rest' ← force_eos rest;
      Ok ({| score := score h0; yseq := yseq h0 ++ [eos] |} :: rest')
  end.

(** move the hypotheses that end in [eos] to [ended_hyps] *)
Fixpoint split_ended (hyps ended_hyps remained_hyps : list hyp)
  : exc (list hyp * list hyp) :=
  match hyps with
  | [] => Ok (ended_hyps, remained_hyps)
  | h0 :: rest =>
      match last (yseq h0) with
      | None => Err IndexError
      | Some y =>
          eos ← eos_of;
          if y =? eos
          then split_ended rest (ended_hyps ++ [h0]) remained_hyps
          else split_ended rest ended_hyps (remained_hyps ++ [h0])
      end
  end.

(** one pass of [for i in range(maxlen)]: returns [(hyps, ended_hyps)] *)
Definition beam_step (i : Z) (hyps ended_hyps : list hyp)
  : prog (list hyp * list hyp) :=
  hyps ← expand hyps [];
  hyps ← lift (if i =? maxlen - 1 then force_eos hyps else Ok hyps);
  '(ended_hyps, remained_hyps) ← lift (split_ended hyps ended_hyps []);
  Ret (remained_hyps, ended_hyps).

Fixpoint beam_loop (n : nat) (i : Z) (hyps ended_hyps : list hyp)
  : prog (list hyp) :=
  match n with
  | O => Ret ended_hyps
  | S n' =>
      '(hyps, ended_hyps) ← beam_step i hyps ended_hyps;
      beam_loop n' (i + 1) hyps ended_hyps
  end.

End beam_loop.

Section Recognize.
Context `{Env}.

(** One decoder pass of [recognize_beam] over the sequence [ys] of a
    hypothesis, up to [torch.topk]. *)
Definition beam_scores (self : gmap string value) (h : heap)
    (encoder_outputs : act3) (beam : Z) (ys : list Z)
  : prog (list (Q * Z)) :=
  let non_pad_mask := [map (λ _, 1%Q) ys] in
  let slf_attn_mask := get_subsequent_mask [ys] in
  drop ← lift (getattr self "dropout");
  emb ← lift (getattr self "tgt_word_emb");
  e ← lift (embedding_forward h emb [ys]);
  x_logit_scale ← lift (getattr self "x_logit_scale" ≫= as_float);
  positional_encoding ← lift (getattr self "positional_encoding");
  pe ← lift (call_pos positional_encoding [ys]);
  dec_output ← lift (call_dropout drop (add3 (scale3 x_logit_scale e) pe));
  layer_stack ← lift (getattr self "layer_stack" ≫= as_layers);
  '(dec_output, _, _) ←
    run_layers layer_stack dec_output encoder_outputs non_pad_mask
      (Some (gt0 slf_attn_mask)) None false [] [];
  prj ← lift (getattr self "tgt_word_prj");
  final ← lift (mapM (λ rows, match last rows with
                              | Some r => Ok [r]
                              | None => Err IndexError
                              end) dec_output);
  seq_logit ← lift (linear_forward h prj final);
  let local_scores := log_softmax (concat (concat seq_logit)) in
  lift (topk local_scores beam).

(** [Decoder.recognize_beam].  The start id is written into a float tensor
    and converted back to an integer one; it is kept as it is here, which
    is exact for ids of magnitude at most [2 ^ 24]. *)
Definition recognize_beam (self : gmap string value) (h : heap)
    (encoder_outputs : list (list Q)) (char_list : list string)
  : prog (list hyp) :=
  let beam := 5 in
  let nbest := 1 in
  let maxlen := 100 in
  let encoder_outputs := [encoder_outputs] in
  sos ← lift (getattr self "sos_id" ≫= as_int);
  let ys := [sos] in
  let hyp0 := {| score := 0%Q; yseq := ys |} in
  let hyps := [hyp0] in
  let ended_hyps := [] in
  ended_hyps ←
    beam_loop (beam_scores self h encoder_outputs beam)
              (getattr self "eos_id" ≫= as_int) beam maxlen
              (Z.to_nat maxlen) 0 hyps ended_hyps;
  let nbest_hyps :=
    slice_to (sorted_desc ended_hyps) (Z.min (len ended_hyps) nbest) in
  Ret nbest_hyps.

End Recognize.

End decoder.

(** * Definitions used by the statements *)

(** The feature built from already truncated token lists. *)
Definition feature_of `{data_process.Tokenizer}
    (self : data_process.GPT2NewsTitleDataSet)
    (content_tokens title_tokens : list string) : list Z * list Z :=
  (data_process.cls_token_id
     :: data_process.convert_tokens_to_ids content_tokens
     ++ data_process.sep_token_id
     :: data_process.convert_tokens_to_ids title_tokens
     ++ [data_process.sep_token_id],
   replicate (length content_tokens + 2) (data_process.content_id self)
     ++ replicate (length title_tokens + 1) (data_process.title_id self)).

(** Entry [(b, i, j)] of a three-dimensional tensor. *)
Definition at3 {A} (t : list (list (list A))) (b i j : nat) : option A :=
  match t !! b with
  | Some m => match m !! i with Some r => r !! j | None => None end
  | None => None
  end.

(** Entry [(b, t)] of a two-dimensional tensor. *)
Definition at2 {A} (t : list (list A)) (b i : nat) : option A :=
  match t !! b with
  | Some r => r !! i
  | None => None
  end.

(** What [DecoderLayer.forward] returns once it is continued. *)
Definition layer_result `{decoder.Env} (layer : decoder.DecoderLayer)
    (dec_input enc_output : decoder.act3) (non_pad_mask : list (list Q))
    (slf_attn_mask dec_enc_attn_mask : option (list (list (list bool))))
  : decoder.act3 * decoder.act3 * decoder.act3 :=
  let r1 := decoder.MultiHeadAttention_forward layer true
              dec_input dec_input dec_input slf_attn_mask in
  let o1 := decoder.mul_mask r1.1 non_pad_mask in
  let r2 := decoder.MultiHeadAttention_forward layer false
              o1 enc_output enc_output dec_enc_attn_mask in
  let o2 := decoder.mul_mask r2.1 non_pad_mask in
  let o3 := decoder.mul_mask
              (decoder.PositionwiseFeedForward_forward layer o2)
              non_pad_mask in
  (o3, r1.2, r2.2).

(** The hypotheses that extend [h0] by one of its first [beam] candidates
    [(log-probability, id)], in the order of the candidates. *)
Definition candidates (f : list Z → list (Q * Z)) (beam : Z)
    (h0 : decoder.hyp) : list decoder.hyp :=
  map (λ '(s, i), {| decoder.score := Qplus (decoder.score h0) s;
                     decoder.yseq := decoder.yseq h0 ++ [i] |})
      (take (Z.to_nat beam) (f (decoder.yseq h0))).

(** Whether the last token of a hypothesis is [eos]. *)
Definition ends_with (eos : Z) (h0 : decoder.hyp) : bool :=
  match last (decoder.yseq h0) with
  | Some y => y =? eos
  | None => false
  end.

(** A hypothesis with [eos] appended, as in the last pass of the loop. *)
Definition with_eos (eos : Z) (h0 : decoder.hyp) : decoder.hyp :=
  {| decoder.score := decoder.score h0;
     decoder.yseq := decoder.yseq h0 ++ [eos] |}.

(** Hypotheses in descending order of score. *)
Definition score_ge (x y : decoder.hyp) : Prop :=
  Qle_bool (decoder.score y) (decoder.score x) = true.

(** The arguments [a] with [tgt_emb_prj_weight_sharing] set to [b]. *)
Definition with_sharing (a : decoder.init_args) (b : bool)
  : decoder.init_args := {|
  decoder.sos_id := decoder.sos_id a;
  decoder.eos_id := decoder.eos_id a;
  decoder.n_tgt_vocab := decoder.n_tgt_vocab a;
  decoder.d_word_vec := decoder.d_word_vec a;
  decoder.n_layers := decoder.n_layers a;
  decoder.n_head := decoder.n_head a;
  decoder.d_k := decoder.d_k a;
  decoder.d_v := decoder.d_v a;
  decoder.d_model := decoder.d_model a;
  decoder.d_inner := decoder.d_inner a;
  decoder.dropout := decoder.dropout a;
  decoder.tgt_emb_prj_weight_sharing := b;
  decoder.pe_maxlen := decoder.pe_maxlen a;
|}.

(** A weight table with every entry multiplied by [c]. *)
Definition scale_table (c : Q) (w : decoder.matrix) : decoder.matrix :=
  map (map (λ q, Qmult q c)) w.

(** Equality of activations as rationals. *)
Definition act3_eqb (s t : decoder.act3) : bool :=
  bool_decide (length s = length t)
  && forallb (λ '(m, n),
       bool_decide (length m = length n)
       && forallb (λ '(u, v),
            bool_decide (length u = length v)
            && forallb (λ '(x, y), Qeq_bool x y) (zip u v))
          (zip m n))
     (zip s t).

(** A byte-level tokenizer for the examples: one token per byte; the three
    special tokens have ids 1 to 3, any other token has its first byte. *)
Definition byte_tokenizer : data_process.Tokenizer := {|
  data_process.tokenize s :=
    (λ c, String c EmptyString) <$> list_ascii_of_string s;
  data_process.token_to_id t :=
    if String.eqb t "[Content]" then 1
    else if String.eqb t "[Title]" then 2
    else if String.eqb t "[Space]" then 3
    else match t with
         | String c _ => Z.of_N (N_of_ascii c)
         | EmptyString => 0
         end;
  data_process.cls_token_id := 101;
  data_process.sep_token_id := 102;
|}.

(** An environment for the examples, in evaluation mode: dropout is the
    identity, [d_model ** -0.5] is exact on perfect squares, the positional
    encoding is [sin 0, cos 0, ...] at position 0 and a rational stand-in
    elsewhere; attention and feed-forward pass their input through. *)
Definition example_env : decoder.Env := {|
  decoder.IGNORE_ID := -1;
  decoder.pow_neg_half d := (1 # Z.to_pos (Z.sqrt d))%Q;
  decoder.PositionalEncoding_forward d n ys :=
    map (λ row,
           imap (λ pos _,
                   map (λ k, if Nat.even (pos + k) then 0%Q else 1%Q)
                       (seq 0 (Z.to_nat d)))
                row) ys;
  decoder.Dropout_forward p x := x;
  decoder.MultiHeadAttention_forward layer slf q k v mask := (q, []);
  decoder.PositionwiseFeedForward_forward layer x := x;
  decoder.log_softmax l := l;
  decoder.topk l k :=
    if k <=? len l
    then Ok (take (Z.to_nat k) (zip l (Z.of_nat <$> seq 0 (length l))))
    else Err RuntimeError;
|}.

(** A four-dimensional decoder over a vocabulary of three ids. *)
Definition example_args (n_layers : Z) (sharing : bool) : decoder.init_args := {|
  decoder.sos_id := 0;
  decoder.eos_id := 1;
  decoder.n_tgt_vocab := 3;
  decoder.d_word_vec := 4;
  decoder.n_layers := n_layers;
  decoder.n_head := 1;
  decoder.d_k := 4;
  decoder.d_v := 4;
  decoder.d_model := 4;
  decoder.d_inner := 4;
  decoder.dropout := 0%Q;
  decoder.tgt_emb_prj_weight_sharing := sharing;
  decoder.pe_maxlen := 8;
|}.

Definition example_table : decoder.matrix :=
  [[1; 0; 0; 0]; [0; 1; 0; 0]; [0; 0; 1; 1]]%Q.

(** Example data for the feature pipeline. *)
Definition example_dataset : data_process.GPT2NewsTitleDataSet := {|
  data_process.content_id := 1;
  data_process.title_id := 2;
  data_process.space_id := 3;
  data_process.max_len := 20;
  data_process.title_max_len := 5;
  data_process.data_set := [];
|}.

Definition example_sample : gmap string string :=
  {[ "content" := "abcdefghij"; "title" := "xyz" ]}.

Definition example_long_sample : gmap string string :=
  {[ "content" := "abcdefghijklmnopqrstuvwxyz"; "title" := "x z" ]}.

Definition example_world : data_process.world := {|
  data_process.files :=
    {[ "raw.json" := data_process.JsonFile [example_sample; example_long_sample] ]};
  data_process.trace := [];
|}.

(** A first construction over [example_world], which has no cache yet. *)
Definition example_first_run
  : exc data_process.GPT2NewsTitleDataSet * data_process.world :=
  data_process.__init__ (H := byte_tokenizer) 20 5 "data" "train"
    (Some "raw.json") false example_world.

Definition example_first_dataset : data_process.GPT2NewsTitleDataSet :=
  match example_first_run.1 with
  | Ok ds => ds
  | Err _ => example_dataset
  end.

Definition example_batch : list (gmap string (list Z)) :=
  [data_process.feature_dict [1; 2; 3] [0; 0; 1];
   data_process.feature_dict [4] [1]].

(** [self.eos_id] as the search loop reads it. *)
Definition getattr_eos (self : gmap string decoder.value) : exc Z :=
  decoder.getattr self "eos_id" ≫= decoder.as_int.

(** Example decoders over [example_table], with and without sharing, and an
    encoder output of one frame. *)
Definition example_decoder (n_layers : Z) (sharing : bool)
  : gmap string decoder.value * decoder.heap :=
  decoder.__init__ (H := example_env) (example_args n_layers sharing)
    example_table example_table [].

Definition example_enc : decoder.act3 := [[[1; 0; 0; 0]]]%Q.

(** A sample without a title, and a corpus that holds it between two
    samples that convert. *)
Definition example_bad_sample : gmap string string :=
  {[ "content" := "abc" ]}.

Definition example_bad_world : data_process.world := {|
  data_process.files :=
    {[ "raw.json" := data_process.JsonFile
                       [example_sample; example_bad_sample;
                        example_long_sample] ]};
  data_process.trace := [];
|}.

(** The candidates of a decoder pass for the examples: three ids with
    their log-probabilities in descending order, whatever the prefix. *)
Definition example_scores (ys : list Z) : list (Q * Z) :=
  [(((-1) # 2)%Q, 2); (((-1) # 1)%Q, 1); (((-3) # 1)%Q, 0)].

(** A data set whose [max_len] leaves no room for a title of three tokens
    and the three special tokens. *)
Definition example_small_dataset : data_process.GPT2NewsTitleDataSet := {|
  data_process.content_id := 1;
  data_process.title_id := 2;
  data_process.space_id := 3;
  data_process.max_len := 4;
  data_process.title_max_len := 5;
  data_process.data_set := [];
|}.

(** The arguments of the example decoder with a start id outside its
    table of three rows. *)
Definition example_stray_args : decoder.init_args := {|
  decoder.sos_id := 7;
  decoder.eos_id := 1;
  decoder.n_tgt_vocab := 3;
  decoder.d_word_vec := 4;
  decoder.n_layers := 1;
  decoder.n_head := 1;
  decoder.d_k := 4;
  decoder.d_v := 4;
  decoder.d_model := 4;
  decoder.d_inner := 4;
  decoder.dropout := 0%Q;
  decoder.tgt_emb_prj_weight_sharing := true;
  decoder.pe_maxlen := 8;
|}.

(** * Properties *)

(** ** Lists, slices and padding *)

Lemma len_app {A} (l k : list A) : len (l ++ k) = len l + len k.
Proof. unfold len. rewrite length_app. lia. Qed.

Lemma len_nonneg {A} (l : list A) : 0 <= len l.
Proof. unfold len. lia. Qed.

Lemma len_list_times {A B} (x : A) (l : list B) :
  list_times x (len l) = replicate (length l) x.
Proof. unfold list_times, len. by rewrite Nat2Z.id. Qed.

Lemma replicate_snoc {A} (x : A) (n : nat) :
  replicate n x ++ [x] = replicate (n + 1) x.
Proof. induction n; simpl; congruence. Qed.

Lemma replicate_cons_snoc {A} (x : A) (n : nat) :
  x :: replicate n x ++ [x] = replicate (n + 2) x.
Proof. induction n; simpl; congruence. Qed.

(** The guarded slice [if len(l) > k: l = l[:k]] is [take] for [k >= 0]. *)
Lemma truncate_take {A} (l : list A) (k : Z) :
  0 <= k →
  (if k <? len l then slice_to l k else l) = take (Z.to_nat k) l.
Proof.
  intros Hk. unfold slice_to, len.
  destruct (Z.ltb_spec k (Z.of_nat (length l))) as [Hlt|Hge].
  - destruct (Z.leb_spec 0 k); [done | lia].
  - symmetry. apply take_ge. lia.
Qed.

Lemma len_take_le {A} (l : list A) (k : Z) :
  0 <= k → len (take (Z.to_nat k) l) <= k.
Proof. intros Hk. unfold len. rewrite length_take. lia. Qed.

(** For a negative bound the guarded slice still drops from the end. *)
Lemma truncate_negative {A} (l : list A) (k : Z) :
  k < 0 →
  (if k <? len l then slice_to l k else l) = take (Z.to_nat (len l + k)) l.
Proof.
  intros Hk. unfold slice_to. pose proof (len_nonneg l).
  destruct (Z.ltb_spec k (len l)); [|lia].
  destruct (Z.leb_spec 0 k); [lia | done].
Qed.

Lemma length_pad_to {A} (n : nat) (pad : A) (l : list A) :
  (length l ≤ n)%nat → length (pad_to n pad l) = n.
Proof. intros Hle. unfold pad_to. rewrite length_app, length_replicate. lia. Qed.

Lemma max_len_of_ge {A} (ls : list (list A)) (l : list A) :
  l ∈ ls → (length l ≤ max_len_of ls)%nat.
Proof.
  induction ls as [|x ls IH]; intros Hin.
  - by apply elem_of_nil in Hin.
  - apply elem_of_cons in Hin as [->|Hin]; simpl; [lia|].
    specialize (IH Hin). lia.
Qed.

Lemma max_len_of_attained {A} (ls : list (list A)) :
  ls ≠ [] → ∃ l, l ∈ ls ∧ length l = max_len_of ls.
Proof.
  induction ls as [|x ls IH]; [done|]. intros _.
  destruct ls as [|y ls'].
  - exists x. split; [left|]. simpl. lia.
  - destruct IH as (l & Hin & Hl); [done|].
    change (max_len_of (x :: y :: ls'))
      with (Nat.max (length x) (max_len_of (y :: ls'))).
    destruct (Nat.max_spec (length x) (max_len_of (y :: ls')))
      as [[_ ->]|[_ ->]].
    + exists l. split; [by right | done].
    + exists x. split; [left | done].
Qed.

Lemma max_len_of_map {A B} (f : list A → list B) (ls : list (list A)) (d : nat) :
  (∀ l, length (f l) = (length l + d)%nat) → ls ≠ [] →
  max_len_of (map f ls) = (max_len_of ls + d)%nat.
Proof.
  intros Hf. induction ls as [|x ls IH]; [done|]. intros _.
  destruct ls as [|y ls'].
  - simpl. rewrite Hf. lia.
  - change (max_len_of (map f (x :: y :: ls')))
      with (Nat.max (length (f x)) (max_len_of (map f (y :: ls')))).
    rewrite IH by done. rewrite Hf.
    change (max_len_of (x :: y :: ls'))
      with (Nat.max (length x) (max_len_of (y :: ls'))). lia.
Qed.

(** Every row of a padded batch is the sequence followed by pad values, and
    has the batch's maximum length. *)
Lemma pad_sequence_rows {A} (seqs : list (list A)) (pad : A) (i : nat)
    (l : list A) :
  seqs !! i = Some l →
  pad_sequence seqs pad !! i
    = Some (l ++ replicate (max_len_of seqs - length l) pad)
  ∧ length (l ++ replicate (max_len_of seqs - length l) pad) = max_len_of seqs.
Proof.
  intros Hi. unfold pad_sequence. rewrite list_lookup_fmap, Hi. split; [done|].
  apply length_pad_to, max_len_of_ge. by eapply list_elem_of_lookup_2.
Qed.

(** ** The feature builder *)

Section convert_feature_props.
Import data_process.
Context `{Tokenizer}.

Lemma feature_of_lengths self c t :
  length (feature_of self c t).1 = (length c + length t + 3)%nat
  ∧ length (feature_of self c t).2 = (length c + length t + 3)%nat.
Proof.
  unfold feature_of, convert_tokens_to_ids. simpl.
  rewrite !length_app, !length_replicate. simpl.
  rewrite !length_app, !length_map. simpl. lia.
Qed.

(** What [convert_feature] does after its two truncations. *)
Lemma convert_feature_build self sample content title :
  sample !! "content" = Some content →
  sample !! "title" = Some title →
  let toks_t := tokenize (str_replace_char " " "[Space]" title) in
  let t := if title_max_len self <? len toks_t
           then slice_to toks_t (title_max_len self) else toks_t in
  let toks_c := tokenize content in
  let c := if max_len self - len t - 3 <? len toks_c
           then slice_to toks_c (max_len self - len t - 3) else toks_c in
  convert_feature self sample =
    if len c + len t + 3 <=? max_len self
    then Ok (feature_of self c t) else Err AssertionError.
Proof.
  intros Hc Ht toks_t t toks_c c.
  unfold convert_feature, getitem. rewrite Hc, Ht. cbn [mbind exc_mbind exc_bind].
  fold toks_t. fold t. fold toks_c. fold c.
  rewrite !len_list_times.
  destruct (feature_of_lengths self c t) as [L1 L2].
  set (ids := ((((([] ++ [cls_token_id]) ++ convert_tokens_to_ids c)
                  ++ [sep_token_id]) ++ convert_tokens_to_ids t)
                  ++ [sep_token_id])).
  set (tys := ((((([] ++ [content_id self])
                  ++ replicate (length c) (content_id self))
                  ++ [content_id self])
                  ++ replicate (length t) (title_id self))
                  ++ [title_id self])).
  assert (Hids : ids = (feature_of self c t).1).
  { unfold ids, feature_of. simpl. by rewrite <- !app_assoc. }
  assert (Htys : tys = (feature_of self c t).2).
  { unfold tys, feature_of. cbn [snd].
    rewrite <- (replicate_cons_snoc (content_id self)).
    rewrite <- (replicate_snoc (title_id self)).
    simpl. by rewrite <- !app_assoc. }
  rewrite Hids, Htys. unfold len. rewrite L1, L2.
  rewrite Z.eqb_refl. cbn [py_assert mbind exc_mbind exc_bind].
  replace (Z.of_nat (length c + length t + 3))
    with (Z.of_nat (length c) + Z.of_nat (length t) + 3) by lia.
  destruct (_ <=? _); cbn [py_assert exc_bind]; [|done].
  by destruct (feature_of self c t).
Qed.

Lemma convert_feature_returns_bounded self sample input_ids token_type_ids :
  convert_feature self sample = Ok (input_ids, token_type_ids) →
  length input_ids = length token_type_ids ∧ len input_ids <= max_len self.
Proof.
  intros Hok.
  destruct (sample !! "content") as [content|] eqn:Hc; last first.
  { unfold convert_feature, getitem in Hok. by rewrite Hc in Hok. }
  destruct (sample !! "title") as [title|] eqn:Ht; last first.
  { unfold convert_feature, getitem in Hok. by rewrite Hc, Ht in Hok. }
  rewrite (convert_feature_build _ _ _ _ Hc Ht) in Hok.
  cbv zeta in Hok.
  match type of Hok with
  | (if ?b then _ else _) = _ => destruct b eqn:Hle; [|done]
  end.
  apply Z.leb_le in Hle.
  assert (Hf := f_equal (λ r, match r with
                              | Ok p => p
                              | Err _ => (input_ids, token_type_ids)
                              end) Hok).
  cbn beta iota in Hf.
  match type of Hf with
  | feature_of _ ?c ?t = _ =>
      destruct (feature_of_lengths self c t) as [L1 L2];
      rewrite Hf in L1, L2; simpl in L1, L2
  end.
  split; [congruence|]. unfold len in *. lia.
Qed.

Lemma load_data_loop_inv (P : gmap string (list Z) → Prop) self :
  (∀ sample input_ids token_type_ids,
     convert_feature self sample = Ok (input_ids, token_type_ids) →
     P (feature_dict input_ids token_type_ids)) →
  ∀ data acc d,
    Forall P acc → load_data_loop self data acc = Ok d → Forall P d.
Proof.
  intros HP. induction data as [|sample rest IH]; intros acc d Hacc Hd.
  - simpl in Hd. by injection Hd as <-.
  - simpl in Hd.
    destruct (convert_feature self sample) as [[ids tys]|e] eqn:Hcf; [|done].
    cbn [mbind exc_mbind exc_bind] in Hd.
    eapply IH; [|exact Hd].
    apply Forall_app. split; [done|]. apply Forall_singleton. by eapply HP.
Qed.

(** C2. A sample of 10 content tokens and 3 title tokens, with
    [max_len = 20] and [title_max_len >= 3], gives 16 input ids
    (CLS, content, SEP, title, SEP) and 16 segment ids: content id on the
    first 12 positions, title id on the last 4.  In general, for a
    non-negative [title_max_len], the title is cut to [title_max_len]
    tokens first and the content then to [max_len - len(title) - 3]; the
    feature is returned when the cut title leaves room for the three
    special tokens, and the length assertion fails otherwise. *)
Theorem convert_feature_layout :
  (∀ self sample content title,
     sample !! "content" = Some content →
     sample !! "title" = Some title →
     length (tokenize content) = 10%nat →
     length (tokenize (str_replace_char " " "[Space]" title)) = 3%nat →
     max_len self = 20 →
     3 <= title_max_len self →
     ∃ input_ids token_type_ids,
       convert_feature self sample = Ok (input_ids, token_type_ids)
       ∧ length input_ids = 16%nat
       ∧ length token_type_ids = 16%nat
       ∧ input_ids =
           cls_token_id :: convert_tokens_to_ids (tokenize content)
             ++ sep_token_id
             :: convert_tokens_to_ids
                  (tokenize (str_replace_char " " "[Space]" title))
             ++ [sep_token_id]
       ∧ token_type_ids =
           replicate 12 (content_id self) ++ replicate 4 (title_id self))
  ∧ (∀ self sample content title,
       sample !! "content" = Some content →
       sample !! "title" = Some title →
       0 <= title_max_len self →
       let t := take (Z.to_nat (title_max_len self))
                     (tokenize (str_replace_char " " "[Space]" title)) in
       let c := take (Z.to_nat (max_len self - len t - 3))
                     (tokenize content) in
       convert_feature self sample =
         if len t + 3 <=? max_len self
         then Ok (feature_of self c t) else Err AssertionError).
Proof.
  assert (General : ∀ self sample content title,
       sample !! "content" = Some content →
       sample !! "title" = Some title →
       0 <= title_max_len self →
       let t := take (Z.to_nat (title_max_len self))
                     (tokenize (str_replace_char " " "[Space]" title)) in
       let c := take (Z.to_nat (max_len self - len t - 3))
                     (tokenize content) in
       convert_feature self sample =
         if len t + 3 <=? max_len self
         then Ok (feature_of self c t) else Err AssertionError).
  { intros self sample content title Hc Ht Html t c.
    rewrite (convert_feature_build _ _ _ _ Hc Ht). cbv zeta.
    rewrite (truncate_take _ _ Html). fold t.
    pose proof (len_nonneg t) as Ht0.
    pose proof (len_nonneg (tokenize content)) as Hc0.
    destruct (Z.leb_spec (len t + 3) (max_len self)) as [Hfit|Hover].
    - rewrite (truncate_take (tokenize content)) by lia. fold c.
      assert (len c <= max_len self - len t - 3)
        by (apply len_take_le; lia).
      destruct (Z.leb_spec (len c + len t + 3) (max_len self)); [done|lia].
    - rewrite (truncate_negative (tokenize content)) by lia.
      set (c' := take _ (tokenize content)).
      assert (Hc' : len c' = Z.max 0 (len (tokenize content)
                                       + (max_len self - len t - 3))).
      { unfold c', len. rewrite length_take. unfold len in *. lia. }
      destruct (Z.leb_spec (len c' + len t + 3) (max_len self)); [lia|done]. }
  split; [|exact General].
  intros self sample content title Hc Ht Lc Lt Hmax Html.
  specialize (General self sample content title Hc Ht).
  cbv zeta in General.
  rewrite (take_ge (tokenize (str_replace_char _ _ title))) in General
    by (rewrite Lt; lia).
  unfold len in General. rewrite Lt, Hmax in General.
  rewrite (take_ge (tokenize content)) in General by (rewrite Lc; lia).
  eexists _, _. split; [apply General; lia|].
  destruct (feature_of_lengths self (tokenize content)
              (tokenize (str_replace_char " " "[Space]" title))) as [L1 L2].
  rewrite Lc, Lt in L1, L2.
  split; [exact L1|]. split; [exact L2|].
  unfold feature_of. cbn [fst snd]. by rewrite Lc, Lt.
Qed.

(** C7. Whenever [convert_feature] returns, its two sequences have the
    same length and that length is at most [max_len]; every record that
    [load_data] produces is such a pair. *)
Theorem convert_feature_invariant :
  (∀ self sample input_ids token_type_ids,
     convert_feature self sample = Ok (input_ids, token_type_ids) →
     length input_ids = length token_type_ids
     ∧ len input_ids <= max_len self)
  ∧ (∀ self path_file w d w',
       load_data self path_file w = (Ok d, w') →
       Forall (λ inst, ∃ input_ids token_type_ids,
                 inst = feature_dict input_ids token_type_ids
                 ∧ length input_ids = length token_type_ids
                 ∧ len input_ids <= max_len self) d).
Proof.
  split; [apply convert_feature_returns_bounded|].
  intros self path_file w d w' Hload.
  unfold load_data, mbind, io_mbind, io_bind in Hload.
  destruct (open_json path_file w) as [[data|e] w1]; [|done].
  unfold io_lift in Hload. injection Hload as Hd _.
  eapply load_data_loop_inv; [|apply Forall_nil_2|exact Hd].
  intros sample ids tys Hcf. exists ids, tys. split; [done|].
  by apply convert_feature_returns_bounded in Hcf.
Qed.

End convert_feature_props.

(** ** The feature cache *)

Section cache_props.
Import data_process.
Context `{Tokenizer}.

Lemma raw_reads_snoc tr e :
  raw_reads (tr ++ [e])
  = (raw_reads tr + if is_open_read e then 1 else 0)%nat.
Proof.
  unfold raw_reads. rewrite List.filter_app, length_app. simpl.
  by destruct (is_open_read e).
Qed.

(** A construction that finds the cache file loads it and touches nothing
    else. *)
Lemma init_cache_hit max_len title_max_len data_dir data_set_name path_file
    w obj d :
  let cached := path_join data_dir (cached_name data_set_name max_len) in
  files w !! cached = Some (TorchFile obj) →
  obj !! "data_set" = Some d →
  ∃ ds,
    __init__ max_len title_max_len data_dir data_set_name path_file false w
    = (Ok ds, {| files := files w;
                 trace := (trace w ++ [EvPrintCacheHit cached])
                            ++ [EvTorchLoad cached] |})
    ∧ data_set ds = d.
Proof.
  intros cached Hfile Hobj. eexists. split.
  { unfold __init__, mbind, io_mbind, io_bind, path_exists. fold cached.
    rewrite Hfile. rewrite bool_decide_eq_true_2 by eauto.
    cbn [andb negb emit]. unfold torch_load. cbn [files trace].
    rewrite Hfile. unfold io_lift, getitem. rewrite Hobj. reflexivity. }
  reflexivity.
Qed.

End cache_props.

Section cache_round_trip.
Import data_process.
Context `{Tokenizer}.

(** C6. After one successful construction the cache file named by the
    data directory, the dataset name and the maximum length exists and
    holds the feature data.  A second construction with the same three
    and with [is_overwrite] off finds that file and loads it: all it does
    is print the message and call [torch.load] on the cache file.  It
    returns the same feature data, whatever tokenizer it is given, leaves
    the files as they are and does not open the raw corpus: over both
    constructions the raw corpus is opened at most once. *)
Theorem cache_second_construction
    max_len title_max_len1 title_max_len2 data_dir data_set_name
    path_file1 path_file2 is_overwrite1 w0 ds1 w1 :
  let cached := path_join data_dir (cached_name data_set_name max_len) in
  __init__ max_len title_max_len1 data_dir data_set_name path_file1
           is_overwrite1 w0 = (Ok ds1, w1) →
  (∃ obj, files w1 !! cached = Some (TorchFile obj)
          ∧ obj !! "data_set" = Some (data_set ds1))
  ∧ ∃ ds2 w2,
      __init__ max_len title_max_len2 data_dir data_set_name path_file2
               false w1 = (Ok ds2, w2)
      ∧ data_set ds2 = data_set ds1
      ∧ files w2 = files w1
      ∧ trace w2 = trace w1 ++ [EvPrintCacheHit cached; EvTorchLoad cached]
      ∧ raw_reads (trace w2) = raw_reads (trace w1)
      ∧ (raw_reads (trace w2) ≤ raw_reads (trace w0) + 1)%nat
      ∧ ∀ other : Tokenizer, ∃ ds2',
          __init__ (H := other) max_len title_max_len2 data_dir
                   data_set_name path_file2 false w1 = (Ok ds2', w2)
          ∧ data_set ds2' = data_set ds1.
Proof.
  intros cached Hfirst.
  assert (Hw1 : ∃ obj, files w1 !! cached = Some (TorchFile obj)
                ∧ obj !! "data_set" = Some (data_set ds1)
                ∧ (raw_reads (trace w1) ≤ raw_reads (trace w0) + 1)%nat).
  { unfold __init__, mbind, io_mbind, io_bind, path_exists in Hfirst.
    fold cached in Hfirst.
    destruct (bool_decide (is_Some (files w0 !! cached)) && negb is_overwrite1)
      eqn:Hhit.
    - (* loaded from the cache *)
      cbn [emit] in Hfirst. unfold torch_load in Hfirst.
      cbn [files trace] in Hfirst.
      destruct (files w0 !! cached) as [[data|obj|]|] eqn:Hf;
        try discriminate Hfirst.
      unfold io_lift, getitem in Hfirst.
      destruct (obj !! "data_set") as [d|] eqn:Hd; [|discriminate Hfirst].
      injection Hfirst as <- <-. exists obj. cbn [files trace data_set].
      split; [done|]. split; [done|].
      rewrite !raw_reads_snoc. simpl. lia.
    - (* processed and saved *)
      cbn [emit] in Hfirst. unfold load_data, mbind, io_mbind, io_bind in Hfirst.
      unfold open_json in Hfirst.
      destruct path_file1 as [path|]; [|discriminate Hfirst].
      cbn [files trace] in Hfirst.
      destruct (files w0 !! path) as [[data|obj|]|] eqn:Hf;
        try discriminate Hfirst.
      unfold io_lift in Hfirst.
      destruct (load_data_loop _ data []) as [d|e] eqn:Hd;
        [|discriminate Hfirst].
      cbn [emit torch_save files trace] in Hfirst.
      injection Hfirst as <- <-. exists {[ "data_set" := d ]}.
      cbn [files trace data_set].
      split; [by rewrite lookup_insert_eq|].
      split; [by rewrite lookup_singleton_eq|].
      rewrite !raw_reads_snoc. simpl. lia. }
  destruct Hw1 as (obj & Hfile & Hobj & Hreads).
  split; [by exists obj|].
  destruct (init_cache_hit max_len title_max_len2 data_dir data_set_name
              path_file2 w1 obj (data_set ds1) Hfile Hobj)
    as (ds2 & Hsecond & Hds).
  fold cached in Hsecond.
  eexists ds2, _. split; [exact Hsecond|].
  cbn [files trace]. split; [done|]. split; [done|].
  split; [by rewrite <- app_assoc|].
  rewrite !raw_reads_snoc. simpl. split; [lia|]. split; [lia|].
  intros other.
  destruct (init_cache_hit (H := other) max_len title_max_len2 data_dir
              data_set_name path_file2 w1 obj (data_set ds1) Hfile Hobj)
    as (ds2' & Hother & Hds').
  by exists ds2'.
Qed.

End cache_round_trip.

(** ** Collation *)

Section collate_props.
Import data_process.

Lemma collate_loop_spec (batch : list (gmap string (list Z)))
    (feats : list (list Z * list Z)) acc1 acc2 :
  Forall2 (λ inst f, inst !! "input_ids" = Some f.1
                     ∧ inst !! "token_type_ids" = Some f.2) batch feats →
  collate_loop batch acc1 acc2 = Ok (acc1 ++ feats.*1, acc2 ++ feats.*2).
Proof.
  intros HF. revert acc1 acc2.
  induction HF as [|inst f batch feats [H1 H2] _ IH]; intros acc1 acc2.
  - simpl. by rewrite !app_nil_r.
  - simpl. unfold getitem. rewrite H1, H2.
    cbn [mbind exc_mbind exc_bind]. rewrite IH.
    by rewrite <- !app_assoc.
Qed.

(** C8. An empty batch list collates to the empty mapping.  A non-empty
    batch collates to two tensors with one row per instance: row [i] is
    the instance's sequence followed by zeros up to the longest sequence
    of the batch, for [input_ids] and for [token_type_ids] alike. *)
Theorem collate_func_pads :
  collate_func [] = Ok ∅
  ∧ ∀ (batch : list (gmap string (list Z))) (feats : list (list Z * list Z)),
      batch ≠ [] →
      Forall2 (λ inst f, inst !! "input_ids" = Some f.1
                         ∧ inst !! "token_type_ids" = Some f.2)
              batch feats →
      ∃ X Y,
        collate_func batch
          = Ok {[ "input_ids" := X; "token_type_ids" := Y ]}
        ∧ length X = length batch ∧ length Y = length batch
        ∧ (∀ i ids tys, feats !! i = Some (ids, tys) →
             X !! i = Some (ids ++ replicate (max_len_of feats.*1 - length ids) 0)
             ∧ length (ids ++ replicate (max_len_of feats.*1 - length ids) 0)
               = max_len_of feats.*1
             ∧ Y !! i = Some (tys ++ replicate (max_len_of feats.*2 - length tys) 0)
             ∧ length (tys ++ replicate (max_len_of feats.*2 - length tys) 0)
               = max_len_of feats.*2)
        ∧ (∃ f, f ∈ feats ∧ length f.1 = max_len_of feats.*1)
        ∧ (∃ f, f ∈ feats ∧ length f.2 = max_len_of feats.*2).
Proof.
  split; [reflexivity|].
  intros batch feats Hne HF.
  pose proof (Forall2_length _ _ _ HF) as Hlen.
  assert (Hfeats : feats ≠ []) by (destruct feats, batch; done).
  exists (pad_sequence feats.*1 0), (pad_sequence feats.*2 0).
  split.
  { unfold collate_func, len.
    destruct (Z.eqb_spec (Z.of_nat (length batch)) 0) as [E|_].
    - destruct batch; [done|simpl in E; lia].
    - by rewrite (collate_loop_spec _ _ [] [] HF). }
  unfold pad_sequence at 1 2. rewrite !length_map.
  split; [done|]. split; [done|]. split.
  { intros i ids tys Hi.
    destruct (pad_sequence_rows feats.*1 0 i ids) as [R1 R2];
      [by rewrite list_lookup_fmap, Hi|].
    destruct (pad_sequence_rows feats.*2 0 i tys) as [R3 R4];
      [by rewrite list_lookup_fmap, Hi|].
    done. }
  split.
  - destruct (max_len_of_attained feats.*1) as (l & Hin & Hl).
    { by destruct feats. }
    apply list_elem_of_fmap in Hin as (f & -> & Hf). by exists f.
  - destruct (max_len_of_attained feats.*2) as (l & Hin & Hl).
    { by destruct feats. }
    apply list_elem_of_fmap in Hin as (f & -> & Hf). by exists f.
Qed.

End collate_props.

(** ** The decoder self-attention mask *)

Section mask_props.
Import decoder.

Lemma at3_map3 {A B} (f : A → B) t b i j :
  at3 (map3 f t) b i j = f <$> at3 t b i j.
Proof.
  unfold at3, map3. rewrite list_lookup_fmap.
  destruct (t !! b) as [m|]; [|done]. simpl. rewrite list_lookup_fmap.
  destruct (m !! i) as [r|]; [|done]. simpl. by rewrite list_lookup_fmap.
Qed.

Lemma at3_zip3 {A B C} (f : A → B → C) s t b i j x y :
  at3 s b i j = Some x → at3 t b i j = Some y →
  at3 (zip3 f s t) b i j = Some (f x y).
Proof.
  unfold at3, zip3. intros Hs Ht. rewrite lookup_zip_with.
  destruct (s !! b) as [m|]; [|done]. destruct (t !! b) as [n|]; [|done].
  simpl. rewrite lookup_zip_with.
  destruct (m !! i) as [r|]; [|done]. destruct (n !! i) as [q|]; [|done].
  simpl. rewrite lookup_zip_with. by rewrite Hs, Ht.
Qed.

Lemma at3_subsequent ys b i j row :
  ys !! b = Some row → (i < length row)%nat → (j < length row)%nat →
  at3 (get_subsequent_mask ys) b i j = Some (if (i <? j)%nat then 1 else 0).
Proof.
  intros Hb Hi Hj. unfold at3, get_subsequent_mask.
  rewrite list_lookup_fmap, Hb. simpl.
  rewrite list_lookup_fmap, (lookup_seq_lt _ _ _ Hi). simpl.
  by rewrite list_lookup_fmap, (lookup_seq_lt _ _ _ Hj).
Qed.

Lemma at3_key_pad ys eos b i j row y :
  ys !! b = Some row → (i < length row)%nat → row !! j = Some y →
  at3 (get_attn_key_pad_mask ys ys eos) b i j
  = Some (if y =? eos then 1 else 0).
Proof.
  intros Hb Hi Hj. unfold at3, get_attn_key_pad_mask.
  rewrite lookup_zip_with, Hb. simpl.
  destruct (lookup_lt_is_Some_2 row i Hi) as [z Hz].
  rewrite list_lookup_fmap, Hz. simpl. by rewrite list_lookup_fmap, Hj.
Qed.

(** For any two uint8 masks with entries 0 or 1, [(a + b).gt(0)] is the OR
    of the entries. *)
Lemma mask_sum_gt0_is_or (keypad subseq : mask3) (b i j : nat) (s k : Z) :
  at3 subseq b i j = Some s → at3 keypad b i j = Some k →
  0 <= s <= 1 → 0 <= k <= 1 →
  at3 (gt0 (zip3 u8_add keypad subseq)) b i j = Some ((0 <? s) || (0 <? k)).
Proof.
  intros Hs Hk Rs Rk. unfold gt0. rewrite at3_map3.
  rewrite (at3_zip3 _ _ _ _ _ _ k s Hk Hs). simpl. f_equal. unfold u8_add.
  assert (Es : s = 0 ∨ s = 1) by lia. assert (Ek : k = 0 ∨ k = 1) by lia.
  by destruct Es as [-> | ->], Ek as [-> | ->].
Qed.

(** C3. At every query position [i] and key position [j] of every
    sequence, the self-attention mask of [forward] is set exactly when
    the causal mask or the key-padding mask is set there: it is their
    pointwise OR, set already when one of the two is. *)
Theorem slf_attn_mask_is_or (ys_in_pad : ids2) (eos : Z) (b i j : nat)
    (row : list Z) (y : Z) :
  ys_in_pad !! b = Some row → (i < length row)%nat → row !! j = Some y →
  ∃ s k m,
    at3 (get_subsequent_mask ys_in_pad) b i j = Some s
    ∧ at3 (get_attn_key_pad_mask ys_in_pad ys_in_pad eos) b i j = Some k
    ∧ at3 (slf_attn_mask_of ys_in_pad eos) b i j = Some m
    ∧ m = (0 <? s) || (0 <? k)
    ∧ (m = true ↔ 0 < s ∨ 0 < k)
    ∧ (0 <? s) = (i <? j)%nat
    ∧ (0 <? k) = (y =? eos).
Proof.
  intros Hb Hi Hj.
  assert (Hj' : (j < length row)%nat) by (by eapply lookup_lt_Some).
  eexists _, _, _. split; [by eapply at3_subsequent|].
  split; [by eapply at3_key_pad|].
  split.
  { unfold slf_attn_mask_of, gt0. rewrite at3_map3.
    erewrite at3_zip3; [|by eapply at3_key_pad|by eapply at3_subsequent].
    reflexivity. }
  unfold u8_add.
  destruct (i <? j)%nat, (y =? eos); cbn; (split; [done|]);
    (split; [|done]); split; intros; try done; try lia; destruct_or?; lia.
Qed.

End mask_props.

(** ** Preprocessing *)

Section preprocess_props.
Import decoder.
Context `{Env}.

Lemma size2_pad_list (xs : ids2) (pad : Z) :
  xs ≠ [] → size2 (pad_list xs pad) = (length xs, max_len_of xs).
Proof.
  intros Hne. unfold size2, pad_list. rewrite length_map.
  destruct xs as [|x xs']; [done|]. f_equal.
  change (map ?f (x :: xs')) with (f x :: map f xs').
  apply length_pad_to, max_len_of_ge. left.
Qed.

Lemma pad_list_rows (xs : ids2) (pad : Z) (i : nat) (l : list Z) :
  xs !! i = Some l →
  pad_list xs pad !! i = Some (l ++ replicate (max_len_of xs - length l) pad)
  ∧ length (l ++ replicate (max_len_of xs - length l) pad) = max_len_of xs.
Proof. apply pad_sequence_rows. Qed.

(** [preprocess] on an empty batch fails at [ys[0]]. *)
Lemma preprocess_nil self : preprocess self [] = Err IndexError.
Proof. reflexivity. Qed.

(** C4, amended. For every non-empty batch, [preprocess] returns the
    decoder inputs and the gold labels, one row per sequence: with [y] the
    sequence without its [IGNORE_ID] positions and [M] the longest such
    length, the input row is [sos :: y] padded with [eos] and the gold row
    is [y ++ [eos]] padded with [IGNORE_ID], both to length [M + 1]; the
    two tensors have the same size. *)
Theorem preprocess_pads (self : gmap string value) (sos eos : Z)
    (padded_input : ids2) :
  self !! "sos_id" = Some (VInt sos) →
  self !! "eos_id" = Some (VInt eos) →
  padded_input ≠ [] →
  let ys := map (List.filter (λ t, negb (t =? IGNORE_ID))) padded_input in
  let M := max_len_of ys in
  ∃ ys_in_pad ys_out_pad,
    preprocess self padded_input = Ok (ys_in_pad, ys_out_pad)
    ∧ size2 ys_in_pad = (length padded_input, S M)
    ∧ size2 ys_out_pad = (length padded_input, S M)
    ∧ ∀ i y, ys !! i = Some y →
        ys_in_pad !! i = Some ((sos :: y) ++ replicate (M - length y) eos)
        ∧ ys_out_pad !! i
          = Some ((y ++ [eos]) ++ replicate (M - length y) IGNORE_ID)
        ∧ length ((sos :: y) ++ replicate (M - length y) eos) = S M
        ∧ length ((y ++ [eos]) ++ replicate (M - length y) IGNORE_ID) = S M.
Proof.
  intros Hsos Heos Hne ys M.
  assert (Hys : ys ≠ []) by (unfold ys; by destruct padded_input).
  assert (Hlen : length ys = length padded_input)
    by (unfold ys; apply length_map).
  set (ys_in := map (λ y, [sos] ++ y) ys).
  set (ys_out := map (λ y, y ++ [eos]) ys).
  assert (Min : max_len_of ys_in = S M).
  { unfold ys_in. rewrite (max_len_of_map _ _ 1%nat); [fold M; lia| |done].
    intros l. simpl. lia. }
  assert (Mout : max_len_of ys_out = S M).
  { unfold ys_out. rewrite (max_len_of_map _ _ 1%nat); [fold M; lia| |done].
    intros l. rewrite length_app. simpl. lia. }
  assert (Sin : size2 (pad_list ys_in eos) = (length padded_input, S M)).
  { rewrite size2_pad_list by (unfold ys_in; by destruct ys).
    unfold ys_in at 1. by rewrite length_map, Hlen, Min. }
  assert (Sout : size2 (pad_list ys_out IGNORE_ID)
                 = (length padded_input, S M)).
  { rewrite size2_pad_list by (unfold ys_out; by destruct ys).
    unfold ys_out at 1. by rewrite length_map, Hlen, Mout. }
  exists (pad_list ys_in eos), (pad_list ys_out IGNORE_ID).
  split.
  { assert (Hhd : ∃ y0, match ys with
                        | [] => Err IndexError
                        | y0 :: _ => Ok y0
                        end = Ok y0) by (clear -Hys; destruct ys; eauto; done).
    destruct Hhd as [y0 Hhd].
    unfold preprocess, getattr. fold ys. rewrite Hsos, Heos, Hhd.
    cbn [mbind exc_mbind exc_bind as_int].
    fold ys_in. fold ys_out. rewrite Sin, Sout.
    by rewrite bool_decide_eq_true_2. }
  split; [done|]. split; [done|].
  intros i y Hi.
  assert (Hy : (length y ≤ M)%nat).
  { apply max_len_of_ge. by eapply list_elem_of_lookup_2. }
  destruct (pad_list_rows ys_in eos i (sos :: y)) as [R1 _].
  { unfold ys_in. by rewrite list_lookup_fmap, Hi. }
  destruct (pad_list_rows ys_out IGNORE_ID i (y ++ [eos])) as [R3 _].
  { unfold ys_out. by rewrite list_lookup_fmap, Hi. }
  rewrite Min in R1. rewrite Mout in R3.
  replace (S M - length (sos :: y))%nat with (M - length y)%nat in R1
    by (simpl; lia).
  replace (S M - length (y ++ [eos]))%nat with (M - length y)%nat in R3
    by (rewrite length_app; simpl; lia).
  split; [exact R1|]. split; [exact R3|].
  rewrite !length_app, !length_replicate. simpl. lia.
Qed.

End preprocess_props.

(** ** Breakpoints and the missing attribute *)

Section decoder_props.
Import decoder.
Context `{Env}.

Lemma bind_lift {A B} (m : exc A) (k : A → prog B) :
  (lift m ≫= k) = match m with Ok a => k a | Err e => Raise e end.
Proof. by destruct m. Qed.

Lemma bind_ext {A B} (m : prog A) (k1 k2 : A → prog B) :
  (∀ a, k1 a = k2 a) → (m ≫= k1) = (m ≫= k2).
Proof.
  intros Hk. unfold mbind, prog_mbind.
  induction m as [a|e|m IH]; simpl; [apply Hk|done|by rewrite IH].
Qed.

Lemma bind_Raise {A B} (e : exn) (k : A → prog B) :
  (Raise e ≫= k) = Raise e.
Proof. reflexivity. Qed.

(** A program whose first part is stuck, or cannot complete, cannot
    complete. *)
Lemma unattended_bind {A B} (m : prog A) (k : A → prog B) (r : B) :
  run_unattended (m ≫= k) = Some (Ok r) →
  ∃ a, m = Ret a ∧ run_unattended (k a) = Some (Ok r).
Proof. destruct m as [a|e|m']; [eauto|done|done]. Qed.

Lemma unattended_lift_bind {A B} (m : exc A) (k : A → prog B) (r : B) :
  run_unattended (lift m ≫= k) = Some (Ok r) →
  ∃ a, m = Ok a ∧ run_unattended (k a) = Some (Ok r).
Proof. destruct m as [a|e]; [eauto|done]. Qed.

Lemma run_layers_cons_stuck layer rest x enc npm m1 m2 ra l1 l2 :
  run_unattended (run_layers (layer :: rest) x enc npm m1 m2 ra l1 l2) = None.
Proof. reflexivity. Qed.

(** The attributes [__init__] leaves on the object. *)
Lemma init_attrs a emb_init prj_init h :
  let self := (__init__ a emb_init prj_init h).1 in
  getattr self "sos_id" = Ok (VInt (sos_id a))
  ∧ getattr self "eos_id" = Ok (VInt (eos_id a))
  ∧ getattr self "dropout" = Ok (VDropout (dropout a))
  ∧ getattr self "tgt_word_emb" = Ok (VEmbedding (length h))
  ∧ getattr self "pos_emb"
    = Ok (VPositionalEncoding (d_model a) (pe_maxlen a))
  ∧ getattr self "layer_stack"
    = Ok (VModuleList (map (new_layer a) (seq 0 (Z.to_nat (n_layers a)))))
  ∧ getattr self "tgt_word_prj"
    = Ok (VLinear (if tgt_emb_prj_weight_sharing a
                   then length h else S (length h)))
  ∧ getattr self "x_logit_scale"
    = Ok (VFloat (if tgt_emb_prj_weight_sharing a
                  then pow_neg_half (d_model a) else 1%Q))
  ∧ getattr self "positional_encoding"
    = Err (AttributeError "positional_encoding").
Proof.
  intros self. unfold self, __init__, alloc.
  rewrite length_app, Nat.add_1_r.
  destruct (tgt_emb_prj_weight_sharing a); cbn [fst];
    repeat split; reflexivity.
Qed.

Lemma init_heap a emb_init prj_init h :
  (__init__ a emb_init prj_init h).2 = (h ++ [emb_init]) ++ [prj_init].
Proof.
  unfold __init__, alloc. by destruct (tgt_emb_prj_weight_sharing a).
Qed.

Lemma init_heap_emb a emb_init prj_init h :
  (__init__ a emb_init prj_init h).2 !! length h = Some emb_init.
Proof.
  rewrite init_heap, <- app_assoc. simpl. by apply list_lookup_middle.
Qed.

Lemma init_heap_prj a emb_init prj_init h :
  (__init__ a emb_init prj_init h).2 !! S (length h) = Some prj_init.
Proof.
  rewrite init_heap. apply list_lookup_middle.
  rewrite length_app. simpl. lia.
Qed.

Lemma embed_row_ok (w : matrix) (y : Z) :
  0 <= y < len w → ∃ r, embed_row w y = Ok r.
Proof.
  intros [Hy1 Hy2]. unfold embed_row.
  destruct (Z.leb_spec 0 y); [|lia].
  destruct (Z.ltb_spec y (len w)); [|lia]. cbn [andb].
  destruct (lookup_lt_is_Some_2 w (Z.to_nat y)) as [row Hrow];
    [unfold len in *; lia|].
  rewrite Hrow. by eexists.
Qed.

Lemma mapM_ok {A B} (f : A → exc B) (l : list A) :
  Forall (λ x, ∃ y, f x = Ok y) l → ∃ r, mapM f l = Ok r.
Proof.
  induction 1 as [|x l [y Hy] _ [r IH]]; [by eexists|].
  cbn [mapM]. rewrite Hy. cbn [mbind exc_mbind exc_bind]. rewrite IH.
  by eexists.
Qed.

Lemma mapM_err_index {A} (f : A → exc (list Q)) (l : list A) e :
  (∀ x e', f x = Err e' → e' = IndexError) →
  mapM f l = Err e → e = IndexError.
Proof.
  intros Hf. induction l as [|x l IH]; [done|]. cbn [mapM].
  destruct (f x) as [y|e'] eqn:Hx; cbn [mbind exc_mbind exc_bind].
  - destruct (mapM f l); [done|]. intros [= <-]. by apply IH.
  - intros [= <-]. by eapply Hf.
Qed.

Lemma embed_rows_err w ys e :
  mapM (mapM (embed_row w)) ys = Err e → e = IndexError.
Proof.
  revert e. induction ys as [|row ys IH]; intros e; [done|]. cbn [mapM].
  destruct (mapM (embed_row w) row) as [r|e'] eqn:Hrow;
    cbn [mbind exc_mbind exc_bind].
  - destruct (mapM (mapM (embed_row w)) ys); [done|].
    intros [= <-]. by apply IH.
  - intros [= <-]. eapply mapM_err_index; [|exact Hrow].
    intros y e''. unfold embed_row.
    destruct (_ && _); [destruct (w !! _)|]; by intros [= <-].
Qed.

Lemma embed_rows_ok_iff w (ys : ids2) :
  (∃ e, mapM (mapM (embed_row w)) ys = Ok e)
  ↔ Forall (Forall (λ y, 0 <= y < len w)) ys.
Proof.
  assert (Hrow : ∀ row, (∃ r, mapM (embed_row w) row = Ok r)
                        ↔ Forall (λ y, 0 <= y < len w) row).
  { induction row as [|y row IH]; [by split; [constructor|eexists]|].
    cbn [mapM]. split.
    - intros [r Hr]. destruct (embed_row w y) as [v|] eqn:Hy; [|done].
      cbn [mbind exc_mbind exc_bind] in Hr.
      destruct (mapM (embed_row w) row) as [r'|] eqn:Hr'; [|done].
      constructor; [|apply IH; by eexists].
      unfold embed_row in Hy.
      destruct (Z.leb_spec 0 y); [|done].
      destruct (Z.ltb_spec y (len w)); [lia|done].
    - intros HF. apply Forall_cons in HF as [Hy HF].
      destruct (embed_row_ok w y Hy) as [v Hv].
      apply IH in HF as [r' Hr']. rewrite Hv, Hr'. by eexists. }
  induction ys as [|row ys IH]; [by split; [constructor|eexists]|].
  cbn [mapM]. split.
  - intros [r Hr]. destruct (mapM (embed_row w) row) as [v|] eqn:Hy; [|done].
    cbn [mbind exc_mbind exc_bind] in Hr.
    destruct (mapM (mapM (embed_row w)) ys) as [r'|] eqn:Hr'; [|done].
    constructor; [apply Hrow; by eexists|apply IH; by eexists].
  - intros HF. apply Forall_cons in HF as [Hy HF].
    apply Hrow in Hy as [v Hv]. apply IH in HF as [r' Hr'].
    rewrite Hv, Hr'. by eexists.
Qed.

(** The decoder pass of the beam search never gets past the lookup of
    [self.positional_encoding]. *)
Lemma beam_scores_raises a emb_init prj_init h enc beam ys :
  let self := (__init__ a emb_init prj_init h).1 in
  let h' := (__init__ a emb_init prj_init h).2 in
  ∃ e, beam_scores self h' enc beam ys = Raise e
       ∧ (Forall (λ y, 0 <= y < len emb_init) ys →
          e = AttributeError "positional_encoding").
Proof.
  intros self h'.
  destruct (init_attrs a emb_init prj_init h)
    as (_ & _ & Hdrop & Hemb & _ & _ & _ & Hscale & Hpos).
  fold self in Hdrop, Hemb, Hscale, Hpos.
  unfold beam_scores. rewrite Hdrop, Hemb. rewrite !bind_lift.
  unfold embedding_forward, h'. rewrite init_heap_emb.
  destruct (mapM (mapM (embed_row emb_init)) [ys]) as [e0|err] eqn:He.
  - rewrite Hscale. cbn [mbind exc_mbind exc_bind as_float].
    rewrite !bind_lift. rewrite Hpos. eauto.
  - eexists. split; [reflexivity|]. intros Hys. exfalso.
    destruct (mapM_ok (embed_row emb_init) ys) as [r Hr].
    { eapply Forall_impl; [exact Hys|]. intros y Hy. by apply embed_row_ok. }
    simpl in He. rewrite Hr in He. done.
Qed.

Lemma beam_loop_raises scores eos_of beam maxlen n i h0 rest ended e :
  scores (yseq h0) = Raise e →
  beam_loop scores eos_of beam maxlen (S n) i (h0 :: rest) ended = Raise e.
Proof.
  intros Hs. cbn [beam_loop]. unfold beam_step. cbn [expand].
  by rewrite Hs.
Qed.

Lemma recognize_beam_always_raises a emb_init prj_init h enc chars :
  let self := (__init__ a emb_init prj_init h).1 in
  let h' := (__init__ a emb_init prj_init h).2 in
  ∃ e, recognize_beam self h' enc chars = Raise e
       ∧ (0 <= sos_id a < len emb_init →
          e = AttributeError "positional_encoding").
Proof.
  intros self h'.
  destruct (init_attrs a emb_init prj_init h) as (Hsos & _).
  fold self in Hsos.
  destruct (beam_scores_raises a emb_init prj_init h [enc] 5 [sos_id a])
    as (e & He & Hin).
  exists e. split.
  - unfold recognize_beam. rewrite Hsos.
    cbn [mbind exc_mbind exc_bind as_int]. rewrite bind_lift.
    change (Z.to_nat 100) with (S 99).
    erewrite beam_loop_raises; [reflexivity|exact He].
  - intros Hr. apply Hin. by constructor.
Qed.

(** With a start id outside the embedding table the decoder pass fails
    earlier, in the embedding of the start token. *)
Lemma beam_scores_stray a emb_init prj_init h enc beam ys :
  let self := (__init__ a emb_init prj_init h).1 in
  let h' := (__init__ a emb_init prj_init h).2 in
  ¬ Forall (λ y, 0 <= y < len emb_init) ys →
  beam_scores self h' enc beam ys = Raise IndexError.
Proof.
  intros self h' Hout.
  destruct (init_attrs a emb_init prj_init h)
    as (_ & _ & Hdrop & Hemb & _).
  fold self in Hdrop, Hemb.
  unfold beam_scores. rewrite Hdrop, Hemb. rewrite !bind_lift.
  unfold embedding_forward, h'. rewrite init_heap_emb.
  destruct (mapM (mapM (embed_row emb_init)) [ys]) as [e0|err] eqn:He.
  - destruct Hout.
    assert (HF : Forall (Forall (λ y, 0 <= y < len emb_init)) [ys])
      by (apply embed_rows_ok_iff; by exists e0).
    by apply Forall_cons in HF as [HF _].
  - apply embed_rows_err in He as ->. reflexivity.
Qed.

(** C10, amended. The object built by [__init__] has the positional
    encoding under [pos_emb] and nothing under [positional_encoding], and
    no call of [recognize_beam] returns a hypothesis: each raises in its
    first decoder pass.  For a start id that the float tensor carrying it
    holds exactly (at most [2 ^ 24] in magnitude), the error is
    [AttributeError] for that name when the start id indexes the
    embedding table, and [IndexError] from the embedding of the start
    token, which is evaluated first, when it does not. *)
Theorem recognize_beam_raises a emb_init prj_init h enc chars :
  let self := (__init__ a emb_init prj_init h).1 in
  let h' := (__init__ a emb_init prj_init h).2 in
  self !! "positional_encoding" = None
  ∧ self !! "pos_emb" = Some (VPositionalEncoding (d_model a) (pe_maxlen a))
  ∧ (∃ e, recognize_beam self h' enc chars = Raise e)
  ∧ (Z.abs (sos_id a) <= 2 ^ 24 →
     (0 <= sos_id a < len emb_init →
      beam_scores self h' [enc] 5 [sos_id a]
        = Raise (AttributeError "positional_encoding")
      ∧ recognize_beam self h' enc chars
        = Raise (AttributeError "positional_encoding"))
     ∧ (¬ (0 <= sos_id a < len emb_init) →
        beam_scores self h' [enc] 5 [sos_id a] = Raise IndexError
        ∧ recognize_beam self h' enc chars = Raise IndexError)).
Proof.
  intros self h'.
  destruct (init_attrs a emb_init prj_init h)
    as (Hsos & _ & _ & _ & Hpe & _ & _ & _ & Hpos).
  fold self in Hsos, Hpe, Hpos.
  split.
  { unfold getattr in Hpos. by destruct (self !! "positional_encoding"). }
  split.
  { unfold getattr in Hpe. destruct (self !! "pos_emb"); congruence. }
  split.
  { destruct (recognize_beam_always_raises a emb_init prj_init h enc chars)
      as (e & He & _).
    by exists e. }
  intros _. split.
  - intros Hin. split.
    + destruct (beam_scores_raises a emb_init prj_init h [enc] 5 [sos_id a])
        as (e & He & Hatt).
      fold self h' in He. rewrite He. f_equal. apply Hatt. by constructor.
    + destruct (recognize_beam_always_raises a emb_init prj_init h enc chars)
        as (e & He & Hatt).
      fold self h' in He. rewrite He. f_equal. by apply Hatt.
  - intros Hout.
    assert (Hstray : beam_scores self h' [enc] 5 [sos_id a] = Raise IndexError).
    { apply beam_scores_stray. intros HF.
      apply Forall_cons in HF as [HF _]. by apply Hout. }
    split; [exact Hstray|].
    unfold recognize_beam. rewrite Hsos.
    cbn [mbind exc_mbind exc_bind as_int]. rewrite bind_lift.
    change (Z.to_nat 100) with (S 99).
    erewrite beam_loop_raises; [reflexivity|exact Hstray].
Qed.

(** C9, amended. [DecoderLayer.forward] is a breakpoint followed by its
    three sub-layers, whatever its arguments, so it is stuck when nobody is
    at the prompt.  A decoder with at least one layer therefore never
    completes [forward] unattended, and no decoder completes
    [recognize_beam]. *)
Theorem breakpoint_blocks_decoder :
  (∀ layer dec_input enc_output non_pad_mask slf_attn_mask dec_enc_attn_mask,
     run_unattended
       (DecoderLayer_forward layer dec_input enc_output non_pad_mask
          slf_attn_mask dec_enc_attn_mask) = None
     ∧ breaks
         (DecoderLayer_forward layer dec_input enc_output non_pad_mask
            slf_attn_mask dec_enc_attn_mask) = 1%nat
     ∧ ∃ out,
         DecoderLayer_forward layer dec_input enc_output non_pad_mask
           slf_attn_mask dec_enc_attn_mask = Break (Ret out))
  ∧ (∀ a emb_init prj_init h padded_input enc lens return_attns r,
       0 < n_layers a →
       run_unattended
         (forward (__init__ a emb_init prj_init h).1
                  (__init__ a emb_init prj_init h).2
                  padded_input enc lens return_attns) ≠ Some (Ok r))
  ∧ (∀ a emb_init prj_init h enc chars r,
       run_unattended
         (recognize_beam (__init__ a emb_init prj_init h).1
                         (__init__ a emb_init prj_init h).2 enc chars)
       ≠ Some (Ok r)).
Proof.
  split; [|split].
  - intros. split; [reflexivity|]. unfold DecoderLayer_forward.
    destruct (MultiHeadAttention_forward layer true _ _ _ _) as [o1 a1].
    destruct (MultiHeadAttention_forward layer false _ _ _ _) as [o2 a2].
    split; [reflexivity|]. by eexists.
  - intros a emb_init prj_init h padded_input enc lens return_attns r Hn Hrun.
    destruct (init_attrs a emb_init prj_init h)
      as (_ & _ & _ & _ & _ & Hstack & _).
    unfold forward in Hrun.
    apply unattended_lift_bind in Hrun as ([ys_in_pad ys_out_pad] & _ & Hrun).
    do 9 (apply unattended_lift_bind in Hrun as (? & _ & Hrun)).
    apply unattended_lift_bind in Hrun as (layers & Hl & Hrun).
    rewrite Hstack in Hl. cbn [mbind exc_mbind exc_bind as_layers] in Hl.
    injection Hl as <-.
    apply unattended_bind in Hrun as (? & Hlayers & _).
    destruct (Z.to_nat (n_layers a)) as [|n] eqn:En; [lia|].
    simpl in Hlayers. discriminate Hlayers.
  - intros a emb_init prj_init h enc chars r Hrun.
    destruct (recognize_beam_always_raises a emb_init prj_init h enc chars)
      as (e & He & _).
    rewrite He in Hrun. discriminate Hrun.
Qed.

(** *** Weight sharing *)

Lemma Qmult_1_r_eq (q : Q) : Qmult q 1 = q.
Proof.
  destruct q as [n d]. unfold Qmult. simpl.
  by rewrite Z.mul_1_r, Pos.mul_1_r.
Qed.

Lemma embed_row_scale_table (c : Q) (w : matrix) (y : Z) :
  embed_row (scale_table c w) y
  = match embed_row w y with
    | Ok r => Ok (map (λ q, Qmult q c) r)
    | Err e => Err e
    end.
Proof.
  unfold embed_row, scale_table, len. rewrite length_map.
  destruct (_ && _); [|done].
  rewrite list_lookup_fmap. by destruct (w !! Z.to_nat y).
Qed.

Lemma mapM_ext_map {A B C} (f : A → exc B) (g : A → exc C) (k : B → C)
    (l : list A) :
  (∀ x, g x = match f x with Ok r => Ok (k r) | Err e => Err e end) →
  mapM g l = match mapM f l with Ok r => Ok (map k r) | Err e => Err e end.
Proof.
  intros Hfg. induction l as [|x l IH]; [done|].
  cbn [mapM]. rewrite Hfg, IH.
  destruct (f x); [|done]. cbn [mbind exc_mbind exc_bind].
  by destruct (mapM f l).
Qed.

Lemma embed_scale_table (c : Q) (w : matrix) (ys : ids2) :
  mapM (mapM (embed_row (scale_table c w))) ys
  = match mapM (mapM (embed_row w)) ys with
    | Ok e => Ok (scale3 c e)
    | Err e => Err e
    end.
Proof.
  unfold scale3, map3.
  apply (mapM_ext_map _ _ (map (map (λ q, Qmult q c)))). intros row.
  apply (mapM_ext_map _ _ (map (λ q, Qmult q c))). intros y.
  apply embed_row_scale_table.
Qed.

Lemma scale3_1 (e : act3) : scale3 1 e = e.
Proof.
  unfold scale3, map3.
  rewrite <- (map_id e) at 2. apply map_ext. intros m.
  rewrite <- (map_id m) at 2. apply map_ext. intros r.
  rewrite <- (map_id r) at 2. apply map_ext. intros q.
  apply Qmult_1_r_eq.
Qed.

(** [forward] reads the object only through these attributes. *)
Lemma forward_unfold a emb_init prj_init h padded_input enc lens ra :
  let self := (__init__ a emb_init prj_init h).1 in
  let h' := (__init__ a emb_init prj_init h).2 in
  let sharing := tgt_emb_prj_weight_sharing a in
  forward self h' padded_input enc lens ra =
    ('(ys_in_pad, ys_out_pad) ← lift (preprocess self padded_input);
     e ← lift (mapM (mapM (embed_row emb_init)) ys_in_pad);
     let x := scale3 (if sharing then pow_neg_half (d_model a) else 1%Q) e in
     let x := add3 x (PositionalEncoding_forward (d_model a) (pe_maxlen a)
                        ys_in_pad) in
     let dec_output := Dropout_forward (dropout a) x in
     '(dec_output, l1, l2) ←
       run_layers (map (new_layer a) (seq 0 (Z.to_nat (n_layers a))))
         dec_output enc (get_non_pad_mask ys_in_pad (eos_id a))
         (Some (slf_attn_mask_of ys_in_pad (eos_id a)))
         (Some (get_attn_pad_mask enc lens (size2 ys_in_pad).2)) ra [] [];
     let seq_logit :=
       map (linear_rows (if sharing then emb_init else prj_init))
           dec_output in
     if ra then Ret (seq_logit, ys_out_pad, Some (l1, l2))
     else Ret (seq_logit, ys_out_pad, None)).
Proof.
  intros self h' sharing.
  destruct (init_attrs a emb_init prj_init h)
    as (_ & Heos & Hdrop & Hemb & Hpe & Hstack & Hprj & Hscale & _).
  fold self in Heos, Hdrop, Hemb, Hpe, Hstack, Hprj, Hscale.
  unfold forward.
  destruct (preprocess self padded_input) as [[ys_in_pad ys_out_pad]|err];
    [|reflexivity].
  rewrite !bind_lift. rewrite Hemb, Hscale, Hpe, Hdrop, Heos, Hstack, Hprj.
  unfold embedding_forward, h'. rewrite init_heap_emb.
  destruct (mapM (mapM (embed_row emb_init)) ys_in_pad) as [e|err];
    [|reflexivity].
  cbn [mbind exc_mbind exc_bind as_float as_int as_layers lift
       call_pos call_dropout prog_mbind prog_bind].
  fold sharing.
  apply bind_ext. intros [[dec_output l1] l2]. unfold linear_forward.
  destruct sharing; [rewrite init_heap_emb|rewrite init_heap_prj];
    reflexivity.
Qed.

Lemma preprocess_init_sharing a b emb1 prj1 emb2 prj2 h padded_input :
  preprocess (__init__ (with_sharing a true) emb1 prj1 h).1 padded_input
  = preprocess (__init__ (with_sharing a b) emb2 prj2 h).1 padded_input.
Proof.
  destruct (init_attrs (with_sharing a true) emb1 prj1 h)
    as (Hsos1 & Heos1 & _).
  destruct (init_attrs (with_sharing a b) emb2 prj2 h)
    as (Hsos2 & Heos2 & _).
  unfold preprocess. by rewrite Hsos1, Heos1, Hsos2, Heos2.
Qed.

(** C1, amended. With sharing on, the projection and the embedding hold
    the same weight location, so a write through either is read through
    the other, and the embedding lookups are multiplied by
    [d_model ** -0.5] before the positional encoding is added; the
    projection itself is not scaled: [forward] gives what the unshared
    decoder gives whose embedding table is the scaled table and whose
    projection weight is the unscaled one.  With sharing off the two
    weights are separate and the factor is 1. *)
Theorem weight_sharing_scales_embedding a emb_init prj_init h :
  let shared := __init__ (with_sharing a true) emb_init prj_init h in
  let unshared := __init__ (with_sharing a false) emb_init prj_init h in
  let c := pow_neg_half (d_model a) in
  (∃ emb prj l,
     shared.1 !! "tgt_word_emb" = Some emb
     ∧ shared.1 !! "tgt_word_prj" = Some prj
     ∧ weight_of emb = Some l ∧ weight_of prj = Some l
     ∧ read_weight shared.2 emb = Some emb_init
     ∧ read_weight shared.2 prj = Some emb_init
     ∧ (∀ m, read_weight (write_weight shared.2 prj m) emb = Some m
             ∧ read_weight (write_weight shared.2 emb m) prj = Some m)
     ∧ shared.1 !! "x_logit_scale" = Some (VFloat c))
  ∧ (∃ emb prj,
       unshared.1 !! "tgt_word_emb" = Some emb
       ∧ unshared.1 !! "tgt_word_prj" = Some prj
       ∧ weight_of emb ≠ weight_of prj
       ∧ read_weight unshared.2 emb = Some emb_init
       ∧ read_weight unshared.2 prj = Some prj_init
       ∧ (∀ m, read_weight (write_weight unshared.2 prj m) emb
               = Some emb_init)
       ∧ unshared.1 !! "x_logit_scale" = Some (VFloat 1%Q))
  ∧ (∀ padded_input enc lens return_attns,
       let scaled := __init__ (with_sharing a false)
                       (scale_table c emb_init) emb_init h in
       forward shared.1 shared.2 padded_input enc lens return_attns
       = forward scaled.1 scaled.2 padded_input enc lens return_attns).
Proof.
  intros shared unshared c. split; [|split].
  - exists (VEmbedding (length h)), (VLinear (length h)), (length h).
    unfold shared. unfold read_weight, write_weight. cbn [weight_of mbind option_bind].
    rewrite init_heap_emb.
    split; [reflexivity|]. split; [reflexivity|].
    split; [done|]. split; [done|]. split; [done|]. split; [done|].
    split; [|reflexivity].
    intros m. rewrite list_lookup_insert_eq; [done|].
    rewrite init_heap, !length_app. simpl. lia.
  - exists (VEmbedding (length h)), (VLinear (S (length h))).
    unfold unshared. unfold read_weight, write_weight.
    cbn [weight_of mbind option_bind].
    rewrite init_heap_emb, init_heap_prj.
    split; [unfold __init__, alloc; rewrite length_app, Nat.add_1_r;
            reflexivity|].
    split; [unfold __init__, alloc; rewrite length_app, Nat.add_1_r;
            reflexivity|].
    split; [intros [=]; lia|]. split; [done|]. split; [done|].
    split; [|reflexivity].
    intros m. rewrite list_lookup_insert_ne by lia. apply init_heap_emb.
  - intros padded_input enc lens ra scaled. unfold shared, scaled.
    rewrite !forward_unfold.
    rewrite (preprocess_init_sharing a false emb_init prj_init
               (scale_table c emb_init) emb_init).
    unfold new_layer.
    cbn [with_sharing tgt_emb_prj_weight_sharing d_model pe_maxlen dropout
         n_layers eos_id d_inner n_head d_k d_v].
    destruct (preprocess _ padded_input) as [[ys_in_pad ys_out_pad]|err];
      [|reflexivity].
    rewrite !bind_lift. rewrite embed_scale_table.
    destruct (mapM (mapM (embed_row emb_init)) ys_in_pad) as [e|err];
      [|reflexivity].
    cbv zeta. rewrite scale3_1. reflexivity.
Qed.

End decoder_props.

(** ** The search loop, over a decoder pass that returns *)

Section beam_loop_props.
Import decoder.
Variable f : list Z → list (Q * Z).
Variables eos beam maxlen : Z.
Hypothesis beam_pos : 0 < beam.
Hypothesis enough : ∀ ys, beam <= len (f ys).

Let scores := λ ys, Ret (f ys).
Let ends_eos (h0 : hyp) : Prop := last (yseq h0) = Some eos.
Let open_ (h0 : hyp) : Prop :=
  yseq h0 ≠ [] ∧ last (yseq h0) ≠ Some eos.
Let nonempty (h0 : hyp) : Prop := yseq h0 ≠ [].

Lemma insert_desc_props (P : hyp → Prop) x l :
  P x → Forall P l →
  Forall P (insert_desc x l) ∧ length (insert_desc x l) = S (length l).
Proof.
  intros Hx Hl. induction Hl as [|y l Hy Hl [IH1 IH2]]; simpl.
  - split; [by constructor|done].
  - destruct (Qle_bool _ _); simpl.
    + split; [by constructor|by rewrite IH2].
    + split; [by repeat constructor|done].
Qed.

Lemma sorted_desc_props (P : hyp → Prop) l :
  Forall P l → Forall P (sorted_desc l) ∧ length (sorted_desc l) = length l.
Proof.
  unfold sorted_desc.
  assert (G : ∀ acc, Forall P acc → Forall P l →
            Forall P (foldl (λ acc x, insert_desc x acc) acc l)
            ∧ length (foldl (λ acc x, insert_desc x acc) acc l)
              = (length acc + length l)%nat).
  { induction l as [|x l IH]; intros acc Hacc Hl; simpl.
    - split; [done|lia].
    - apply Forall_cons in Hl as [Hx Hl].
      destruct (insert_desc_props P x acc Hx Hacc) as [I1 I2].
      destruct (IH _ I1 Hl) as [J1 J2]. split; [done|]. rewrite J2, I2. lia. }
  intros Hl. by destruct (G [] (Forall_nil_2 _) Hl).
Qed.

Lemma extend_props h0 best js kept :
  nonempty h0 → Forall nonempty kept →
  Forall (λ j, (j < length best)%nat) js →
  ∃ kept', extend h0 best js kept = Ok kept'
           ∧ Forall nonempty kept'
           ∧ length kept' = (length kept + length js)%nat.
Proof.
  intros Hh Hkept Hjs. revert kept Hkept.
  induction Hjs as [|j js Hj _ IH]; intros kept Hkept; simpl.
  - eexists. split; [done|]. split; [done|lia].
  - destruct (lookup_lt_is_Some_2 best j Hj) as [[s i] Hb]. rewrite Hb.
    destruct (IH (kept ++ [{| score := Qplus (score h0) s;
                              yseq := yseq h0 ++ [i] |}]))
      as (kept' & E & F & L).
    { apply Forall_app. split; [done|]. apply Forall_singleton.
      unfold nonempty. simpl. by destruct (yseq h0). }
    exists kept'. split; [done|]. split; [done|].
    rewrite L, length_app. simpl. lia.
Qed.

Lemma slice_to_beam_props (P : hyp → Prop) l :
  Forall P l →
  Forall P (slice_to l beam) ∧ (l ≠ [] → slice_to l beam ≠ []).
Proof.
  intros Hl. unfold slice_to.
  destruct (Z.leb_spec 0 beam); [|lia]. split.
  - by apply Forall_take.
  - destruct l; [done|]. intros _.
    destruct (Z.to_nat beam) eqn:E; [lia|done].
Qed.

Lemma expand_props hyps kept :
  Forall nonempty hyps → Forall nonempty kept →
  ∃ out, expand scores beam hyps kept = Ret out
         ∧ Forall nonempty out
         ∧ (hyps ≠ [] ∨ kept ≠ [] → out ≠ []).
Proof.
  intros Hh. revert kept. induction Hh as [|h0 hyps Hh0 _ IH];
    intros kept Hkept.
  - exists kept. split; [done|]. split; [done|]. by intros [|].
  - cbn [expand]. unfold scores. cbn [mbind prog_mbind prog_bind].
    destruct (extend_props h0 (f (yseq h0)) (seq 0 (Z.to_nat beam)) kept)
      as (kept' & E & F & L); [done|done| |].
    { apply Forall_forall. intros j Hj. apply list_elem_of_In, in_seq in Hj.
      specialize (enough (yseq h0)). unfold len in enough. lia. }
    rewrite E. cbn [mbind prog_mbind prog_bind lift].
    destruct (sorted_desc_props nonempty kept' F) as [S1 S2].
    destruct (slice_to_beam_props nonempty (sorted_desc kept') S1) as [T1 T2].
    destruct (IH _ T1) as (out & Eo & Fo & No).
    exists out. split; [done|]. split; [done|]. intros _. apply No. right.
    apply T2. intros Hnil. rewrite Hnil in S2. simpl in S2.
    rewrite length_seq in L. lia.
Qed.

Lemma force_eos_props hyps :
  ∃ out, force_eos (Ok eos) hyps = Ok out
         ∧ Forall ends_eos out ∧ length out = length hyps.
Proof.
  induction hyps as [|h0 hyps (out & E & F & L)]; simpl.
  - by eexists.
  - rewrite E. cbn [mbind exc_mbind exc_bind]. eexists.
    split; [done|]. split; [|simpl; by rewrite L].
    constructor; [|done]. unfold ends_eos. simpl. apply last_snoc.
Qed.

Lemma split_ended_props hyps ended remained :
  Forall nonempty hyps →
  ∃ e r, split_ended (Ok eos) hyps ended remained
           = Ok (ended ++ e, remained ++ r)
         ∧ Forall ends_eos e ∧ Forall open_ r
         ∧ (length e + length r = length hyps)%nat
         ∧ (Forall ends_eos hyps → r = []).
Proof.
  intros Hh. revert ended remained.
  induction Hh as [|h0 hyps Hh0 _ IH]; intros ended remained; simpl.
  - exists [], []. rewrite !app_nil_r. done.
  - destruct (last (yseq h0)) as [y|] eqn:Hl; last first.
    { apply last_None in Hl. done. }
    destruct (Z.eqb_spec y eos) as [->|Hne].
    + destruct (IH (ended ++ [h0]) remained) as (e & r & E & F1 & F2 & L & N).
      exists (h0 :: e), r. rewrite E, <- app_assoc.
      split; [done|]. split; [by constructor|]. split; [done|].
      split; [simpl; lia|]. intros Hall. apply N.
      by apply Forall_cons in Hall as [_ ?].
    + destruct (IH ended (remained ++ [h0])) as (e & r & E & F1 & F2 & L & N).
      exists e, (h0 :: r). rewrite E, <- app_assoc.
      split; [done|]. split; [done|].
      split; [constructor; [|done]; split; [done|congruence]|].
      split; [simpl; lia|]. intros Hall.
      apply Forall_cons in Hall as [Hend _]. unfold ends_eos in Hend.
      congruence.
Qed.

(** One pass keeps the ended hypotheses, adds only hypotheses that end in
    [eos], and leaves active only hypotheses that do not; when something
    was active, something is active or ended afterwards; the last pass
    leaves nothing active. *)
Lemma beam_step_props i hyps ended :
  Forall nonempty hyps → Forall ends_eos ended →
  ∃ hyps' e,
    beam_step scores (Ok eos) beam maxlen i hyps ended
      = Ret (hyps', ended ++ e)
    ∧ Forall open_ hyps' ∧ Forall ends_eos e
    ∧ (hyps ≠ [] → hyps' ≠ [] ∨ e ≠ [])
    ∧ (i = maxlen - 1 → hyps' = []).
Proof.
  intros Hh He. unfold beam_step.
  destruct (expand_props hyps [] Hh (Forall_nil_2 _)) as (out & Eo & Fo & No).
  rewrite Eo. cbn [mbind prog_mbind prog_bind].
  destruct (Z.eqb_spec i (maxlen - 1)) as [Hi|Hi].
  - destruct (force_eos_props out) as (out' & Ef & Ff & Lf). rewrite Ef.
    cbn [mbind prog_mbind prog_bind lift].
    assert (Fn : Forall nonempty out').
    { eapply Forall_impl; [exact Ff|]. intros h0 Hh0 Hnil.
      unfold ends_eos in Hh0. by rewrite Hnil in Hh0. }
    destruct (split_ended_props out' ended [] Fn)
      as (e & r & Es & F1 & F2 & L & N).
    rewrite Es. cbn [mbind prog_mbind prog_bind lift]. exists r, e.
    split; [done|]. split; [done|]. split; [done|]. split.
    + intros Hne. right. intros ->. rewrite (N Ff) in L. simpl in L.
      assert (out ≠ []) by (apply No; by left). destruct out; simpl in *; [done|lia].
    + intros _. by apply N.
  - cbn [mbind prog_mbind prog_bind lift].
    destruct (split_ended_props out ended [] Fo)
      as (e & r & Es & F1 & F2 & L & N).
    rewrite Es. cbn [mbind prog_mbind prog_bind lift]. exists r, e.
    split; [done|]. split; [done|]. split; [done|]. split; [|done].
    intros Hne. assert (out ≠ []) by (apply No; by left).
    destruct r; [right|by left]. intros ->. simpl in L.
    destruct out; simpl in *; [done|lia].
Qed.

Lemma beam_loop_props n i hyps ended :
  i + Z.of_nat n = maxlen →
  Forall nonempty hyps → Forall ends_eos ended →
  hyps ≠ [] ∨ ended ≠ [] →
  ∃ ended', beam_loop scores (Ok eos) beam maxlen n i hyps ended = Ret ended'
            ∧ Forall ends_eos ended'
            ∧ ((0 < n)%nat → ended' ≠ []).
Proof.
  revert i hyps ended. induction n as [|n IH]; intros i hyps ended Hi Hh He Hne.
  - exists ended. split; [done|]. split; [done|lia].
  - cbn [beam_loop].
    destruct (beam_step_props i hyps ended Hh He)
      as (hyps' & e & Es & F1 & F2 & Hprog & Hlast).
    rewrite Es. cbn [mbind prog_mbind prog_bind].
    assert (Fn : Forall nonempty hyps').
    { eapply Forall_impl; [exact F1|]. by intros h0 [? _]. }
    assert (He' : Forall ends_eos (ended ++ e)) by (by apply Forall_app).
    assert (Hne' : hyps' ≠ [] ∨ ended ++ e ≠ []).
    { destruct Hne as [Hne|Hne].
      - destruct (Hprog Hne) as [?|?]; [by left|right].
        by destruct ended, e.
      - right. by destruct ended. }
    destruct (IH (i + 1) hyps' (ended ++ e)) as (ended' & El & Fl & Nl);
      [lia|done|done|done|].
    exists ended'. split; [done|]. split; [done|]. intros _.
    destruct n as [|n'].
    + simpl in El. injection El as <-.
      rewrite Hlast in Hne' by lia. by destruct Hne'.
    + apply Nl. lia.
Qed.

End beam_loop_props.

(** With a decoder pass that returns [beam] candidates, the loop of
    [recognize_beam] ends with a non-empty set of hypotheses, each ending in
    [eos]. *)
Corollary beam_loop_ends_nonempty (f : list Z → list (Q * Z)) (sos eos : Z) :
  (∀ ys, 5 <= len (f ys)) →
  ∃ ended,
    decoder.beam_loop (λ ys, decoder.Ret (f ys)) (Ok eos) 5 100
      (Z.to_nat 100) 0 [{| decoder.score := 0%Q; decoder.yseq := [sos] |}] []
    = decoder.Ret ended
    ∧ ended ≠ []
    ∧ Forall (λ h0, last (decoder.yseq h0) = Some eos) ended.
Proof.
  intros Hf.
  destruct (beam_loop_props f eos 5 100 ltac:(lia) Hf (Z.to_nat 100) 0
              [{| decoder.score := 0%Q; decoder.yseq := [sos] |}] [])
    as (ended & E & F & N); [lia|by repeat constructor|done|by left|].
  exists ended. split; [done|]. split; [apply N; lia|done].
Qed.

(** ** Evaluations on the examples *)

(** C1, as stated, fails: with the same table for embedding and projection
    and no decoder layer, the logits of the sharing decoder are not the
    logits of the non-sharing one times [d_model ** -0.5]. *)
Lemma logits_not_scaled :
  let shared := example_decoder 0 true in
  let unshared := example_decoder 0 false in
  ∃ pred_s pred_u gold,
    decoder.resume
      (decoder.forward (H := example_env) shared.1 shared.2
         [[2]] example_enc [1] false) = Ok (pred_s, gold, None)
    ∧ decoder.resume
        (decoder.forward (H := example_env) unshared.1 unshared.2
           [[2]] example_enc [1] false) = Ok (pred_u, gold, None)
    ∧ act3_eqb pred_s
        (decoder.scale3 (decoder.pow_neg_half (Env := example_env) 4) pred_u)
      = false.
Proof.
  eexists _, _, _. split; [vm_compute; reflexivity|].
  split; [vm_compute; reflexivity|]. vm_compute. reflexivity.
Qed.

(** C9, as stated, fails for a decoder without layers: its [forward] runs
    no [DecoderLayer] and completes with nobody at the prompt. *)
Lemma forward_without_layers_completes :
  ∃ r,
    decoder.run_unattended
      (decoder.forward (H := example_env) (example_decoder 0 true).1
         (example_decoder 0 true).2 [[2; -1]; [2; 2]] example_enc [1; 1]
         false) = Some (Ok r).
Proof. eexists. vm_compute. reflexivity. Qed.

(** C4, as stated, fails on the empty batch: [preprocess] raises. *)
Lemma preprocess_empty_batch :
  decoder.preprocess (H := example_env) (example_decoder 1 true).1 []
  = Err IndexError.
Proof. reflexivity. Qed.

(** C10, as stated, fails for a start id outside the embedding table:
    with [sos_id = 7] over a table of three rows the embedding of the
    start token raises [IndexError] before [self.positional_encoding] is
    evaluated. *)
Lemma recognize_beam_index_error :
  decoder.recognize_beam (H := example_env)
    (decoder.__init__ (H := example_env) example_stray_args example_table
       example_table []).1
    (decoder.__init__ (H := example_env) example_stray_args example_table
       example_table []).2
    [[1; 0; 0; 0]]%Q []
  = decoder.Raise IndexError.
Proof. vm_compute. reflexivity. Qed.

(** C5. On the example decoder the search raises in its first decoder pass:
    the first pass of the loop fails, nothing is moved to the ended set and
    no hypothesis is returned. *)
Theorem recognize_beam_ends_no_hypothesis :
  let self := (example_decoder 1 true).1 in
  let h := (example_decoder 1 true).2 in
  decoder.beam_step
    (decoder.beam_scores (H := example_env) self h example_enc 5)
    (getattr_eos self) 5 100 0
    [{| decoder.score := 0%Q; decoder.yseq := [0] |}] []
  = decoder.Raise (AttributeError "positional_encoding")
  ∧ decoder.resume
      (decoder.recognize_beam (H := example_env) self h [[1; 0; 0; 0]]%Q [])
    = Err (AttributeError "positional_encoding").
Proof. split; vm_compute; reflexivity. Qed.

Lemma convert_feature_layout_witness :
  (∃ input_ids token_type_ids,
     data_process.convert_feature (H := byte_tokenizer)
       example_dataset example_sample = Ok (input_ids, token_type_ids)
     ∧ length input_ids = 16%nat
     ∧ length token_type_ids = 16%nat
     ∧ input_ids =
         [101; 97; 98; 99; 100; 101; 102; 103; 104; 105; 106; 102;
          120; 121; 122; 102]
     ∧ token_type_ids = replicate 12 1 ++ replicate 4 2)
  ∧ data_process.convert_feature (H := byte_tokenizer)
      example_dataset example_long_sample
    = Ok ([101; 97; 98; 99; 100; 101; 102; 103; 104; 105; 106; 107; 108;
           102; 120; 91; 83; 112; 97; 102],
          replicate 14 1 ++ replicate 6 2).
Proof.
  destruct (@convert_feature_layout byte_tokenizer) as [Hex Hgen]. split.
  - apply (Hex example_dataset example_sample "abcdefghij" "xyz");
      [vm_compute; reflexivity | vm_compute; reflexivity
      | reflexivity | reflexivity | reflexivity | simpl; lia].
  - apply (Hgen example_dataset example_long_sample
             "abcdefghijklmnopqrstuvwxyz" "x z");
      [vm_compute; reflexivity | vm_compute; reflexivity | simpl; lia].
Defined.

Lemma convert_feature_invariant_witness :
  data_process.convert_feature (H := byte_tokenizer)
    example_dataset example_long_sample
  = Ok ([101; 97; 98; 99; 100; 101; 102; 103; 104; 105; 106; 107; 108;
         102; 120; 91; 83; 112; 97; 102],
        replicate 14 1 ++ replicate 6 2)
  ∧ length [101; 97; 98; 99; 100; 101; 102; 103; 104; 105; 106; 107; 108;
            102; 120; 91; 83; 112; 97; 102]
    = length (replicate 14 1 ++ replicate 6 2)
  ∧ len [101; 97; 98; 99; 100; 101; 102; 103; 104; 105; 106; 107; 108;
         102; 120; 91; 83; 112; 97; 102] <= 20.
Proof.
  split; [vm_compute; reflexivity|].
  destruct (@convert_feature_invariant byte_tokenizer) as [Hinv _].
  apply (Hinv example_dataset example_long_sample).
  vm_compute. reflexivity.
Defined.

Lemma cache_second_construction_witness :
  example_first_run = (Ok example_first_dataset, example_first_run.2)
  ∧ (∃ obj,
       data_process.files example_first_run.2
         !! data_process.path_join "data" (data_process.cached_name "train" 20)
       = Some (data_process.TorchFile obj)
       ∧ obj !! "data_set"
         = Some (data_process.data_set example_first_dataset))
  ∧ ∃ ds2 w2,
      data_process.__init__ (H := byte_tokenizer) 20 7 "data" "train"
        None false example_first_run.2 = (Ok ds2, w2)
      ∧ data_process.data_set ds2
        = data_process.data_set example_first_dataset
      ∧ data_process.files w2 = data_process.files example_first_run.2
      ∧ data_process.trace w2
        = data_process.trace example_first_run.2
          ++ [data_process.EvPrintCacheHit
                (data_process.path_join "data"
                   (data_process.cached_name "train" 20));
              data_process.EvTorchLoad
                (data_process.path_join "data"
                   (data_process.cached_name "train" 20))]
      ∧ data_process.raw_reads (data_process.trace w2)
        = data_process.raw_reads (data_process.trace example_first_run.2)
      ∧ (data_process.raw_reads (data_process.trace w2)
         ≤ data_process.raw_reads (data_process.trace example_world) + 1)%nat
      ∧ ∀ other : data_process.Tokenizer, ∃ ds2',
          data_process.__init__ (H := other) 20 7 "data" "train"
            None false example_first_run.2 = (Ok ds2', w2)
          ∧ data_process.data_set ds2'
            = data_process.data_set example_first_dataset.
Proof.
  assert (Hfirst : example_first_run
                   = (Ok example_first_dataset, example_first_run.2))
    by (vm_compute; reflexivity).
  split; [exact Hfirst|].
  exact (cache_second_construction (H := byte_tokenizer) 20 5 7 "data" "train"
           (Some "raw.json") None false example_world
           example_first_dataset example_first_run.2 Hfirst).
Defined.

Lemma collate_func_pads_witness :
  ∃ X Y,
    data_process.collate_func example_batch
      = Ok {[ "input_ids" := X; "token_type_ids" := Y ]}
    ∧ length X = 2%nat ∧ length Y = 2%nat
    ∧ X !! 1%nat = Some [4; 0; 0]
    ∧ Y !! 1%nat = Some [1; 0; 0].
Proof.
  destruct collate_func_pads as [_ Hpad].
  destruct (Hpad example_batch [([1; 2; 3], [0; 0; 1]); ([4], [1])])
    as (X & Y & E & LX & LY & Hrows & _).
  - discriminate.
  - repeat constructor; vm_compute; reflexivity.
  - exists X, Y. split; [exact E|]. split; [exact LX|]. split; [exact LY|].
    destruct (Hrows 1%nat [4] [1] eq_refl) as (RX & _ & RY & _).
    split; [exact RX | exact RY].
Defined.

Lemma slf_attn_mask_is_or_witness :
  ∃ s k m,
    at3 (decoder.get_subsequent_mask [[0; 2; 1; 1]]) 0 3 2 = Some s
    ∧ at3 (decoder.get_attn_key_pad_mask [[0; 2; 1; 1]] [[0; 2; 1; 1]] 1)
          0 3 2 = Some k
    ∧ at3 (decoder.slf_attn_mask_of [[0; 2; 1; 1]] 1) 0 3 2 = Some m
    ∧ m = (0 <? s) || (0 <? k)
    ∧ (m = true ↔ 0 < s ∨ 0 < k)
    ∧ (0 <? s) = (3 <? 2)%nat
    ∧ (0 <? k) = (1 =? 1).
Proof.
  apply (slf_attn_mask_is_or [[0; 2; 1; 1]] 1 0 3 2 [0; 2; 1; 1] 1);
    [reflexivity | simpl; lia | reflexivity].
Defined.

Lemma preprocess_pads_witness :
  ∃ ys_in_pad ys_out_pad,
    decoder.preprocess (H := example_env) (example_decoder 1 true).1
      [[2; -1]; [2; 2]] = Ok (ys_in_pad, ys_out_pad)
    ∧ decoder.size2 ys_in_pad = (2%nat, 3%nat)
    ∧ decoder.size2 ys_out_pad = (2%nat, 3%nat)
    ∧ ys_in_pad !! 0%nat = Some [0; 2; 1]
    ∧ ys_out_pad !! 0%nat = Some [2; 1; -1].
Proof.
  destruct (preprocess_pads (H := example_env) (example_decoder 1 true).1 0 1
              [[2; -1]; [2; 2]])
    as (ys_in_pad & ys_out_pad & E & S1 & S2 & Hrows);
    [vm_compute; reflexivity | vm_compute; reflexivity | discriminate |].
  exists ys_in_pad, ys_out_pad.
  split; [exact E|]. split; [exact S1|]. split; [exact S2|].
  destruct (Hrows 0%nat [2] eq_refl) as (R1 & R2 & _).
  split; [exact R1 | exact R2].
Defined.

Lemma breakpoint_blocks_decoder_witness :
  0 < decoder.n_layers (example_args 1 true)
  ∧ ∀ r,
      decoder.run_unattended
        (decoder.forward (H := example_env) (example_decoder 1 true).1
           (example_decoder 1 true).2 [[2; -1]; [2; 2]] example_enc [1; 1]
           false) ≠ Some (Ok r).
Proof.
  split; [simpl; lia|]. intros r.
  destruct (@breakpoint_blocks_decoder example_env) as (_ & Hfwd & _).
  apply (Hfwd (example_args 1 true) example_table example_table []).
  simpl. lia.
Defined.

Lemma recognize_beam_raises_witness :
  Z.abs (decoder.sos_id (example_args 1 true)) <= 2 ^ 24
  ∧ 0 <= decoder.sos_id (example_args 1 true) < len example_table
  ∧ decoder.recognize_beam (H := example_env) (example_decoder 1 true).1
      (example_decoder 1 true).2 [[1; 0; 0; 0]]%Q []
    = decoder.Raise (AttributeError "positional_encoding")
  ∧ Z.abs (decoder.sos_id example_stray_args) <= 2 ^ 24
  ∧ ¬ (0 <= decoder.sos_id example_stray_args < len example_table)
  ∧ decoder.beam_scores (H := example_env)
      (decoder.__init__ (H := example_env) example_stray_args example_table
         example_table []).1
      (decoder.__init__ (H := example_env) example_stray_args example_table
         example_table []).2
      [[[1; 0; 0; 0]]]%Q 5 [decoder.sos_id example_stray_args]
    = decoder.Raise IndexError.
Proof.
  assert (Hsmall : Z.abs (decoder.sos_id (example_args 1 true)) <= 2 ^ 24)
    by (simpl; lia).
  assert (Hsos : 0 <= decoder.sos_id (example_args 1 true) < len example_table)
    by (unfold len; simpl; lia).
  assert (Hsmall' : Z.abs (decoder.sos_id example_stray_args) <= 2 ^ 24)
    by (simpl; lia).
  assert (Hout : ¬ (0 <= decoder.sos_id example_stray_args
                    < len example_table))
    by (unfold len; simpl; lia).
  split; [exact Hsmall|]. split; [exact Hsos|].
  destruct (recognize_beam_raises (H := example_env) (example_args 1 true)
              example_table example_table [] [[1; 0; 0; 0]]%Q [])
    as (_ & _ & _ & Hraise).
  split; [exact (proj2 (proj1 (Hraise Hsmall) Hsos))|].
  split; [exact Hsmall'|]. split; [exact Hout|].
  destruct (recognize_beam_raises (H := example_env) example_stray_args
              example_table example_table [] [[1; 0; 0; 0]]%Q [])
    as (_ & _ & _ & Hstray).
  exact (proj1 (proj2 (Hstray Hsmall') Hout)).
Defined.

(** * Further properties of the feature pipeline *)

Section feature_more.
Import data_process.
Context `{Tokenizer}.

(** [convert_feature] for a non-negative [title_max_len], in closed form. *)
Lemma convert_feature_general self sample content title :
  sample !! "content" = Some content →
  sample !! "title" = Some title →
  0 <= title_max_len self →
  let t := take (Z.to_nat (title_max_len self))
                (tokenize (str_replace_char " " "[Space]" title)) in
  let c := take (Z.to_nat (max_len self - len t - 3)) (tokenize content) in
  convert_feature self sample =
    if len t + 3 <=? max_len self
    then Ok (feature_of self c t) else Err AssertionError.
Proof.
  intros Hc Ht Html t c.
  rewrite (convert_feature_build _ _ _ _ Hc Ht). cbv zeta.
  rewrite (truncate_take _ _ Html). fold t.
  pose proof (len_nonneg t) as Ht0.
  pose proof (len_nonneg (tokenize content)) as Hc0.
  destruct (Z.leb_spec (len t + 3) (max_len self)) as [Hfit|Hover].
  - rewrite (truncate_take (tokenize content)) by lia. fold c.
    assert (len c <= max_len self - len t - 3) by (apply len_take_le; lia).
    destruct (Z.leb_spec (len c + len t + 3) (max_len self)); [done|lia].
  - rewrite (truncate_negative (tokenize content)) by lia.
    set (c' := take _ (tokenize content)).
    assert (Hc' : len c' = Z.max 0 (len (tokenize content)
                                     + (max_len self - len t - 3))).
    { unfold c', len. rewrite length_take. unfold len in *. lia. }
    destruct (Z.leb_spec (len c' + len t + 3) (max_len self)); [lia|done].
Qed.

(** X1. A sample without the key [content] raises [KeyError] for it, and a
    sample with [content] but without [title] raises [KeyError] for
    [title]: the content is looked up first. *)
Theorem convert_feature_missing_key self (sample : gmap string string) :
  (sample !! "content" = None →
   convert_feature self sample = Err (KeyError "content"))
  ∧ (is_Some (sample !! "content") → sample !! "title" = None →
     convert_feature self sample = Err (KeyError "title")).
Proof.
  split.
  - intros Hc. unfold convert_feature, getitem. by rewrite Hc.
  - intros [c Hc] Ht. unfold convert_feature, getitem. by rewrite Hc, Ht.
Qed.

Lemma list_ascii_app s1 s2 :
  list_ascii_of_string (s1 +:+ s2)
  = list_ascii_of_string s1 ++ list_ascii_of_string s2.
Proof. induction s1 as [|a s1 IH]; [done|]. simpl. by rewrite IH. Qed.

(** X2. The title handed to the tokenizer holds no space: every space has
    become the seven characters of the placeholder and every other
    character is kept, so a title without spaces is unchanged and the text
    grows by six characters per space. *)
Theorem title_spaces_replaced (title : string) :
  let r := str_replace_char " " "[Space]" title in
  (" "%char ∉ list_ascii_of_string r)
  ∧ String.length r
    = (String.length title
       + 6 * count_occ ascii_dec (list_ascii_of_string title) " "%char)%nat
  ∧ (" "%char ∉ list_ascii_of_string title → r = title)
  ∧ str_replace_char " " "[Space]" r = r.
Proof.
  intros r.
  assert (Hno : " "%char ∉ list_ascii_of_string r).
  { unfold r. induction title as [|a s IH]; simpl; [by apply not_elem_of_nil|].
    destruct (Ascii.eqb_spec a " ") as [->|Hne].
    - rewrite list_ascii_app. simpl.
      repeat (apply not_elem_of_cons; split; [done|]). exact IH.
    - simpl. apply not_elem_of_cons. split; [congruence|exact IH]. }
  assert (Hid : ∀ s, " "%char ∉ list_ascii_of_string s →
                     str_replace_char " " "[Space]" s = s).
  { induction s as [|a s IH]; [done|]. simpl. intros Hs.
    apply not_elem_of_cons in Hs as [Ha Hs].
    destruct (Ascii.eqb_spec a " ") as [->|_]; [done|]. by rewrite IH. }
  assert (Hlen : ∀ s,
    String.length (str_replace_char " " "[Space]" s)
    = (String.length s
       + 6 * count_occ ascii_dec (list_ascii_of_string s) " "%char)%nat).
  { induction s as [|a s IH]; [done|].
    cbn [str_replace_char list_ascii_of_string count_occ].
    destruct (Ascii.eqb_spec a " ") as [->|Hne].
    - destruct (ascii_dec " " " ") as [_|?]; [|done].
      change ("[Space]" +:+ ?x) with
        (String "[" (String "S" (String "p" (String "a" (String "c"
           (String "e" (String "]" x))))))).
      cbn [String.length]. rewrite IH. lia.
    - destruct (ascii_dec a " ") as [?|_]; [done|].
      cbn [String.length]. rewrite IH. lia. }
  split; [exact Hno|]. split; [apply Hlen|]. split; [apply Hid | by apply Hid].
Qed.

(** X3. A returned feature has as many ids as the content tokens, the kept
    title tokens and the three special tokens together, capped at
    [max_len]: it fills [max_len] exactly when the content had to be cut. *)
Theorem convert_feature_length_capped self sample content title
    input_ids token_type_ids :
  sample !! "content" = Some content →
  sample !! "title" = Some title →
  0 <= title_max_len self →
  convert_feature self sample = Ok (input_ids, token_type_ids) →
  let t := take (Z.to_nat (title_max_len self))
                (tokenize (str_replace_char " " "[Space]" title)) in
  len input_ids = Z.min (len (tokenize content) + len t + 3) (max_len self)
  ∧ len t = Z.min (len (tokenize (str_replace_char " " "[Space]" title)))
                  (title_max_len self).
Proof.
  intros Hc Ht Html Hok t.
  rewrite (convert_feature_general _ _ _ _ Hc Ht Html) in Hok.
  cbv zeta in Hok. fold t in Hok.
  destruct (Z.leb_spec (len t + 3) (max_len self)) as [Hfit|]; [|done].
  assert (Hf := f_equal (λ r, match r with
                              | Ok p => p.1
                              | Err _ => input_ids
                              end) Hok).
  cbn beta iota in Hf. cbn [fst] in Hf.
  match type of Hf with
  | (feature_of _ ?c _).1 = _ =>
      destruct (feature_of_lengths self c t) as [L1 _];
      rewrite Hf in L1; assert (Lc : length c
        = Nat.min (Z.to_nat (max_len self - len t - 3))
                  (length (tokenize content))) by apply length_take
  end.
  split.
  - unfold len in *. lia.
  - unfold t, len. rewrite length_take. lia.
Qed.

(** X24. With both keys present, [convert_feature] returns exactly when
    the kept title tokens and the three special tokens fit in [max_len],
    which is so whenever [title_max_len + 3 <= max_len]; otherwise it
    fails its length assertion, since cutting the content at a negative
    bound drops tokens from its end and need not empty it. *)
Theorem convert_feature_assertion self sample content title :
  sample !! "content" = Some content →
  sample !! "title" = Some title →
  0 <= title_max_len self →
  let t := take (Z.to_nat (title_max_len self))
                (tokenize (str_replace_char " " "[Space]" title)) in
  (len t + 3 <= max_len self ↔
   ∃ input_ids token_type_ids,
     convert_feature self sample = Ok (input_ids, token_type_ids))
  ∧ (max_len self < len t + 3 →
     convert_feature self sample = Err AssertionError)
  ∧ (title_max_len self + 3 <= max_len self → len t + 3 <= max_len self).
Proof.
  intros Hc Ht Html t.
  rewrite (convert_feature_general _ _ _ _ Hc Ht Html). cbv zeta. fold t.
  assert (Lt : len t <= title_max_len self).
  { unfold t, len. rewrite length_take. lia. }
  destruct (Z.leb_spec (len t + 3) (max_len self)) as [Hfit|Hover].
  - split; [|split; [lia|done]].
    split; [|done]. intros _.
    by eexists (feature_of self _ t).1, (feature_of self _ t).2.
  - split; [|split; [done|lia]].
    split; [lia|]. by intros (? & ? & ?).
Qed.

End feature_more.

Section load_more.
Import data_process.
Context `{Tokenizer}.

Lemma load_data_loop_records self data acc d :
  load_data_loop self data acc = Ok d ↔
  ∃ d', d = acc ++ d'
        ∧ Forall2 (λ sample inst, ∃ input_ids token_type_ids,
                     convert_feature self sample = Ok (input_ids, token_type_ids)
                     ∧ inst = feature_dict input_ids token_type_ids) data d'.
Proof.
  revert acc d. induction data as [|sample rest IH]; intros acc d; simpl.
  - split.
    + intros [= <-]. exists []. by rewrite app_nil_r.
    + intros (d' & -> & HF). apply Forall2_nil_inv_l in HF as ->.
      by rewrite app_nil_r.
  - destruct (convert_feature self sample) as [[ids tys]|e] eqn:Hcf;
      cbn [mbind exc_mbind exc_bind].
    + rewrite IH. split.
      * intros (d' & -> & HF). exists (feature_dict ids tys :: d').
        rewrite <- app_assoc. split; [done|]. constructor; [eauto|done].
      * intros (d' & -> & HF).
        apply Forall2_cons_inv_l in HF
          as (inst & d'' & (ids' & tys' & Hok & ->) & HF & ->).
        rewrite Hcf in Hok. injection Hok as <- <-.
        exists d''. by rewrite <- app_assoc.
    + split; [done|]. intros (d' & -> & HF).
      apply Forall2_cons_inv_l in HF as (inst & d'' & (? & ? & Hok & _) & _).
      by rewrite Hcf in Hok.
Qed.

Lemma load_data_loop_first_error self good bad rest acc e :
  Forall (λ sample, ∃ p, convert_feature self sample = Ok p) good →
  convert_feature self bad = Err e →
  load_data_loop self (good ++ bad :: rest) acc = Err e.
Proof.
  intros Hgood Hbad. revert acc.
  induction Hgood as [|sample good [[ids tys] Hok] _ IH]; intros acc; simpl.
  - by rewrite Hbad.
  - rewrite Hok. cbn [mbind exc_mbind exc_bind]. apply IH.
Qed.

(** X4. Reading a corpus file gives one feature record per sample, in the
    order of the file: [load_data] returns a list exactly when every sample
    converts, and record [i] is the feature of sample [i]. *)
Theorem load_data_one_record_per_sample self path data w :
  files w !! path = Some (JsonFile data) →
  ∀ d, (load_data self (Some path) w).1 = Ok d ↔
       Forall2 (λ sample inst, ∃ input_ids token_type_ids,
                  convert_feature self sample = Ok (input_ids, token_type_ids)
                  ∧ inst = feature_dict input_ids token_type_ids) data d.
Proof.
  intros Hfile d.
  unfold load_data, mbind, io_mbind, io_bind, open_json. rewrite Hfile.
  unfold io_lift. cbn [fst]. rewrite load_data_loop_records. split.
  - by intros (d' & -> & HF).
  - intros HF. by exists d.
Qed.

(** X5. [load_data] fails without reading anything when no path is given
    ([TypeError]) or the file does not exist ([FileNotFoundError]); and
    when a sample of the corpus fails to convert, the error of the first
    such sample ends the whole load. *)
Theorem load_data_errors self w :
  load_data self None w = (Err TypeError, w)
  ∧ (∀ path, files w !! path = None →
       load_data self (Some path) w = (Err (FileNotFoundError path), w))
  ∧ (∀ path good bad rest e,
       files w !! path = Some (JsonFile (good ++ bad :: rest)) →
       Forall (λ sample, ∃ p, convert_feature self sample = Ok p) good →
       convert_feature self bad = Err e →
       (load_data self (Some path) w).1 = Err e).
Proof.
  split; [reflexivity|]. split.
  - intros path Hnone.
    unfold load_data, mbind, io_mbind, io_bind, open_json. by rewrite Hnone.
  - intros path good bad rest e Hfile Hgood Hbad.
    unfold load_data, mbind, io_mbind, io_bind, open_json. rewrite Hfile.
    unfold io_lift. cbn [fst].
    by apply load_data_loop_first_error.
Qed.

Lemma load_data_keeps_files self path_file w :
  files (load_data self path_file w).2 = files w.
Proof.
  unfold load_data, mbind, io_mbind, io_bind, open_json, io_lift.
  destruct path_file as [path|]; [|done].
  destruct (files w !! path) as [[data|obj|]|]; done.
Qed.

(** The two branches of [__init__], each in closed form. *)
Lemma init_load_branch max_len title_max_len data_dir data_set_name
    path_file is_overwrite w f :
  let cached := path_join data_dir (cached_name data_set_name max_len) in
  let self0 := {| content_id := token_to_id "[Content]";
                  title_id := token_to_id "[Title]";
                  space_id := token_to_id "[Space]";
                  max_len := max_len; title_max_len := title_max_len;
                  data_set := [] |} in
  files w !! cached = Some f → is_overwrite = false →
  __init__ max_len title_max_len data_dir data_set_name path_file
           is_overwrite w
  = (match f with
     | TorchFile obj =>
         match obj !! "data_set" with
         | Some d => Ok {| content_id := content_id self0;
                           title_id := title_id self0;
                           space_id := space_id self0;
                           max_len := max_len;
                           title_max_len := title_max_len;
                           data_set := d |}
         | None => Err (KeyError "data_set")
         end
     | _ => Err DecodeError
     end,
     {| files := files w;
        trace := (trace w ++ [EvPrintCacheHit cached])
                   ++ [EvTorchLoad cached] |}).
Proof.
  intros cached self0 Hfile ->.
  unfold __init__, mbind, io_mbind, io_bind, path_exists. fold cached.
  rewrite Hfile. rewrite bool_decide_eq_true_2 by eauto.
  cbn [andb negb emit]. unfold torch_load. cbn [files trace].
  rewrite Hfile. destruct f as [data|obj|]; [done| |done].
  unfold io_lift, getitem. by destruct (obj !! "data_set").
Qed.

Lemma init_rebuild_branch max_len title_max_len data_dir data_set_name
    path_file is_overwrite w :
  let cached := path_join data_dir (cached_name data_set_name max_len) in
  let self0 := {| content_id := token_to_id "[Content]";
                  title_id := token_to_id "[Title]";
                  space_id := token_to_id "[Space]";
                  max_len := max_len; title_max_len := title_max_len;
                  data_set := [] |} in
  is_overwrite = true ∨ files w !! cached = None →
  __init__ max_len title_max_len data_dir data_set_name path_file
           is_overwrite w
  = match load_data self0 path_file
            {| files := files w;
               trace := trace w ++ [EvPrintCacheMiss cached] |} with
    | (Ok d, w1) =>
        (Ok {| content_id := content_id self0; title_id := title_id self0;
               space_id := space_id self0; max_len := max_len;
               title_max_len := title_max_len; data_set := d |},
         {| files := <[cached := TorchFile {[ "data_set" := d ]}]> (files w1);
            trace := (trace w1 ++ [EvPrintCacheSaved cached])
                       ++ [EvTorchSave cached] |})
    | (Err e, w1) => (Err e, w1)
    end.
Proof.
  intros cached self0 Hmiss.
  unfold __init__, mbind, io_mbind, io_bind, path_exists. fold cached.
  assert (Hb : bool_decide (is_Some (files w !! cached)) && negb is_overwrite
               = false).
  { destruct Hmiss as [->|Hnone]; [by rewrite andb_false_r|].
    rewrite Hnone. rewrite bool_decide_eq_false_2; [done|].
    by intros [? ?]. }
  rewrite Hb. cbn [emit]. fold self0.
  destruct (load_data self0 path_file _) as [[d|e] w1]; reflexivity.
Qed.

(** X6. A construction that fails leaves every file as it was: the cache
    file is written only after the whole corpus has been converted. *)
Theorem init_failure_writes_nothing max_len title_max_len data_dir
    data_set_name path_file is_overwrite w e w' :
  __init__ max_len title_max_len data_dir data_set_name path_file
           is_overwrite w = (Err e, w') →
  files w' = files w.
Proof.
  set (cached := path_join data_dir (cached_name data_set_name max_len)).
  intros Hinit.
  assert (Hrebuild : is_overwrite = true ∨ files w !! cached = None →
                     files w' = files w).
  { intros Hmiss.
    rewrite (init_rebuild_branch _ _ _ _ _ _ _ Hmiss) in Hinit.
    match type of Hinit with
    | match load_data ?a ?b ?c with _ => _ end = _ =>
        pose proof (load_data_keeps_files a b c) as Hkeep;
        destruct (load_data a b c) as [[d|e1] w1]; [done|]
    end.
    injection Hinit as _ <-. exact Hkeep. }
  destruct (files w !! cached) as [f|] eqn:Hfile; [|by apply Hrebuild; right].
  destruct is_overwrite; [by apply Hrebuild; left|].
  rewrite (init_load_branch _ _ _ _ _ _ _ f Hfile eq_refl) in Hinit.
  by injection Hinit as _ <-.
Qed.

(** X7. With [is_overwrite] set, or with no cache file, a construction that
    succeeds has read the raw corpus exactly once and converted it with the
    given sizes; afterwards the cache file holds exactly the returned data
    set, replacing whatever it held, and no other file has changed. *)
Theorem init_rebuild_writes_cache max_len title_max_len data_dir
    data_set_name path_file is_overwrite w ds w' :
  let cached := path_join data_dir (cached_name data_set_name max_len) in
  is_overwrite = true ∨ files w !! cached = None →
  __init__ max_len title_max_len data_dir data_set_name path_file
           is_overwrite w = (Ok ds, w') →
  ∃ path data,
    path_file = Some path
    ∧ files w !! path = Some (JsonFile data)
    ∧ Forall2 (λ sample inst, ∃ input_ids token_type_ids,
                 convert_feature ds sample = Ok (input_ids, token_type_ids)
                 ∧ inst = feature_dict input_ids token_type_ids)
              data (data_set ds)
    ∧ data_process.max_len ds = max_len
    ∧ data_process.title_max_len ds = title_max_len
    ∧ files w' = <[cached := TorchFile {[ "data_set" := data_set ds ]}]> (files w)
    ∧ raw_reads (trace w') = S (raw_reads (trace w)).
Proof.
  intros cached Hmiss Hinit.
  rewrite (init_rebuild_branch _ _ _ _ _ _ _ Hmiss) in Hinit.
  revert Hinit.
  unfold load_data, mbind, io_mbind, io_bind, open_json, io_lift.
  destruct path_file as [path|]; [|done]. cbn [files trace].
  destruct (files w !! path) as [[data|obj|]|] eqn:Hpath; try done.
  match goal with
  | |- context [load_data_loop ?a ?b ?c] =>
      destruct (load_data_loop a b c) as [d|err] eqn:Hloop; [|done]
  end.
  intros [= <- <-]. exists path, data. cbn [files trace data_set].
  split; [done|]. split; [done|]. split.
  { apply load_data_loop_records in Hloop as (d' & -> & HF).
    eapply Forall2_impl; [exact HF|]. intros sample inst (i & t & Hok & ->).
    exists i, t. split; [|done]. exact Hok. }
  split; [done|]. split; [done|]. split; [done|].
  rewrite !raw_reads_snoc. simpl. lia.
Qed.

(** X8. With [is_overwrite] off, an existing cache file alone decides the
    construction: its data set is returned as it is, a file that is no
    saved object gives a decode error and a saved object without
    [data_set] a [KeyError]; the raw corpus is never opened and no file
    changes, whatever [path_file] is. *)
Theorem init_cache_decides max_len title_max_len data_dir data_set_name
    path_file w f r w' :
  let cached := path_join data_dir (cached_name data_set_name max_len) in
  files w !! cached = Some f →
  __init__ max_len title_max_len data_dir data_set_name path_file false w
    = (r, w') →
  files w' = files w
  ∧ raw_reads (trace w') = raw_reads (trace w)
  ∧ match r with
    | Ok ds => ∃ obj, f = TorchFile obj ∧ obj !! "data_set" = Some (data_set ds)
    | Err e =>
        ((∀ obj, f ≠ TorchFile obj) ∧ e = DecodeError)
        ∨ (∃ obj, f = TorchFile obj ∧ obj !! "data_set" = None
                  ∧ e = KeyError "data_set")
    end.
Proof.
  intros cached Hfile Hinit.
  rewrite (init_load_branch _ _ _ _ _ _ _ f Hfile eq_refl) in Hinit.
  injection Hinit as <- <-. cbn [files trace].
  split; [done|]. split; [rewrite !raw_reads_snoc; simpl; lia|].
  destruct f as [data|obj|]; [left; by split|..|left; by split].
  destruct (obj !! "data_set") as [d|] eqn:Hd; [by exists obj|].
  right. by exists obj.
Qed.

End load_more.

Section cache_key.
Import data_process.

Lemma pretty_N_go_no_underscore (x : N) (s : string) :
  "_"%char ∉ list_ascii_of_string s →
  "_"%char ∉ list_ascii_of_string (pretty_N_go x s).
Proof.
  revert s. induction (N.lt_wf_0 x) as [x _ IH]; intros s Hs.
  assert (x = 0 ∨ 0 < x)%N as [->|Hpos] by lia.
  - by rewrite pretty_N_go_0.
  - rewrite pretty_N_go_step by done. apply IH; [by apply N.div_lt|].
    simpl. apply not_elem_of_cons. split; [|done].
    unfold pretty_N_char. by repeat case_match.
Qed.

Lemma pretty_Z_no_underscore (z : Z) :
  "_"%char ∉ list_ascii_of_string (pretty z).
Proof.
  assert (Hn : ∀ p : positive,
            "_"%char ∉ list_ascii_of_string (pretty (N.pos p))).
  { intros p. unfold pretty, pretty_N. case_decide; [done|].
    apply pretty_N_go_no_underscore, not_elem_of_nil. }
  destruct z as [|p|p]; unfold pretty, pretty_Z.
  - simpl. apply not_elem_of_cons. split; [done|apply not_elem_of_nil].
  - apply Hn.
  - simpl. apply not_elem_of_cons. split; [done|apply Hn].
Qed.

(** The part after the last occurrence of a character is determined. *)
Lemma split_at_last_char (c : ascii) (a1 a2 p1 p2 : string) :
  c ∉ list_ascii_of_string p1 → c ∉ list_ascii_of_string p2 →
  a1 +:+ String c p1 = a2 +:+ String c p2 → a1 = a2 ∧ p1 = p2.
Proof.
  intros H1 H2. revert a2.
  induction a1 as [|x a1 IH]; intros [|y a2]; simpl; intros Heq.
  - by injection Heq as ->.
  - injection Heq as <- ->. exfalso. apply H1.
    rewrite list_ascii_app. simpl. apply elem_of_app. right. left.
  - injection Heq as -> <-. exfalso. apply H2.
    rewrite list_ascii_app. simpl. apply elem_of_app. right. left.
  - injection Heq as -> Heq. destruct (IH _ Heq) as [-> ->]. done.
Qed.

Lemma path_join_inj (a b1 b2 : string) :
  path_join a b1 = path_join a b2 → b1 = b2.
Proof.
  unfold path_join. destruct (String.eqb a ""); [done|].
  destruct (ends_with_slash a); intros Heq.
  - by apply (inj (String.app a)) in Heq.
  - apply (inj (String.app a)) in Heq. by injection Heq.
Qed.

(** X9. Within one data directory the cache file name determines the
    dataset name and the maximum length: two constructions that differ in
    either never read or overwrite each other's cache. *)
Theorem cached_path_determines_key (data_dir n1 n2 : string) (m1 m2 : Z) :
  path_join data_dir (cached_name n1 m1)
    = path_join data_dir (cached_name n2 m2) →
  n1 = n2 ∧ m1 = m2.
Proof.
  intros Heq. apply path_join_inj in Heq. unfold cached_name in Heq.
  apply (inj (String.app "cached_")) in Heq.
  apply split_at_last_char in Heq as [-> Hp];
    [|apply pretty_Z_no_underscore..].
  split; [done|]. by apply (inj pretty).
Qed.

End cache_key.

Section getitem_more.
Import data_process.

Lemma py_getitem_spec {A} (l : list A) (idx : Z) :
  py_getitem l idx
  = if (- len l <=? idx) && (idx <? len l)
    then match l !! Z.to_nat (idx mod len l) with
         | Some x => Ok x
         | None => Err IndexError
         end
    else Err IndexError.
Proof.
  unfold py_getitem. pose proof (len_nonneg l) as Hl.
  destruct (Z.ltb_spec idx 0) as [Hneg|Hpos].
  - destruct (Z.leb_spec (- len l) idx) as [Hlo|Hlo]; cbn [andb].
    + destruct (Z.ltb_spec idx (len l)); [|lia].
      destruct (Z.leb_spec 0 (idx + len l)); [|lia].
      destruct (Z.ltb_spec (idx + len l) (len l)); [|lia]. cbn [andb].
      replace (idx mod len l) with (idx + len l); [done|].
      apply Z.mod_unique with (-1); lia.
    + destruct (Z.leb_spec 0 (idx + len l)); [lia|done].
  - destruct (Z.leb_spec (- len l) idx); [|lia].
    destruct (Z.leb_spec 0 idx); [|lia]. cbn [andb].
    destruct (Z.ltb_spec idx (len l)); [|done].
    by rewrite Z.mod_small by lia.
Qed.

(** X10. [__getitem__] returns a record exactly for the indices from
    [-len] to [len - 1] and raises [IndexError] for all others; index [i]
    below [__len__] gives record [i] of the data set, and [i - len] gives
    the same record. *)
Theorem getitem_in_range (self : GPT2NewsTitleDataSet) (idx : Z) :
  (- __len__ self <= idx < __len__ self
   ↔ ∃ inst, __getitem__ self idx = Ok inst)
  ∧ (¬ (- __len__ self <= idx < __len__ self) →
     __getitem__ self idx = Err IndexError)
  ∧ (0 <= idx < __len__ self →
     ∃ inst, data_set self !! Z.to_nat idx = Some inst
             ∧ __getitem__ self idx = Ok inst
             ∧ __getitem__ self (idx - __len__ self) = Ok inst).
Proof.
  unfold __getitem__, __len__. rewrite !py_getitem_spec.
  set (l := data_set self). pose proof (len_nonneg l) as Hl.
  assert (Hin : - len l <= idx < len l →
                is_Some (l !! Z.to_nat (idx mod len l))).
  { intros Hr. apply lookup_lt_is_Some_2.
    pose proof (Z.mod_pos_bound idx (len l)). unfold len in *. lia. }
  split; [|split].
  - destruct (Z.leb_spec (- len l) idx);
      destruct (Z.ltb_spec idx (len l)); cbn [andb];
      try (split; [lia | by intros [? ?]]).
    destruct Hin as [x Hx]; [lia|]. rewrite Hx.
    split; [by exists x | lia].
  - intros Hout.
    destruct (Z.leb_spec (- len l) idx);
      destruct (Z.ltb_spec idx (len l)); cbn [andb]; try done; lia.
  - intros [H0 H1].
    destruct (lookup_lt_is_Some_2 l (Z.to_nat idx)) as [inst Hinst];
      [unfold len in *; lia|].
    exists inst. split; [done|].
    destruct (Z.leb_spec (- len l) idx); [|lia].
    destruct (Z.ltb_spec idx (len l)); [|lia].
    destruct (Z.leb_spec (- len l) (idx - len l)); [|lia].
    destruct (Z.ltb_spec (idx - len l) (len l)); [|lia].
    cbn [andb].
    replace ((idx - len l) mod len l) with idx
      by (apply Z.mod_unique with (-1); lia).
    rewrite Z.mod_small by lia. by rewrite Hinst.
Qed.

End getitem_more.

Section dataset_use.
Import data_process.
Context `{Tokenizer}.

(** X11. After a construction that converted the corpus, the data set has
    one item per sample of the raw file, and item [i] is the feature of
    sample [i]. *)
Theorem dataset_items_follow_corpus max_len title_max_len data_dir
    data_set_name path data is_overwrite w ds w' :
  let cached := path_join data_dir (cached_name data_set_name max_len) in
  is_overwrite = true ∨ files w !! cached = None →
  files w !! path = Some (JsonFile data) →
  __init__ max_len title_max_len data_dir data_set_name (Some path)
           is_overwrite w = (Ok ds, w') →
  __len__ ds = len data
  ∧ ∀ (i : nat) sample, data !! i = Some sample →
      ∃ input_ids token_type_ids,
        convert_feature ds sample = Ok (input_ids, token_type_ids)
        ∧ __getitem__ ds (Z.of_nat i)
          = Ok (feature_dict input_ids token_type_ids).
Proof.
  intros cached Hmiss Hfile Hinit.
  rewrite (init_rebuild_branch _ _ _ _ _ _ _ Hmiss) in Hinit.
  revert Hinit.
  unfold load_data, mbind, io_mbind, io_bind, open_json, io_lift.
  cbn [files trace]. rewrite Hfile.
  match goal with
  | |- context [load_data_loop ?a ?b ?c] =>
      destruct (load_data_loop a b c) as [d|err] eqn:Hloop; [|done]
  end.
  intros [= <- <-].
  apply load_data_loop_records in Hloop as (d' & -> & HF). simpl in HF.
  unfold __len__, __getitem__. cbn [data_set app].
  pose proof (Forall2_length _ _ _ HF) as Hlen.
  split; [unfold len; by rewrite Hlen|].
  intros i sample Hi.
  destruct (Forall2_lookup_l _ _ _ _ _ HF Hi)
    as (inst & Hinst & ids & tys & Hok & ->).
  exists ids, tys. split; [exact Hok|].
  unfold py_getitem, len.
  assert (i < length d')%nat by (by eapply lookup_lt_Some).
  destruct (Z.ltb_spec (Z.of_nat i) 0); [lia|].
  destruct (Z.leb_spec 0 (Z.of_nat i)); [|lia].
  destruct (Z.ltb_spec (Z.of_nat i) (Z.of_nat (length d'))); [|lia].
  cbn [andb]. by rewrite Nat2Z.id, Hinst.
Qed.

(** X12. Every non-empty batch drawn from a loaded data set collates: the
    two tensors have one row per instance and one common width [L], the
    length of the longest sequence of the batch, which is at most
    [max_len]; row [i] of either tensor is the instance's sequence
    followed by zeros up to [L]. *)
Theorem collate_loaded_batch self path_file w d w'
    (batch : list (gmap string (list Z))) :
  load_data self path_file w = (Ok d, w') →
  batch ≠ [] →
  Forall (λ inst, inst ∈ d) batch →
  ∃ X Y (L : nat),
    collate_func batch = Ok {[ "input_ids" := X; "token_type_ids" := Y ]}
    ∧ length X = length batch ∧ length Y = length batch
    ∧ Forall (λ row, length row = L) X
    ∧ Forall (λ row, length row = L) Y
    ∧ Z.of_nat L <= max_len self
    ∧ (∃ inst input_ids,
         inst ∈ batch ∧ inst !! "input_ids" = Some input_ids
         ∧ length input_ids = L)
    ∧ ∀ (i : nat) inst, batch !! i = Some inst →
        ∃ input_ids token_type_ids,
          inst = feature_dict input_ids token_type_ids
          ∧ length token_type_ids = length input_ids
          ∧ (length input_ids ≤ L)%nat
          ∧ X !! i = Some (input_ids ++ replicate (L - length input_ids) 0)
          ∧ Y !! i = Some (token_type_ids
                             ++ replicate (L - length token_type_ids) 0).
Proof.
  intros Hload Hne Hin.
  assert (Hd : Forall (λ inst, ∃ ids tys,
                 inst = feature_dict ids tys ∧ length ids = length tys
                 ∧ len ids <= max_len self) d).
  { unfold load_data, mbind, io_mbind, io_bind in Hload.
    destruct (open_json path_file w) as [[data|e] w1]; [|done].
    unfold io_lift in Hload. injection Hload as Hd _.
    eapply load_data_loop_inv; [|apply Forall_nil_2|exact Hd].
    intros sample ids tys Hcf. exists ids, tys. split; [done|].
    by apply convert_feature_returns_bounded in Hcf. }
  assert (Hfeats : ∃ feats : list (list Z * list Z),
            Forall2 (λ inst f, inst = feature_dict f.1 f.2) batch feats
            ∧ Forall (λ f, length f.1 = length f.2
                           ∧ len f.1 <= max_len self) feats).
  { clear Hne. induction Hin as [|inst batch Hi _ (feats & HF & HA)].
    - exists []. split; constructor.
    - rewrite Forall_forall in Hd.
      destruct (Hd _ Hi) as (ids & tys & -> & Hl & Hm).
      exists ((ids, tys) :: feats). split; constructor; done. }
  destruct Hfeats as (feats & HF0 & HA).
  assert (HF : Forall2 (λ inst f, inst !! "input_ids" = Some f.1
                                  ∧ inst !! "token_type_ids" = Some f.2)
                       batch feats).
  { eapply Forall2_impl; [exact HF0|]. by intros inst f ->. }
  pose proof (Forall2_length _ _ _ HF) as Hlen.
  assert (Hmax : max_len_of feats.*1 = max_len_of feats.*2).
  { clear -HA. induction HA as [|f feats [Hl _] _ IH]; [done|].
    rewrite !fmap_cons. unfold max_len_of in *. cbn [foldr].
    by rewrite Hl, IH. }
  exists (pad_sequence feats.*1 0), (pad_sequence feats.*2 0),
         (max_len_of feats.*1).
  split.
  { unfold collate_func, len.
    destruct (Z.eqb_spec (Z.of_nat (length batch)) 0) as [E|_].
    - destruct batch; [done|simpl in E; lia].
    - by rewrite (collate_loop_spec _ _ [] [] HF). }
  unfold pad_sequence at 1 2. rewrite !length_map.
  split; [done|]. split; [done|]. split; [|split; [|split; [|split]]].
  - apply Forall_forall. intros row Hrow.
    apply list_elem_of_fmap in Hrow as (l & -> & Hl).
    by apply length_pad_to, max_len_of_ge.
  - rewrite Hmax. apply Forall_forall. intros row Hrow.
    apply list_elem_of_fmap in Hrow as (l & -> & Hl).
    by apply length_pad_to, max_len_of_ge.
  - destruct (max_len_of_attained feats.*1) as (l & Hl & <-).
    { destruct feats, batch; done. }
    apply list_elem_of_fmap in Hl as (f & -> & Hf).
    rewrite Forall_forall in HA. destruct (HA _ Hf) as [_ Hm]. exact Hm.
  - destruct (max_len_of_attained feats.*1) as (l & Hl & Hatt).
    { destruct feats, batch; done. }
    apply list_elem_of_fmap in Hl as (f & -> & Hf).
    apply list_elem_of_lookup_1 in Hf as [i Hf].
    destruct (Forall2_lookup_r _ _ _ _ _ HF Hf) as (inst & Hinst & Hids & _).
    exists inst, f.1. split; [by eapply list_elem_of_lookup_2|]. by split.
  - intros i inst Hi.
    destruct (Forall2_lookup_l _ _ _ _ _ HF0 Hi) as (f & Hf & ->).
    rewrite Forall_forall in HA.
    destruct (HA f) as [Hl _]; [by eapply list_elem_of_lookup_2|].
    assert (H1 : feats.*1 !! i = Some f.1)
      by (by rewrite list_lookup_fmap, Hf).
    assert (H2 : feats.*2 !! i = Some f.2)
      by (by rewrite list_lookup_fmap, Hf).
    exists f.1, f.2. split; [done|]. split; [done|]. split.
    { apply max_len_of_ge. by eapply list_elem_of_lookup_2. }
    destruct (pad_sequence_rows feats.*1 0 i f.1 H1) as [-> _].
    destruct (pad_sequence_rows feats.*2 0 i f.2 H2) as [-> _].
    by rewrite Hmax.
Qed.

End dataset_use.

Section collate_more.
Import data_process.

(** X13. Collation stops at the first instance that lacks a key, with a
    [KeyError] for [input_ids] if that one is missing and for
    [token_type_ids] otherwise. *)
Theorem collate_func_missing_key
    (good : list (gmap string (list Z))) (bad : gmap string (list Z))
    (rest : list (gmap string (list Z))) :
  Forall (λ inst, is_Some (inst !! "input_ids")
                  ∧ is_Some (inst !! "token_type_ids")) good →
  (bad !! "input_ids" = None →
   collate_func (good ++ bad :: rest) = Err (KeyError "input_ids"))
  ∧ (is_Some (bad !! "input_ids") → bad !! "token_type_ids" = None →
     collate_func (good ++ bad :: rest) = Err (KeyError "token_type_ids")).
Proof.
  intros Hgood.
  assert (Hloop : ∀ e, (∀ a1 a2, collate_loop (bad :: rest) a1 a2 = Err e) →
            ∀ a1 a2, collate_loop (good ++ bad :: rest) a1 a2 = Err e).
  { intros e Hbad. induction Hgood as [|inst good [[i Hi] [t Ht]] _ IH];
      intros a1 a2; [apply Hbad|].
    simpl. unfold getitem. rewrite Hi, Ht.
    cbn [mbind exc_mbind exc_bind]. apply IH. }
  assert (Hnz : (len (good ++ bad :: rest) =? 0) = false).
  { apply Z.eqb_neq. unfold len. rewrite length_app. simpl. lia. }
  split.
  - intros Hi. unfold collate_func.
    rewrite Hnz, (Hloop (KeyError "input_ids")); [done|].
    intros a1 a2. simpl. unfold getitem. by rewrite Hi.
  - intros [i Hi] Ht. unfold collate_func.
    rewrite Hnz, (Hloop (KeyError "token_type_ids")); [done|].
    intros a1 a2. simpl. unfold getitem. by rewrite Hi, Ht.
Qed.

End collate_more.

(** * Further properties of the decoder *)

Section layers_more.
Import decoder.
Context `{Env}.

Lemma resume_bind {A B} (m : prog A) (k : A → prog B) :
  resume (m ≫= k)
  = match resume m with Ok a => resume (k a) | Err e => Err e end.
Proof.
  unfold mbind, prog_mbind. induction m as [a|e|m IH]; simpl; [done|done|apply IH].
Qed.

Lemma breaks_bind {A B} (m : prog A) (k : A → prog B) :
  breaks (m ≫= k)
  = (breaks m + match resume m with Ok a => breaks (k a) | Err _ => 0 end)%nat.
Proof.
  unfold mbind, prog_mbind.
  induction m as [a|e|m IH]; simpl; [done|done|by rewrite IH].
Qed.

Lemma DecoderLayer_forward_eq layer x enc npm m1 m2 :
  DecoderLayer_forward layer x enc npm m1 m2
  = Break (Ret (layer_result layer x enc npm m1 m2)).
Proof.
  unfold DecoderLayer_forward, layer_result.
  destruct (MultiHeadAttention_forward layer true x x x m1) as [o1 a1].
  cbn [fst snd].
  by destruct (MultiHeadAttention_forward layer false _ enc enc m2).
Qed.

Lemma run_layers_cons layer rest x enc npm m1 m2 ra l1 l2 :
  run_layers (layer :: rest) x enc npm m1 m2 ra l1 l2
  = Break
      (let r := layer_result layer x enc npm m1 m2 in
       if ra
       then run_layers rest r.1.1 enc npm m1 m2 ra
              (l1 ++ [r.1.2]) (l2 ++ [r.2])
       else run_layers rest r.1.1 enc npm m1 m2 ra l1 l2).
Proof.
  cbn [run_layers]. rewrite DecoderLayer_forward_eq.
  cbn [mbind prog_mbind prog_bind].
  by destruct (layer_result layer x enc npm m1 m2) as [[o a1] a2].
Qed.

(** The layer loop always runs to its end, stops once per layer, and gives
    the same states whether or not the attention maps are collected. *)
Lemma run_layers_props layers x enc npm m1 m2 ra l1 l2 :
  ∃ out n1 n2,
    resume (run_layers layers x enc npm m1 m2 ra l1 l2)
      = Ok (out, l1 ++ n1, l2 ++ n2)
    ∧ breaks (run_layers layers x enc npm m1 m2 ra l1 l2) = length layers
    ∧ (if ra then length n1 = length layers ∧ length n2 = length layers
       else n1 = [] ∧ n2 = [])
    ∧ (∀ ra' l3 l4, ∃ n3 n4,
         resume (run_layers layers x enc npm m1 m2 ra' l3 l4)
         = Ok (out, l3 ++ n3, l4 ++ n4))
    ∧ (layers ≠ [] → ∃ z, out = mul_mask z npm).
Proof.
  revert x l1 l2. induction layers as [|layer rest IH]; intros x l1 l2.
  - exists x, [], []. rewrite !app_nil_r. simpl.
    split; [done|]. split; [done|]. split; [by destruct ra|].
    split; [|done]. intros ra' l3 l4. exists [], []. by rewrite !app_nil_r.
  - rewrite run_layers_cons. cbn [resume breaks]. cbv zeta.
    set (r := layer_result layer x enc npm m1 m2).
    assert (Hlast : ∃ z, r.1.1 = mul_mask z npm)
      by (unfold r, layer_result; cbn [fst]; eauto).
    destruct ra.
    + destruct (IH r.1.1 (l1 ++ [r.1.2]) (l2 ++ [r.2]))
        as (out & n1 & n2 & E & Bk & [L1 L2] & Ind & Hz).
      exists out, (r.1.2 :: n1), (r.2 :: n2).
      rewrite E, Bk, <- !app_assoc. cbn [length app].
      split; [done|]. split; [done|]. split; [by rewrite L1, L2|]. split.
      * intros ra' l3 l4. rewrite run_layers_cons. cbn [resume]. cbv zeta.
        fold r. destruct ra'.
        -- destruct (Ind true (l3 ++ [r.1.2]) (l4 ++ [r.2])) as (n3 & n4 & E').
           exists (r.1.2 :: n3), (r.2 :: n4). by rewrite E', <- !app_assoc.
        -- apply Ind.
      * intros _. destruct rest as [|layer' rest']; [|by apply Hz].
        simpl in E. injection E as <- _ _. exact Hlast.
    + destruct (IH r.1.1 l1 l2)
        as (out & n1 & n2 & E & Bk & [-> ->] & Ind & Hz).
      exists out, [], []. rewrite E, Bk.
      split; [done|]. split; [done|]. split; [done|]. split.
      * intros ra' l3 l4. rewrite run_layers_cons. cbn [resume]. cbv zeta.
        fold r. destruct ra'.
        -- destruct (Ind true (l3 ++ [r.1.2]) (l4 ++ [r.2])) as (n3 & n4 & E').
           exists (r.1.2 :: n3), (r.2 :: n4). by rewrite E', <- !app_assoc.
        -- apply Ind.
      * intros _. destruct rest as [|layer' rest']; [|by apply Hz].
        simpl in E. injection E as <- _ _. exact Hlast.
Qed.

End layers_more.

Section forward_more.
Import decoder.
Context `{Env}.

(** [forward] after preprocessing, in terms of the layer loop. *)
Lemma forward_shape a emb_init prj_init h padded_input enc lens ra
    ys_in_pad gold :
  let self := (__init__ a emb_init prj_init h).1 in
  let h' := (__init__ a emb_init prj_init h).2 in
  let layers := map (new_layer a) (seq 0 (Z.to_nat (n_layers a))) in
  let npm := get_non_pad_mask ys_in_pad (eos_id a) in
  let w := if tgt_emb_prj_weight_sharing a then emb_init else prj_init in
  let c := if tgt_emb_prj_weight_sharing a
           then pow_neg_half (d_model a) else 1%Q in
  preprocess self padded_input = Ok (ys_in_pad, gold) →
  (∀ e, mapM (mapM (embed_row emb_init)) ys_in_pad = Err e →
        forward self h' padded_input enc lens ra = Raise e)
  ∧ (∀ e, mapM (mapM (embed_row emb_init)) ys_in_pad = Ok e →
      let x0 := Dropout_forward (dropout a)
                  (add3 (scale3 c e)
                     (PositionalEncoding_forward (d_model a) (pe_maxlen a)
                        ys_in_pad)) in
      ∃ out l1 l2,
        resume (run_layers layers x0 enc npm
                  (Some (slf_attn_mask_of ys_in_pad (eos_id a)))
                  (Some (get_attn_pad_mask enc lens (size2 ys_in_pad).2))
                  ra [] []) = Ok (out, l1, l2)
        ∧ resume (forward self h' padded_input enc lens ra)
          = Ok (map (linear_rows w) out, gold,
                if ra then Some (l1, l2) else None)
        ∧ breaks (forward self h' padded_input enc lens ra) = length layers
        ∧ (if ra then length l1 = length layers ∧ length l2 = length layers
           else l1 = [] ∧ l2 = [])
        ∧ (layers ≠ [] → ∃ z, out = mul_mask z npm)).
Proof.
  intros self h' layers npm w c Hpre.
  pose proof (forward_unfold a emb_init prj_init h padded_input enc lens ra)
    as Hfw.
  cbv zeta in Hfw. fold self h' in Hfw. rewrite Hpre in Hfw.
  rewrite bind_lift in Hfw. split.
  - intros e He. rewrite Hfw, He. reflexivity.
  - intros e He x0. rewrite He in Hfw. rewrite bind_lift in Hfw.
    fold layers npm w c in Hfw. fold x0 in Hfw.
    match type of Hfw with
    | _ = (run_layers layers x0 _ _ ?m1 ?m2 _ _ _ ≫= _) =>
        destruct (run_layers_props layers x0 enc npm m1 m2 ra [] [])
          as (out & n1 & n2 & E & Bk & Hl & _ & Hz);
        exists out, n1, n2
    end.
    cbn [app] in E. split; [exact E|]. rewrite Hfw.
    rewrite resume_bind, breaks_bind, E, Bk.
    split; [by destruct ra|]. split; [destruct ra; simpl; lia|].
    split; [exact Hl|exact Hz].
Qed.

Lemma preprocess_value self sos eos padded_input :
  self !! "sos_id" = Some (VInt sos) →
  self !! "eos_id" = Some (VInt eos) →
  padded_input ≠ [] →
  let ys := map (List.filter (λ t, negb (t =? IGNORE_ID))) padded_input in
  preprocess self padded_input
  = Ok (pad_list (map (λ y, sos :: y) ys) eos,
        pad_list (map (λ y, y ++ [eos]) ys) IGNORE_ID).
Proof.
  intros Hsos Heos Hne ys.
  assert (Hys : ys ≠ []) by (unfold ys; by destruct padded_input).
  set (ys_in := map (λ y, sos :: y) ys).
  set (ys_out := map (λ y, y ++ [eos]) ys).
  assert (Min : max_len_of ys_in = S (max_len_of ys)).
  { unfold ys_in. rewrite (max_len_of_map _ _ 1%nat); [lia| |done].
    intros l. simpl. lia. }
  assert (Mout : max_len_of ys_out = S (max_len_of ys)).
  { unfold ys_out. rewrite (max_len_of_map _ _ 1%nat); [lia| |done].
    intros l. rewrite length_app. simpl. lia. }
  assert (Hhd : ∃ y0, match ys with
                      | [] => Err IndexError
                      | y0 :: _ => Ok y0
                      end = Ok y0) by (clear -Hys; destruct ys; eauto; done).
  destruct Hhd as [y0 Hhd].
  unfold preprocess, getattr. fold ys. rewrite Hsos, Heos, Hhd.
  cbn [mbind exc_mbind exc_bind as_int].
  change (λ y, [sos] ++ y) with (λ y : list Z, sos :: y).
  fold ys_in. fold ys_out.
  rewrite !size2_pad_list by (unfold ys_in, ys_out; by destruct ys).
  assert (Lin : length ys_in = length ys) by apply length_map.
  assert (Lout : length ys_out = length ys) by apply length_map.
  rewrite Lin, Lout, Min, Mout.
  by rewrite bool_decide_eq_true_2.
Qed.

Lemma preprocess_err a emb_init prj_init h padded_input e :
  preprocess (__init__ a emb_init prj_init h).1 padded_input = Err e →
  padded_input = [] ∧ e = IndexError.
Proof.
  destruct (init_attrs a emb_init prj_init h) as (Hsos & Heos & _).
  unfold getattr in Hsos, Heos.
  destruct (_ !! "sos_id") as [vs|] eqn:Es; [|done]. injection Hsos as ->.
  destruct (_ !! "eos_id") as [ve|] eqn:Ee; [|done]. injection Heos as ->.
  destruct padded_input as [|row rest]; [by intros [= <-]|].
  by rewrite (preprocess_value _ _ _ _ Es Ee).
Qed.

Lemma init_self_indep_prj a emb_init p1 p2 h :
  (__init__ a emb_init p1 h).1 = (__init__ a emb_init p2 h).1.
Proof.
  unfold __init__, alloc. by destruct (tgt_emb_prj_weight_sharing a).
Qed.

(** X14. A [forward] that returns has stopped at exactly one breakpoint per
    decoder layer.  On an empty batch, and on a batch whose padded decoder
    input holds an id outside the embedding table, it raises [IndexError]
    before any layer runs, so without stopping at all. *)
Theorem forward_breakpoints_per_layer a emb_init prj_init h padded_input
    enc lens ra :
  let fw := forward (__init__ a emb_init prj_init h).1
                    (__init__ a emb_init prj_init h).2
                    padded_input enc lens ra in
  (∀ r, resume fw = Ok r → breaks fw = Z.to_nat (n_layers a))
  ∧ (padded_input = [] → fw = Raise IndexError)
  ∧ (∀ ys_in_pad gold,
       preprocess (__init__ a emb_init prj_init h).1 padded_input
         = Ok (ys_in_pad, gold) →
       ¬ Forall (Forall (λ y, 0 <= y < len emb_init)) ys_in_pad →
       fw = Raise IndexError).
Proof.
  intros fw. unfold fw. split; [|split].
  - intros r Hr.
    destruct (preprocess (__init__ a emb_init prj_init h).1 padded_input)
      as [[ys_in_pad gold]|e0] eqn:Hpre.
    + destruct (forward_shape a emb_init prj_init h padded_input enc lens ra
                  ys_in_pad gold Hpre) as [Herr Hok].
      destruct (mapM (mapM (embed_row emb_init)) ys_in_pad) as [e|e] eqn:He.
      * destruct (Hok e eq_refl) as (out & l1 & l2 & _ & _ & Hbk & _).
        by rewrite Hbk, length_map, length_seq.
      * by rewrite (Herr e eq_refl) in Hr.
    + pose proof (forward_unfold a emb_init prj_init h padded_input enc lens
                    ra) as Hfw.
      cbv zeta in Hfw. rewrite Hpre in Hfw. rewrite bind_lift in Hfw.
      by rewrite Hfw in Hr.
  - intros ->. rewrite forward_unfold. by rewrite preprocess_nil.
  - intros ys_in_pad gold Hpre Hout.
    destruct (forward_shape a emb_init prj_init h padded_input enc lens ra
                ys_in_pad gold Hpre) as [Herr _].
    destruct (mapM (mapM (embed_row emb_init)) ys_in_pad) as [e|e] eqn:He.
    + destruct Hout. apply embed_rows_ok_iff. by exists e.
    + rewrite (Herr e eq_refl). by apply embed_rows_err in He as ->.
Qed.

(** X15. Asking for the attention maps changes neither the logits nor the
    gold labels: it only adds two lists with one map per decoder layer. *)
Theorem forward_return_attns a emb_init prj_init h padded_input enc lens
    pred gold attns :
  resume (forward (__init__ a emb_init prj_init h).1
                  (__init__ a emb_init prj_init h).2
                  padded_input enc lens true) = Ok (pred, gold, attns) →
  (∃ dec_slf_attn_list dec_enc_attn_list,
     attns = Some (dec_slf_attn_list, dec_enc_attn_list)
     ∧ length dec_slf_attn_list = Z.to_nat (n_layers a)
     ∧ length dec_enc_attn_list = Z.to_nat (n_layers a))
  ∧ resume (forward (__init__ a emb_init prj_init h).1
                    (__init__ a emb_init prj_init h).2
                    padded_input enc lens false) = Ok (pred, gold, None).
Proof.
  intros Htrue.
  destruct (preprocess (__init__ a emb_init prj_init h).1 padded_input)
    as [[ys_in_pad gold0]|e0] eqn:Hpre; last first.
  { pose proof (forward_unfold a emb_init prj_init h padded_input enc lens
                  true) as Hfw.
    cbv zeta in Hfw. rewrite Hpre in Hfw. rewrite bind_lift in Hfw.
    by rewrite Hfw in Htrue. }
  destruct (forward_shape a emb_init prj_init h padded_input enc lens true
              ys_in_pad gold0 Hpre) as [Herr Hok].
  destruct (forward_shape a emb_init prj_init h padded_input enc lens false
              ys_in_pad gold0 Hpre) as [_ Hok'].
  destruct (mapM (mapM (embed_row emb_init)) ys_in_pad) as [e|e] eqn:He;
    [|by rewrite (Herr e eq_refl) in Htrue].
  destruct (Hok e eq_refl) as (out & l1 & l2 & Hrun & Hres & _ & [L1 L2] & _).
  destruct (Hok' e eq_refl)
    as (out' & l1' & l2' & Hrun' & Hres' & _ & [-> ->] & _).
  rewrite Hres in Htrue. injection Htrue as <- <- <-.
  rewrite length_map, length_seq in L1, L2.
  split; [by exists l1, l2|]. rewrite Hres'.
  match type of Hrun with
  | resume (run_layers ?ls ?x0 ?en ?np ?m1 ?m2 _ _ _) = _ =>
      destruct (run_layers_props ls x0 en np m1 m2 true [] [])
        as (o & n1 & n2 & E & _ & _ & Ind & _)
  end.
  destruct (Ind false [] []) as (n3 & n4 & E').
  rewrite Hrun in E. rewrite Hrun' in E'.
  injection E as ->. injection E' as ->. done.
Qed.

(** X16. With weight sharing on, the values drawn for the projection by its
    own initialiser never reach the output: [forward] gives the same
    result for any two of them. *)
Theorem forward_sharing_ignores_prj_init a emb_init p1 p2 h padded_input
    enc lens ra :
  tgt_emb_prj_weight_sharing a = true →
  forward (__init__ a emb_init p1 h).1 (__init__ a emb_init p1 h).2
          padded_input enc lens ra
  = forward (__init__ a emb_init p2 h).1 (__init__ a emb_init p2 h).2
            padded_input enc lens ra.
Proof.
  intros Hshare. rewrite !forward_unfold.
  rewrite (init_self_indep_prj a emb_init p1 p2). by rewrite Hshare.
Qed.

(** An entry of a masked tensor is the entry of the tensor times the entry
    of the mask. *)
Lemma mul_mask_at (z : act3) (npm : list (list Q)) b t m v :
  at2 npm b t = Some m →
  at2 (mul_mask z npm) b t = Some v →
  ∃ u, at2 z b t = Some u ∧ v = map (λ q, Qmult q m) u.
Proof.
  unfold at2, mul_mask. intros Hm. rewrite lookup_zip_with.
  destruct (z !! b) as [row|]; [|done]. cbn [mbind option_bind].
  destruct (npm !! b) as [mrow|]; [|done]. cbn [mbind option_bind].
  rewrite lookup_zip_with.
  destruct (row !! t) as [v0|]; [|done]. cbn [mbind option_bind].
  rewrite Hm. cbn [mbind option_bind]. intros [= <-]. by exists v0.
Qed.

Lemma scaled_by_zero (u : list Q) (m : Q) :
  (m == 0)%Q → Forall (λ q, (q == 0)%Q) (map (λ q, Qmult q m) u).
Proof.
  intros Hz. apply Forall_forall. intros q Hq.
  apply list_elem_of_fmap in Hq as (q0 & -> & _).
  rewrite Hz. apply Qmult_0_r.
Qed.

Lemma dot_zero (v w : list Q) :
  Forall (λ q, (q == 0)%Q) v → (dot v w == 0)%Q.
Proof.
  intros Hv. revert w. unfold dot.
  induction Hv as [|q v Hq _ IH]; intros [|x w]; simpl; try reflexivity.
  rewrite IH, Hq. reflexivity.
Qed.

(** X18. Once continued past its breakpoint, a decoder layer returns at
    every position the output of its feed-forward module times the
    non-pad mask entry of that position: the mask is applied once more
    after the last sub-layer.  The activations being finite numbers, the
    output is therefore zero wherever the mask is zero, whatever finite
    values the attention and feed-forward modules compute. *)
Theorem decoder_layer_zero_at_masked layer dec_input enc_output
    (non_pad_mask : list (list Q)) slf_attn_mask dec_enc_attn_mask
    dec_output dec_slf_attn dec_enc_attn (b t : nat) (m : Q) (v : list Q) :
  resume (DecoderLayer_forward layer dec_input enc_output non_pad_mask
            slf_attn_mask dec_enc_attn_mask)
    = Ok (dec_output, dec_slf_attn, dec_enc_attn) →
  at2 non_pad_mask b t = Some m →
  at2 dec_output b t = Some v →
  (∃ x u, dec_output
          = mul_mask (PositionwiseFeedForward_forward layer x) non_pad_mask
          ∧ at2 (PositionwiseFeedForward_forward layer x) b t = Some u
          ∧ v = map (λ q, Qmult q m) u)
  ∧ ((m == 0)%Q → Forall (λ q, (q == 0)%Q) v).
Proof.
  rewrite DecoderLayer_forward_eq. cbn [resume]. unfold layer_result.
  intros [= <- _ _] Hm Hv.
  destruct (mul_mask_at _ _ _ _ _ _ Hm Hv) as (u & Hu & ->).
  split; [|by apply scaled_by_zero].
  eexists _, u. split; [reflexivity|]. by split.
Qed.

(** X19. In a decoder with at least one layer, when [forward] returns, the
    logits at every position of the decoder input that holds the
    end-of-sequence id, which is also the pad id, are the projection
    (without bias) of a state multiplied by zero.  Activations and weights
    being finite numbers, these logits are all zero: at the padding, and
    equally at a genuine end-of-sequence token among the labels. *)
Theorem forward_logits_zero_at_eos a emb_init prj_init h padded_input
    enc lens ra ys_in_pad gold pred gold' attns (b t : nat) (v : list Q) :
  0 < n_layers a →
  preprocess (__init__ a emb_init prj_init h).1 padded_input
    = Ok (ys_in_pad, gold) →
  resume (forward (__init__ a emb_init prj_init h).1
                  (__init__ a emb_init prj_init h).2
                  padded_input enc lens ra) = Ok (pred, gold', attns) →
  at2 ys_in_pad b t = Some (eos_id a) →
  at2 pred b t = Some v →
  (∃ u, v = map (dot (map (λ q, Qmult q 0) u))
                (if tgt_emb_prj_weight_sharing a then emb_init else prj_init))
  ∧ Forall (λ q, (q == 0)%Q) v.
Proof.
  intros Hn Hpre Hfw Hpad Hv.
  destruct (forward_shape a emb_init prj_init h padded_input enc lens ra
              ys_in_pad gold Hpre) as [Herr Hok].
  destruct (mapM (mapM (embed_row emb_init)) ys_in_pad) as [e|e] eqn:He;
    [|by rewrite (Herr e eq_refl) in Hfw].
  destruct (Hok e eq_refl) as (out & l1 & l2 & _ & Hres & _ & _ & Hz).
  rewrite Hres in Hfw. injection Hfw as <- _ _.
  destruct Hz as [z ->].
  { destruct (Z.to_nat (n_layers a)) eqn:En; [lia|done]. }
  unfold at2 in Hv. rewrite list_lookup_fmap in Hv.
  destruct (mul_mask z _ !! b) as [rows|] eqn:Hrows; [|done].
  cbn [fmap option_fmap option_map] in Hv.
  unfold linear_rows in Hv. rewrite list_lookup_fmap in Hv.
  destruct (rows !! t) as [u0|] eqn:Hu; [|done].
  injection Hv as <-.
  destruct (mul_mask_at z (get_non_pad_mask ys_in_pad (eos_id a)) b t 0%Q u0)
    as (u & _ & ->).
  { unfold at2, get_non_pad_mask in *. rewrite list_lookup_fmap.
    destruct (ys_in_pad !! b) as [row|]; [|done]. simpl.
    rewrite list_lookup_fmap, Hpad. simpl. by rewrite Z.eqb_refl. }
  { unfold at2. by rewrite Hrows. }
  split; [by exists u|].
  apply Forall_forall. intros q Hq.
  apply list_elem_of_fmap in Hq as (wrow & -> & _).
  apply dot_zero, scaled_by_zero. reflexivity.
Qed.

(** X20. Two decoders built one after the other never share storage: the
    weights of the second lie at locations the first does not hold, so
    writing any weight of the second changes no weight of the first, and
    neither construction changes a tensor that was already stored. *)
Theorem decoders_do_not_share a1 e1 p1 a2 e2 p2 h :
  let A := __init__ a1 e1 p1 h in
  let B := __init__ a2 e2 p2 A.2 in
  (∀ l, (l < length h)%nat → B.2 !! l = h !! l)
  ∧ ∀ nameA nameB vA vB,
      nameA = "tgt_word_emb" ∨ nameA = "tgt_word_prj" →
      nameB = "tgt_word_emb" ∨ nameB = "tgt_word_prj" →
      A.1 !! nameA = Some vA → B.1 !! nameB = Some vB →
      weight_of vA ≠ weight_of vB
      ∧ ∀ m, read_weight (write_weight B.2 vB m) vA = read_weight A.2 vA.
Proof.
  intros A B.
  destruct (init_attrs a1 e1 p1 h) as (_ & _ & _ & HeA & _ & _ & HpA & _).
  destruct (init_attrs a2 e2 p2 A.2) as (_ & _ & _ & HeB & _ & _ & HpB & _).
  fold A in HeA, HpA. fold B in HeB, HpB.
  assert (HA : A.2 = (h ++ [e1]) ++ [p1]) by apply init_heap.
  assert (HB : B.2 = (A.2 ++ [e2]) ++ [p2]) by apply init_heap.
  assert (LA : length A.2 = S (S (length h))).
  { rewrite HA, !length_app. simpl. lia. }
  split.
  { intros l Hl. rewrite HB, HA, <- !app_assoc. by rewrite lookup_app_l. }
  intros nameA nameB vA vB HnA HnB HvA HvB.
  assert (HlA : ∃ lA, weight_of vA = Some lA ∧ (lA < length A.2)%nat).
  { unfold getattr in HeA, HpA.
    destruct HnA as [-> | ->]; rewrite HvA in *.
    - injection HeA as ->. eexists. split; [done|lia].
    - injection HpA as ->. eexists. split; [done|].
      destruct (tgt_emb_prj_weight_sharing a1); lia. }
  assert (HlB : ∃ lB, weight_of vB = Some lB ∧ (length A.2 ≤ lB)%nat
                      ∧ (lB < length B.2)%nat).
  { assert (length B.2 = S (S (length A.2)))
      by (rewrite HB, !length_app; simpl; lia).
    unfold getattr in HeB, HpB.
    destruct HnB as [-> | ->]; rewrite HvB in *.
    - injection HeB as ->. eexists. split; [done|lia].
    - injection HpB as ->. eexists. split; [done|].
      destruct (tgt_emb_prj_weight_sharing a2); lia. }
  destruct HlA as (lA & WA & BA). destruct HlB as (lB & WB & B1 & B2).
  split; [rewrite WA, WB; intros [=]; lia|].
  intros m. unfold read_weight, write_weight. rewrite WA, WB.
  cbn [mbind option_bind]. rewrite list_lookup_insert_ne by lia.
  rewrite HB, <- !app_assoc. by rewrite lookup_app_l.
Qed.

End forward_more.

(** * Further properties of the search loop *)

Section sorting.
Import decoder.

Lemma score_ge_total x y : ¬ score_ge x y → score_ge y x.
Proof.
  unfold score_ge. rewrite !Qle_bool_iff. intros Hn.
  apply Qlt_le_weak, Qnot_le_lt. exact Hn.
Qed.

Lemma score_ge_trans x y z : score_ge x y → score_ge y z → score_ge x z.
Proof.
  unfold score_ge. rewrite !Qle_bool_iff. intros H1 H2.
  eapply Qle_trans; eassumption.
Qed.

Lemma insert_desc_elements x l : insert_desc x l ≡ₚ x :: l.
Proof.
  induction l as [|y l IH]; simpl; [done|].
  destruct (Qle_bool _ _); [|done]. rewrite IH. apply Permutation_swap.
Qed.

Lemma sorted_desc_elements l : sorted_desc l ≡ₚ l.
Proof.
  unfold sorted_desc.
  assert (G : ∀ acc, foldl (λ acc x, insert_desc x acc) acc l ≡ₚ acc ++ l).
  { induction l as [|x l IH]; intros acc; simpl; [by rewrite app_nil_r|].
    rewrite IH, insert_desc_elements. apply Permutation_middle. }
  apply (G []).
Qed.

Lemma insert_desc_sorted x l :
  StronglySorted score_ge l → StronglySorted score_ge (insert_desc x l).
Proof.
  induction 1 as [|y l Hs IH Hy]; simpl; [repeat constructor|].
  destruct (Qle_bool (score x) (score y)) eqn:Hxy.
  - constructor; [done|].
    rewrite insert_desc_elements. by constructor.
  - assert (Hyx : score_ge x y).
    { apply score_ge_total. unfold score_ge. by rewrite Hxy. }
    constructor; [by constructor|]. constructor; [done|].
    eapply Forall_impl; [exact Hy|]. intros z Hz.
    by eapply score_ge_trans.
Qed.

Lemma sorted_desc_sorted l : StronglySorted score_ge (sorted_desc l).
Proof.
  unfold sorted_desc.
  assert (G : ∀ acc, StronglySorted score_ge acc →
            StronglySorted score_ge (foldl (λ acc x, insert_desc x acc) acc l)).
  { induction l as [|x l IH]; intros acc Hacc; [done|].
    simpl. by apply IH, insert_desc_sorted. }
  apply G. constructor.
Qed.

(** Inserting after a sorted prefix that dominates the new element appends
    it: equal scores keep their order. *)
Lemma insert_desc_snoc x l :
  Forall (λ y, score_ge y x) l → insert_desc x l = l ++ [x].
Proof.
  induction 1 as [|y l Hy _ IH]; [done|]. simpl.
  unfold score_ge in Hy. by rewrite Hy, IH.
Qed.

Lemma foldl_insert_sorted acc l :
  StronglySorted score_ge (acc ++ l) →
  foldl (λ acc x, insert_desc x acc) acc l = acc ++ l.
Proof.
  revert acc. induction l as [|x l IH]; intros acc Hs; simpl.
  - by rewrite app_nil_r.
  - rewrite insert_desc_snoc.
    + rewrite IH; by rewrite <- app_assoc.
    + apply StronglySorted_app in Hs as (Hall & _ & _).
      apply Forall_forall. intros y Hy. apply Hall; [done|left].
Qed.

Lemma sorted_desc_id l : StronglySorted score_ge l → sorted_desc l = l.
Proof. intros Hs. by apply (foldl_insert_sorted [] l). Qed.

(** The first [k] elements after an insertion depend only on the first [k]
    elements before it. *)
Lemma take_insert_desc k x l l' :
  take k l = take k l' →
  take k (insert_desc x l) = take k (insert_desc x l').
Proof.
  revert l l'. induction k as [|k IH]; intros l l' Heq; [done|].
  destruct l as [|y l], l' as [|y' l']; try done.
  simpl in Heq. injection Heq as <- Heq. simpl.
  destruct (Qle_bool (score x) (score y)).
  - simpl. f_equal. by apply IH.
  - simpl. f_equal. destruct k as [|k']; [done|].
    simpl. f_equal. simpl in Heq.
    assert (Ht : take k' (take (S k') l) = take k' (take (S k') l'))
      by (by rewrite Heq).
    by rewrite !take_take, !Nat.min_l in Ht by lia.
Qed.

Lemma take_foldl_insert k b l l' :
  take k l = take k l' →
  take k (foldl (λ acc x, insert_desc x acc) l b)
  = take k (foldl (λ acc x, insert_desc x acc) l' b).
Proof.
  revert l l'. induction b as [|x b IH]; intros l l' Heq; [done|].
  simpl. by apply IH, take_insert_desc.
Qed.

(** Pruning, adding more candidates and pruning again is pruning once. *)
Lemma prune_twice k a b :
  take k (sorted_desc (take k (sorted_desc a) ++ b))
  = take k (sorted_desc (a ++ b)).
Proof.
  unfold sorted_desc at 1 3. rewrite !foldl_app.
  fold (sorted_desc (take k (sorted_desc a))). fold (sorted_desc a).
  rewrite sorted_desc_id.
  - apply take_foldl_insert. by rewrite take_take, Nat.min_id.
  - pose proof (sorted_desc_sorted a) as Hs.
    rewrite <- (take_drop k (sorted_desc a)) in Hs.
    by apply StronglySorted_app_1_l in Hs.
Qed.

End sorting.

Section beam_more.
Import decoder.
Variable f : list Z → list (Q * Z).
Variables eos beam maxlen : Z.
Hypothesis beam_nonneg : 0 <= beam.

Lemma extend_value h0 best k n kept :
  (k + n ≤ length best)%nat →
  extend h0 best (seq k n) kept
  = Ok (kept
        ++ map (λ '(s, i), {| score := Qplus (score h0) s;
                              yseq := yseq h0 ++ [i] |})
               (take n (drop k best))).
Proof.
  revert k kept. induction n as [|n IH]; intros k kept Hk; simpl.
  - by rewrite app_nil_r.
  - destruct (lookup_lt_is_Some_2 best k) as [[s i] Hb]; [lia|].
    rewrite Hb. rewrite IH by lia. rewrite <- app_assoc. do 2 f_equal.
    rewrite (drop_S _ _ _ Hb). done.
Qed.

Lemma expand_value hyps kept :
  Forall (λ h0, beam <= len (f (yseq h0))) hyps →
  expand (λ ys, Ret (f ys)) beam hyps kept
  = Ret (foldl (λ kept h0,
                  take (Z.to_nat beam)
                       (sorted_desc (kept ++ candidates f beam h0)))
               kept hyps).
Proof.
  intros Hh. revert kept. induction Hh as [|h0 hyps Hh0 _ IH]; intros kept.
  - done.
  - cbn [expand foldl mbind prog_mbind prog_bind].
    rewrite extend_value by (unfold len in Hh0; simpl; lia).
    cbn [lift mbind prog_mbind prog_bind]. rewrite IH. rewrite drop_0.
    unfold slice_to. destruct (Z.leb_spec 0 beam); [|lia]. done.
Qed.

Lemma prune_all hyps a :
  foldl (λ kept h0,
           take (Z.to_nat beam)
                (sorted_desc (kept ++ candidates f beam h0)))
        (take (Z.to_nat beam) (sorted_desc a)) hyps
  = take (Z.to_nat beam)
         (sorted_desc (a ++ concat (map (candidates f beam) hyps))).
Proof.
  revert a. induction hyps as [|h0 hyps IH]; intros a; simpl.
  - by rewrite app_nil_r.
  - rewrite prune_twice, IH. by rewrite <- app_assoc.
Qed.

Lemma expand_global hyps :
  Forall (λ h0, beam <= len (f (yseq h0))) hyps →
  expand (λ ys, Ret (f ys)) beam hyps []
  = Ret (take (Z.to_nat beam)
              (sorted_desc (concat (map (candidates f beam) hyps)))).
Proof.
  intros Hh. rewrite expand_value by done.
  pose proof (prune_all hyps []) as Hp.
  change (sorted_desc []) with (@nil hyp) in Hp.
  rewrite take_nil in Hp. cbn [app] in Hp. by rewrite Hp.
Qed.

(** X21. Pruning to [beam] after every active hypothesis keeps what pruning
    once over all candidates keeps: the hypotheses kept by a pass are the
    first [beam] of all one-token extensions in descending order of score,
    extensions of equal score staying in the order they were made. *)
Theorem expand_prunes_globally hyps :
  Forall (λ h0, beam <= len (f (yseq h0))) hyps →
  let all := concat (map (candidates f beam) hyps) in
  expand (λ ys, Ret (f ys)) beam hyps []
    = Ret (take (Z.to_nat beam) (sorted_desc all))
  ∧ sorted_desc all ≡ₚ all
  ∧ StronglySorted score_ge (sorted_desc all)
  ∧ (StronglySorted score_ge all → sorted_desc all = all).
Proof.
  intros Hh all. split; [by apply expand_global|].
  split; [apply sorted_desc_elements|].
  split; [apply sorted_desc_sorted|apply sorted_desc_id].
Qed.

Lemma force_eos_value hyps :
  force_eos (Ok eos) hyps = Ok (map (with_eos eos) hyps).
Proof.
  induction hyps as [|h0 hyps IH]; [done|]. simpl. rewrite IH. done.
Qed.

Lemma split_ended_value hyps ended remained :
  Forall (λ h0, yseq h0 ≠ []) hyps →
  split_ended (Ok eos) hyps ended remained
  = Ok (ended ++ List.filter (ends_with eos) hyps,
        remained ++ List.filter (λ h0, negb (ends_with eos h0)) hyps).
Proof.
  intros Hh. revert ended remained.
  induction Hh as [|h0 hyps Hne _ IH]; intros ended remained; simpl.
  - by rewrite !app_nil_r.
  - destruct (last (yseq h0)) as [y|] eqn:Hl;
      [|by apply last_None in Hl].
    assert (Hends : ends_with eos h0 = (y =? eos))
      by (unfold ends_with; by rewrite Hl).
    rewrite Hends. cbn [mbind exc_mbind exc_bind].
    destruct (y =? eos); cbn [negb]; rewrite IH, <- app_assoc; done.
Qed.

Lemma candidates_nonempty h0 :
  Forall (λ h1, yseq h1 ≠ []) (candidates f beam h0).
Proof.
  unfold candidates. apply Forall_forall. intros h1 Hin.
  apply list_elem_of_fmap in Hin as ([s i] & -> & _). simpl.
  by destruct (yseq h0).
Qed.

(** One pass of the loop, in closed form. *)
Lemma beam_step_value i hyps ended :
  Forall (λ h0, beam <= len (f (yseq h0))) hyps →
  let kept := take (Z.to_nat beam)
                (sorted_desc (concat (map (candidates f beam) hyps))) in
  beam_step (λ ys, Ret (f ys)) (Ok eos) beam maxlen i hyps ended
    = (if i =? maxlen - 1
       then Ret ([], ended ++ map (with_eos eos) kept)
       else Ret (List.filter (λ h0, negb (ends_with eos h0)) kept,
                 ended ++ List.filter (ends_with eos) kept))
  ∧ (length kept ≤ Z.to_nat beam)%nat
  ∧ ∀ h1, h1 ∈ kept →
      ∃ h0 s y, h0 ∈ hyps ∧ (s, y) ∈ take (Z.to_nat beam) (f (yseq h0))
                ∧ h1 = {| score := Qplus (score h0) s;
                          yseq := yseq h0 ++ [y] |}.
Proof.
  intros Hh kept.
  assert (Hkept : ∀ h1, h1 ∈ kept →
            ∃ h0 s y, h0 ∈ hyps ∧ (s, y) ∈ take (Z.to_nat beam) (f (yseq h0))
                      ∧ h1 = {| score := Qplus (score h0) s;
                                yseq := yseq h0 ++ [y] |}).
  { intros h1 Hin. unfold kept in Hin.
    apply elem_of_take in Hin as (j & Hin & _).
    apply list_elem_of_lookup_2 in Hin.
    rewrite sorted_desc_elements in Hin.
    apply list_elem_of_In, in_concat in Hin as (c & Hc & Hin).
    apply list_elem_of_In in Hc. apply list_elem_of_In in Hin.
    apply list_elem_of_fmap in Hc as (h0 & -> & Hh0).
    unfold candidates in Hin.
    apply list_elem_of_fmap in Hin as ([s y] & -> & Hsy).
    by exists h0, s, y. }
  assert (Hne : Forall (λ h1, yseq h1 ≠ []) kept).
  { apply Forall_forall. intros h1 Hin.
    destruct (Hkept h1 Hin) as (h0 & s & y & _ & _ & ->). simpl.
    by destruct (yseq h0). }
  split; [|split; [unfold kept; rewrite length_take; lia|exact Hkept]].
  unfold beam_step. rewrite expand_global by done. fold kept.
  cbn [mbind prog_mbind prog_bind].
  destruct (i =? maxlen - 1).
  - rewrite force_eos_value. cbn [lift mbind prog_mbind prog_bind].
    rewrite split_ended_value; last first.
    { apply Forall_forall. intros h1 Hin.
      apply list_elem_of_fmap in Hin as (h0 & -> & _). simpl.
      by destruct (yseq h0). }
    cbn [lift mbind prog_mbind prog_bind app].
    assert (Hall : ∀ l, List.filter (ends_with eos) (map (with_eos eos) l)
                        = map (with_eos eos) l
                        ∧ List.filter (λ h0, negb (ends_with eos h0))
                            (map (with_eos eos) l) = []).
    { induction l as [|h0 l [IH1 IH2]]; [done|].
      assert (Hends : ends_with eos (with_eos eos h0) = true).
      { unfold ends_with, with_eos. cbn [yseq].
        by rewrite last_snoc, Z.eqb_refl. }
      cbn [map List.filter]. rewrite Hends. cbn [negb].
      by rewrite IH1, IH2. }
    destruct (Hall kept) as [-> ->]. done.
  - cbn [lift mbind prog_mbind prog_bind]. rewrite split_ended_value by done.
    cbn [lift mbind prog_mbind prog_bind app]. done.
Qed.

(** X22. One pass of the loop, over a decoder pass that returns: of the at
    most [beam] hypotheses kept, each a one-token extension of an active
    one with the candidate's log-probability added to its score, those
    ending in [eos] are appended to the ended list and the others stay
    active, both in order; in the last pass every kept hypothesis gets
    [eos] appended and is ended, and none stays active. *)
Theorem beam_step_result i hyps ended :
  Forall (λ h0, beam <= len (f (yseq h0))) hyps →
  let kept := take (Z.to_nat beam)
                (sorted_desc (concat (map (candidates f beam) hyps))) in
  beam_step (λ ys, Ret (f ys)) (Ok eos) beam maxlen i hyps ended
    = (if i =? maxlen - 1
       then Ret ([], ended ++ map (with_eos eos) kept)
       else Ret (List.filter (λ h0, negb (ends_with eos h0)) kept,
                 ended ++ List.filter (ends_with eos) kept))
  ∧ (length kept ≤ Z.to_nat beam)%nat
  ∧ ∀ h1, h1 ∈ kept →
      ∃ h0 s y, h0 ∈ hyps ∧ (s, y) ∈ take (Z.to_nat beam) (f (yseq h0))
                ∧ h1 = {| score := Qplus (score h0) s;
                          yseq := yseq h0 ++ [y] |}.
Proof. apply beam_step_value. Qed.

(** X23. Over a decoder pass that returns, the loop returns after [maxlen]
    passes, and every hypothesis it ends with starts with the start token,
    ends with [eos] and has between 2 and [maxlen + 2] tokens: the start
    token, at most [maxlen] decoded ones, and the [eos] that the last pass
    appends even after a decoded [eos]. *)
Theorem beam_loop_hypotheses (sos : Z) :
  (∀ ys, beam <= len (f ys)) →
  0 <= maxlen →
  ∃ ended,
    beam_loop (λ ys, Ret (f ys)) (Ok eos) beam maxlen (Z.to_nat maxlen) 0
              [{| score := 0%Q; yseq := [sos] |}] [] = Ret ended
    ∧ Forall (λ h0, head (yseq h0) = Some sos
                    ∧ last (yseq h0) = Some eos
                    ∧ 2 <= len (yseq h0) <= maxlen + 2) ended.
Proof.
  intros Hf Hmax.
  assert (G : ∀ n i hyps ended0,
    i + Z.of_nat n = maxlen → 0 <= i →
    Forall (λ h0, head (yseq h0) = Some sos ∧ len (yseq h0) = i + 1) hyps →
    Forall (λ h0, head (yseq h0) = Some sos ∧ last (yseq h0) = Some eos
                  ∧ 2 <= len (yseq h0) <= maxlen + 2) ended0 →
    ∃ ended1,
      beam_loop (λ ys, Ret (f ys)) (Ok eos) beam maxlen n i hyps ended0
        = Ret ended1
      ∧ Forall (λ h0, head (yseq h0) = Some sos ∧ last (yseq h0) = Some eos
                      ∧ 2 <= len (yseq h0) <= maxlen + 2) ended1).
  { induction n as [|n IH]; intros i hyps ended0 Hi Hi0 Hact Hend.
    - by exists ended0.
    - cbn [beam_loop].
      destruct (beam_step_value i hyps ended0) as (Hstep & _ & Hkept).
      { apply Forall_forall. intros h0 _. apply Hf. }
      rewrite Hstep.
      set (kept := take (Z.to_nat beam)
                     (sorted_desc (concat (map (candidates f beam) hyps))))
        in *.
      assert (Hk : Forall (λ h1, head (yseq h1) = Some sos
                                 ∧ len (yseq h1) = i + 2) kept).
      { apply Forall_forall. intros h1 Hin.
        destruct (Hkept h1 Hin) as (h0 & s & y & Hh0 & _ & ->).
        rewrite Forall_forall in Hact. destruct (Hact h0 Hh0) as [Hhd Hlen].
        cbn [yseq]. rewrite len_app. split; [|unfold len in *; simpl; lia].
        destruct (yseq h0); [done|exact Hhd]. }
      destruct (Z.eqb_spec i (maxlen - 1)) as [Hlast|Hnot];
        cbn [mbind prog_mbind prog_bind].
      + apply (IH (i + 1)); [lia|lia|constructor|].
        apply Forall_app. split; [done|].
        apply Forall_forall. intros h1 Hin.
        apply list_elem_of_fmap in Hin as (h0 & -> & Hin).
        rewrite Forall_forall in Hk. destruct (Hk h0 Hin) as [Hhd Hlen].
        unfold with_eos. cbn [yseq]. rewrite last_snoc, len_app.
        split; [by destruct (yseq h0)|]. split; [done|].
        unfold len in *. simpl. lia.
      + apply (IH (i + 1)); [lia|lia| |].
        * apply Forall_forall. intros h1 Hin.
          apply list_elem_of_In, filter_In in Hin as [Hin _].
          apply list_elem_of_In in Hin.
          rewrite Forall_forall in Hk. destruct (Hk h1 Hin) as [Hhd Hlen].
          split; [done|lia].
        * apply Forall_app. split; [done|].
          apply Forall_forall. intros h1 Hin.
          apply list_elem_of_In, filter_In in Hin as [Hin Hends].
          apply list_elem_of_In in Hin.
          rewrite Forall_forall in Hk. destruct (Hk h1 Hin) as [Hhd Hlen].
          split; [done|]. split; [|lia].
          unfold ends_with in Hends.
          destruct (last (yseq h1)) as [y|]; [|done].
          by apply Z.eqb_eq in Hends as ->. }
  apply (G (Z.to_nat maxlen) 0 _ []); [lia|lia| |constructor].
  by repeat constructor.
Qed.

End beam_more.

(** ** Evaluations of the further properties on the examples *)

Lemma convert_feature_missing_key_witness :
  data_process.convert_feature (H := byte_tokenizer) example_dataset
    {[ "title" := "xyz" ]} = Err (KeyError "content")
  ∧ data_process.convert_feature (H := byte_tokenizer) example_dataset
      example_bad_sample = Err (KeyError "title").
Proof.
  split.
  - apply (proj1 (convert_feature_missing_key (H := byte_tokenizer)
                    example_dataset {[ "title" := "xyz" ]})).
    vm_compute. reflexivity.
  - apply (proj2 (convert_feature_missing_key (H := byte_tokenizer)
                    example_dataset example_bad_sample)).
    + exists "abc". vm_compute. reflexivity.
    + vm_compute. reflexivity.
Defined.

Lemma title_spaces_replaced_witness :
  str_replace_char " " "[Space]" "x z" = "x[Space]z"
  ∧ String.length (str_replace_char " " "[Space]" "x z") = 9%nat
  ∧ str_replace_char " " "[Space]" "xyz" = "xyz".
Proof.
  split; [reflexivity|]. split.
  - destruct (title_spaces_replaced "x z") as (_ & Hlen & _).
    rewrite Hlen. reflexivity.
  - destruct (title_spaces_replaced "xyz") as (_ & _ & Hid & _).
    apply Hid. vm_compute.
    intros Hin. repeat (apply elem_of_cons in Hin as [Hin|Hin];
                        [discriminate Hin|]).
    by apply elem_of_nil in Hin.
Defined.

Lemma convert_feature_length_capped_witness :
  ∃ input_ids token_type_ids,
    data_process.convert_feature (H := byte_tokenizer) example_dataset
      example_long_sample = Ok (input_ids, token_type_ids)
    ∧ len input_ids = Z.min (26 + 5 + 3) 20.
Proof.
  eexists _, _. split; [vm_compute; reflexivity|].
  destruct (convert_feature_length_capped (H := byte_tokenizer)
              example_dataset example_long_sample
              "abcdefghijklmnopqrstuvwxyz" "x z"
              [101; 97; 98; 99; 100; 101; 102; 103; 104; 105; 106; 107; 108;
               102; 120; 91; 83; 112; 97; 102]
              (replicate 14 1 ++ replicate 6 2))
    as [Hlen _];
    [vm_compute; reflexivity | vm_compute; reflexivity | simpl; lia
    | vm_compute; reflexivity |].
  exact Hlen.
Defined.

Lemma load_data_one_record_per_sample_witness :
  Forall2 (λ sample inst, ∃ input_ids token_type_ids,
             data_process.convert_feature (H := byte_tokenizer)
               example_dataset sample = Ok (input_ids, token_type_ids)
             ∧ inst = data_process.feature_dict input_ids token_type_ids)
          [example_sample; example_long_sample]
          (data_process.data_set example_first_dataset).
Proof.
  apply (load_data_one_record_per_sample (H := byte_tokenizer)
           example_dataset "raw.json" [example_sample; example_long_sample]
           example_world);
    vm_compute; reflexivity.
Defined.

Lemma load_data_errors_witness :
  data_process.load_data (H := byte_tokenizer) example_dataset
    (Some "missing.json") example_world
  = (Err (FileNotFoundError "missing.json"), example_world)
  ∧ (data_process.load_data (H := byte_tokenizer) example_dataset
       (Some "raw.json") example_bad_world).1 = Err (KeyError "title").
Proof.
  split.
  - destruct (load_data_errors (H := byte_tokenizer) example_dataset
                example_world) as (_ & Hmissing & _).
    apply Hmissing. vm_compute. reflexivity.
  - destruct (load_data_errors (H := byte_tokenizer) example_dataset
                example_bad_world) as (_ & _ & Hbad).
    apply (Hbad "raw.json" [example_sample] example_bad_sample
             [example_long_sample]).
    + vm_compute. reflexivity.
    + repeat constructor. eexists. vm_compute. reflexivity.
    + vm_compute. reflexivity.
Defined.

Lemma init_failure_writes_nothing_witness :
  data_process.files
    (data_process.__init__ (H := byte_tokenizer) 20 5 "data" "train"
       (Some "raw.json") false example_bad_world).2
  = data_process.files example_bad_world.
Proof.
  apply (init_failure_writes_nothing (H := byte_tokenizer) 20 5 "data"
           "train" (Some "raw.json") false example_bad_world
           (KeyError "title")).
  vm_compute. reflexivity.
Defined.

Lemma init_rebuild_writes_cache_witness :
  data_process.files example_first_run.2
  = <[data_process.path_join "data" (data_process.cached_name "train" 20)
      := data_process.TorchFile
           {[ "data_set" := data_process.data_set example_first_dataset ]}]>
      (data_process.files example_world)
  ∧ data_process.raw_reads (data_process.trace example_first_run.2)
    = S (data_process.raw_reads (data_process.trace example_world)).
Proof.
  destruct (init_rebuild_writes_cache (H := byte_tokenizer) 20 5 "data"
              "train" (Some "raw.json") false example_world
              example_first_dataset example_first_run.2)
    as (path & data & _ & _ & _ & _ & _ & Hfiles & Hreads).
  - right. vm_compute. reflexivity.
  - vm_compute. reflexivity.
  - split; [exact Hfiles | exact Hreads].
Defined.

Lemma init_cache_decides_witness :
  let second := data_process.__init__ (H := byte_tokenizer) 20 7 "data"
                  "train" None false example_first_run.2 in
  data_process.files second.2 = data_process.files example_first_run.2
  ∧ data_process.raw_reads (data_process.trace second.2)
    = data_process.raw_reads (data_process.trace example_first_run.2).
Proof.
  intros second.
  destruct (init_cache_decides (H := byte_tokenizer) 20 7 "data" "train"
              None example_first_run.2
              (data_process.TorchFile
                 {[ "data_set" :=
                      data_process.data_set example_first_dataset ]})
              second.1 second.2)
    as (Hfiles & Hreads & _).
  - vm_compute. reflexivity.
  - vm_compute. reflexivity.
  - split; [exact Hfiles | exact Hreads].
Defined.

Lemma cached_path_determines_key_witness :
  "train" = "train" ∧ 20 = 20.
Proof.
  apply (cached_path_determines_key "data" "train" "train" 20 20).
  reflexivity.
Defined.

Lemma getitem_in_range_witness :
  ∃ inst,
    data_process.data_set example_first_dataset !! Z.to_nat 1 = Some inst
    ∧ data_process.__getitem__ example_first_dataset 1 = Ok inst
    ∧ data_process.__getitem__ example_first_dataset
        (1 - data_process.__len__ example_first_dataset) = Ok inst.
Proof.
  apply (proj2 (proj2 (getitem_in_range example_first_dataset 1))).
  assert (E : data_process.__len__ example_first_dataset = 2)
    by (vm_compute; reflexivity).
  rewrite E. lia.
Defined.

Lemma dataset_items_follow_corpus_witness :
  data_process.__len__ example_first_dataset
  = len [example_sample; example_long_sample]
  ∧ ∃ input_ids token_type_ids,
      data_process.convert_feature (H := byte_tokenizer)
        example_first_dataset example_long_sample
      = Ok (input_ids, token_type_ids)
      ∧ data_process.__getitem__ example_first_dataset (Z.of_nat 1)
        = Ok (data_process.feature_dict input_ids token_type_ids).
Proof.
  destruct (dataset_items_follow_corpus (H := byte_tokenizer) 20 5 "data"
              "train" "raw.json" [example_sample; example_long_sample]
              false example_world example_first_dataset example_first_run.2)
    as [Hlen Hitems].
  - right. vm_compute. reflexivity.
  - vm_compute. reflexivity.
  - vm_compute. reflexivity.
  - split; [exact Hlen|]. apply (Hitems 1%nat). reflexivity.
Defined.

Lemma collate_loaded_batch_witness :
  ∃ X Y (L : nat),
    data_process.collate_func (data_process.data_set example_first_dataset)
    = Ok {[ "input_ids" := X; "token_type_ids" := Y ]}
    ∧ length X = length (data_process.data_set example_first_dataset)
    ∧ length Y = length (data_process.data_set example_first_dataset)
    ∧ Forall (λ row, length row = L) X
    ∧ Forall (λ row, length row = L) Y
    ∧ Z.of_nat L <= data_process.max_len example_dataset
    ∧ (∃ inst input_ids,
         inst ∈ data_process.data_set example_first_dataset
         ∧ inst !! "input_ids" = Some input_ids
         ∧ length input_ids = L)
    ∧ ∀ (i : nat) inst,
        data_process.data_set example_first_dataset !! i = Some inst →
        ∃ input_ids token_type_ids,
          inst = data_process.feature_dict input_ids token_type_ids
          ∧ length token_type_ids = length input_ids
          ∧ (length input_ids ≤ L)%nat
          ∧ X !! i = Some (input_ids ++ replicate (L - length input_ids) 0)
          ∧ Y !! i = Some (token_type_ids
                             ++ replicate (L - length token_type_ids) 0).
Proof.
  apply (collate_loaded_batch (H := byte_tokenizer) example_dataset
           (Some "raw.json") example_world
           (data_process.data_set example_first_dataset)
           (data_process.load_data (H := byte_tokenizer) example_dataset
              (Some "raw.json") example_world).2).
  - vm_compute. reflexivity.
  - intros E. apply (f_equal length) in E. vm_compute in E. discriminate E.
  - apply Forall_forall. intros inst Hin. exact Hin.
Defined.

Lemma collate_func_missing_key_witness :
  data_process.collate_func
    ([data_process.feature_dict [1; 2; 3] [0; 0; 1]]
       ++ {[ "token_type_ids" := [1] ]} :: [])
  = Err (KeyError "input_ids")
  ∧ data_process.collate_func
      ([data_process.feature_dict [1; 2; 3] [0; 0; 1]]
         ++ {[ "input_ids" := [4] ]} :: [])
    = Err (KeyError "token_type_ids").
Proof.
  assert (Hgood : Forall (λ inst : gmap string (list Z),
                            is_Some (inst !! "input_ids")
                            ∧ is_Some (inst !! "token_type_ids"))
                         [data_process.feature_dict [1; 2; 3] [0; 0; 1]]).
  { repeat constructor; eexists; vm_compute; reflexivity. }
  split.
  - apply (proj1 (collate_func_missing_key _ {[ "token_type_ids" := [1] ]}
                    [] Hgood)).
    vm_compute. reflexivity.
  - apply (proj2 (collate_func_missing_key _ {[ "input_ids" := [4] ]}
                    [] Hgood)).
    + eexists. vm_compute. reflexivity.
    + vm_compute. reflexivity.
Defined.

Lemma convert_feature_assertion_witness :
  (∃ input_ids token_type_ids,
     data_process.convert_feature (H := byte_tokenizer) example_dataset
       example_long_sample = Ok (input_ids, token_type_ids))
  ∧ data_process.convert_feature (H := byte_tokenizer) example_small_dataset
      example_sample = Err AssertionError.
Proof.
  split.
  - destruct (convert_feature_assertion (H := byte_tokenizer) example_dataset
                example_long_sample "abcdefghijklmnopqrstuvwxyz" "x z")
      as (Hfit & _ & Hroom);
      [vm_compute; reflexivity | vm_compute; reflexivity | simpl; lia |].
    apply Hfit, Hroom. simpl. lia.
  - destruct (convert_feature_assertion (H := byte_tokenizer)
                example_small_dataset example_sample "abcdefghij" "xyz")
      as (_ & Hover & _);
      [vm_compute; reflexivity | vm_compute; reflexivity | simpl; lia |].
    apply Hover. vm_compute. reflexivity.
Defined.

Lemma forward_breakpoints_per_layer_witness :
  decoder.breaks
    (decoder.forward (H := example_env) (example_decoder 2 true).1
       (example_decoder 2 true).2 [[2; -1]; [2; 2]] example_enc [1; 1] false)
  = Z.to_nat (decoder.n_layers (example_args 2 true))
  ∧ decoder.forward (H := example_env) (example_decoder 2 true).1
      (example_decoder 2 true).2 [[7]] example_enc [1] false
    = decoder.Raise IndexError.
Proof.
  destruct (forward_breakpoints_per_layer (H := example_env)
              (example_args 2 true) example_table example_table []
              [[2; -1]; [2; 2]] example_enc [1; 1] false) as [Hok _].
  destruct (forward_breakpoints_per_layer (H := example_env)
              (example_args 2 true) example_table example_table []
              [[7]] example_enc [1] false) as (_ & _ & Herr).
  split.
  - eapply Hok. vm_compute. reflexivity.
  - apply (Herr [[0; 7]] [[7; 1]]); [vm_compute; reflexivity|].
    intros Hall. apply Forall_cons in Hall as [Hrow _].
    apply Forall_cons in Hrow as [_ Hrow].
    apply Forall_cons in Hrow as [[_ Hlt] _].
    vm_compute in Hlt. discriminate Hlt.
Defined.

Lemma forward_return_attns_witness :
  ∃ pred gold attns,
    decoder.resume
      (decoder.forward (H := example_env) (example_decoder 2 true).1
         (example_decoder 2 true).2 [[2; -1]; [2; 2]] example_enc [1; 1]
         true) = Ok (pred, gold, attns)
    ∧ (∃ dec_slf_attn_list dec_enc_attn_list,
         attns = Some (dec_slf_attn_list, dec_enc_attn_list)
         ∧ length dec_slf_attn_list
           = Z.to_nat (decoder.n_layers (example_args 2 true))
         ∧ length dec_enc_attn_list
           = Z.to_nat (decoder.n_layers (example_args 2 true)))
    ∧ decoder.resume
        (decoder.forward (H := example_env) (example_decoder 2 true).1
           (example_decoder 2 true).2 [[2; -1]; [2; 2]] example_enc [1; 1]
           false) = Ok (pred, gold, None).
Proof.
  eexists _, _, _. split; [vm_compute; reflexivity|].
  apply (forward_return_attns (H := example_env) (example_args 2 true)
           example_table example_table [] [[2; -1]; [2; 2]] example_enc
           [1; 1]).
  vm_compute. reflexivity.
Defined.

Lemma forward_sharing_ignores_prj_init_witness :
  decoder.forward (H := example_env)
    (decoder.__init__ (H := example_env) (example_args 1 true)
       example_table example_table []).1
    (decoder.__init__ (H := example_env) (example_args 1 true)
       example_table example_table []).2
    [[2; -1]; [2; 2]] example_enc [1; 1] false
  = decoder.forward (H := example_env)
      (decoder.__init__ (H := example_env) (example_args 1 true)
         example_table [] []).1
      (decoder.__init__ (H := example_env) (example_args 1 true)
         example_table [] []).2
      [[2; -1]; [2; 2]] example_enc [1; 1] false.
Proof.
  apply (forward_sharing_ignores_prj_init (H := example_env)
           (example_args 1 true) example_table example_table [] []).
  reflexivity.
Defined.

Lemma decoder_layer_zero_at_masked_witness :
  decoder.resume
    (decoder.DecoderLayer_forward (H := example_env)
       (decoder.new_layer (example_args 1 true) 0)
       [[[1; 2; 3; 4]; [5; 6; 7; 8]]]%Q example_enc [[1; 0]]%Q None None)
  = Ok ([[[1; 2; 3; 4]; [0; 0; 0; 0]]]%Q, [], [])
  ∧ at2 [[[1; 2; 3; 4]; [0; 0; 0; 0]]]%Q 0 1 = Some [0; 0; 0; 0]%Q
  ∧ Forall (λ q, (q == 0)%Q) [0; 0; 0; 0]%Q.
Proof.
  assert (Hrun : decoder.resume
            (decoder.DecoderLayer_forward (H := example_env)
               (decoder.new_layer (example_args 1 true) 0)
               [[[1; 2; 3; 4]; [5; 6; 7; 8]]]%Q example_enc [[1; 0]]%Q
               None None)
          = Ok ([[[1; 2; 3; 4]; [0; 0; 0; 0]]]%Q, [], []))
    by (vm_compute; reflexivity).
  assert (Hmask : at2 [[1; 0]]%Q 0 1 = Some 0%Q) by reflexivity.
  assert (Hout : at2 [[[1; 2; 3; 4]; [0; 0; 0; 0]]]%Q 0 1
                 = Some [0; 0; 0; 0]%Q) by reflexivity.
  split; [exact Hrun|]. split; [exact Hout|].
  exact (proj2 (decoder_layer_zero_at_masked (H := example_env)
                  (decoder.new_layer (example_args 1 true) 0)
                  [[[1; 2; 3; 4]; [5; 6; 7; 8]]]%Q example_enc [[1; 0]]%Q
                  None None [[[1; 2; 3; 4]; [0; 0; 0; 0]]]%Q [] []
                  0%nat 1%nat 0%Q [0; 0; 0; 0]%Q Hrun Hmask Hout)
               (Qeq_refl 0)).
Defined.

Lemma forward_logits_zero_at_eos_witness :
  ∃ pred gold attns v,
    decoder.resume
      (decoder.forward (H := example_env) (example_decoder 1 true).1
         (example_decoder 1 true).2 [[2; -1]; [2; 2]] example_enc [1; 1]
         false) = Ok (pred, gold, attns)
    ∧ at2 pred 0 2 = Some v
    ∧ Forall (λ q, (q == 0)%Q) v.
Proof.
  assert (Hn : 0 < decoder.n_layers (example_args 1 true)) by (simpl; lia).
  assert (Hpre : decoder.preprocess (H := example_env)
                   (decoder.__init__ (H := example_env) (example_args 1 true)
                      example_table example_table []).1 [[2; -1]; [2; 2]]
                 = Ok ([[0; 2; 1]; [0; 2; 2]], [[2; 1; -1]; [2; 2; 1]]))
    by (vm_compute; reflexivity).
  assert (Heos : at2 [[0; 2; 1]; [0; 2; 2]] 0 2
                 = Some (decoder.eos_id (example_args 1 true)))
    by reflexivity.
  let r := eval vm_compute in
    (decoder.resume
       (decoder.forward (H := example_env)
          (decoder.__init__ (H := example_env) (example_args 1 true)
             example_table example_table []).1
          (decoder.__init__ (H := example_env) (example_args 1 true)
             example_table example_table []).2
          [[2; -1]; [2; 2]] example_enc [1; 1] false)) in
  lazymatch r with
  | Ok (?p, ?g, ?a) =>
      let v := eval vm_compute in (default [] (at2 p 0%nat 2%nat)) in
      assert (Hrun : decoder.resume
                (decoder.forward (H := example_env)
                   (decoder.__init__ (H := example_env) (example_args 1 true)
                      example_table example_table []).1
                   (decoder.__init__ (H := example_env) (example_args 1 true)
                      example_table example_table []).2
                   [[2; -1]; [2; 2]] example_enc [1; 1] false)
              = Ok (p, g, a)) by (vm_compute; reflexivity);
      assert (Hout : at2 p 0%nat 2%nat = Some v) by (vm_compute; reflexivity);
      exists p, g, a, v; split; [exact Hrun|]; split; [exact Hout|];
      exact (proj2 (forward_logits_zero_at_eos (H := example_env)
                      (example_args 1 true) example_table example_table []
                      [[2; -1]; [2; 2]] example_enc [1; 1] false
                      [[0; 2; 1]; [0; 2; 2]] [[2; 1; -1]; [2; 2; 1]]
                      p g a 0%nat 2%nat v Hn Hpre Hrun Heos Hout))
  end.
Defined.

Lemma decoders_do_not_share_witness :
  let A := example_decoder 1 true in
  let B := decoder.__init__ (H := example_env) (example_args 1 false)
             example_table example_table A.2 in
  decoder.weight_of (decoder.VEmbedding 0) ≠ decoder.weight_of (decoder.VLinear 3)
  ∧ ∀ m, decoder.read_weight
           (decoder.write_weight B.2 (decoder.VLinear 3) m)
           (decoder.VEmbedding 0)
         = decoder.read_weight A.2 (decoder.VEmbedding 0).
Proof.
  intros A B.
  destruct (decoders_do_not_share (H := example_env) (example_args 1 true)
              example_table example_table (example_args 1 false)
              example_table example_table []) as [_ Hsep].
  apply (Hsep "tgt_word_emb" "tgt_word_prj").
  - by left.
  - by right.
  - vm_compute. reflexivity.
  - vm_compute. reflexivity.
Defined.

Lemma expand_prunes_globally_witness :
  decoder.expand (λ ys, decoder.Ret (example_scores ys)) 2
    [{| decoder.score := 0%Q; decoder.yseq := [0] |};
     {| decoder.score := (-1 # 4)%Q; decoder.yseq := [0; 2] |}] []
  = decoder.Ret
      [{| decoder.score := (0 + (-1 # 2))%Q; decoder.yseq := [0; 2] |};
       {| decoder.score := ((-1 # 4) + (-1 # 2))%Q;
          decoder.yseq := [0; 2; 2] |}].
Proof.
  destruct (expand_prunes_globally example_scores 2 ltac:(lia)
              [{| decoder.score := 0%Q; decoder.yseq := [0] |};
               {| decoder.score := (-1 # 4)%Q; decoder.yseq := [0; 2] |}])
    as [Hexp _].
  - repeat constructor; vm_compute; congruence.
  - exact Hexp.
Defined.

Lemma beam_step_result_witness :
  decoder.beam_step (λ ys, decoder.Ret (example_scores ys)) (Ok 1) 2 3 2
    [{| decoder.score := 0%Q; decoder.yseq := [0] |}] []
  = decoder.Ret
      ([], [{| decoder.score := (0 + (-1 # 2))%Q;
               decoder.yseq := [0; 2; 1] |};
            {| decoder.score := (0 + (-1 # 1))%Q;
               decoder.yseq := [0; 1; 1] |}]).
Proof.
  destruct (beam_step_result example_scores 1 2 3 ltac:(lia) 2
              [{| decoder.score := 0%Q; decoder.yseq := [0] |}] [])
    as [Hstep _].
  - repeat constructor; vm_compute; congruence.
  - exact Hstep.
Defined.

Lemma beam_loop_hypotheses_witness :
  ∃ ended,
    decoder.beam_loop (λ ys, decoder.Ret (example_scores ys)) (Ok 1) 2 3
      (Z.to_nat 3) 0 [{| decoder.score := 0%Q; decoder.yseq := [0] |}] []
    = decoder.Ret ended
    ∧ Forall (λ h0, head (decoder.yseq h0) = Some 0
                    ∧ last (decoder.yseq h0) = Some 1
                    ∧ 2 <= len (decoder.yseq h0) <= 3 + 2) ended.
Proof.
  apply (beam_loop_hypotheses example_scores 1 2 3 ltac:(lia) 0).
  - intros ys. vm_compute. congruence.
  - lia.
Defined.
